(** * qlib.rl.neural_trading_migration.naive_config_parser

    A shallow embedding of the configuration loader of qlib
    ([naive_config_parser.py]) together with the properties its
    specification states about it.

    The Python functions work on dictionaries that are shared and mutated
    in place ([v.pop], [b[k] = ...], [config[k] = ...]), so the embedding
    keeps an explicit object store: containers live in a [heap] and are
    referred to by location; scalars are immediate values. *)

From Stdlib Require Import ZArith Floats Lia Bool Ascii String.
From stdpp Require Import base tactics option list strings pretty.

Set Warnings "-inexact-float,-register-all".
Open Scope string_scope.
Open Scope list_scope.
Open Scope nat_scope.

(** ** Values, objects and the store *)

Abbreviation loc := nat (only parsing).

(** A Python value: an immutable scalar or a reference to a container. *)
Inductive val :=
  | VNone
  | VBool (b : bool)
  | VInt (z : Z)
  | VFloat (f : float)
  | VStr (s : string)
  | VRef (l : loc).

(** A dictionary keeps its items in insertion order; keys are strings. *)
Abbreviation items A := (list (string * A)) (only parsing).

Inductive obj :=
  | ODict (d : items val)
  | OList (xs : list val)
  | OTuple (xs : list val).

Abbreviation heap := (list obj) (only parsing).

(** Deep values, as written in a literal or produced by a parser. *)
Inductive tree :=
  | TNone
  | TBool (b : bool)
  | TInt (z : Z)
  | TFloat (f : float)
  | TStr (s : string)
  | TList (xs : list tree)
  | TTuple (xs : list tree)
  | TDict (kvs : items tree).

(** Exceptions, by class; the two raised by the module itself carry their
    message.  [RecursionError] is what the interpreter raises when the
    recursion limit (the fuel of the recursive functions below) is
    exceeded; [SystemError] stands for reading a location that holds no
    object, which a well-formed store never does. *)
Inductive exn :=
  | AttributeError
  | TypeError
  | KeyError (k : string)
  | RuntimeError
  | RecursionError
  | SystemError
  | FileNotFoundError (msg : string)
  | IOError (msg : string)
  | OtherError (msg : string).

Inductive res (A : Type) :=
  | Ok (a : A)
  | Raise (e : exn).
Arguments Ok {A} a.
Arguments Raise {A} e.

(** ** The state-and-exception monad

    A computation transforms the state and either returns or raises; the
    state reached when an exception is raised is kept, as in Python. *)

Definition M (S A : Type) := S → S * res A.

Definition ret {S A} (x : A) : M S A := λ s, (s, Ok x).
Definition raise {S A} (e : exn) : M S A := λ s, (s, Raise e).
Definition bind {S A B} (m : M S A) (k : A → M S B) : M S B :=
  λ s, match m s with
       | (s', Ok x) => k x s'
       | (s', Raise e) => (s', Raise e)
       end.

Notation "x <- m ;; k" := (bind m (λ x, k))
  (at level 100, m at next level, right associativity).
Notation "m ;;; k" := (bind m (λ _, k))
  (at level 100, right associativity).

(** ** Dictionaries as ordered item lists *)

Section Dict.
Context {A : Type}.

Fixpoint dict_get (k : string) (d : items A) : option A :=
  match d with
  | [] => None
  | (k', v) :: d => if String.eqb k k' then Some v else dict_get k d
  end.

Definition dict_has (k : string) (d : items A) : bool :=
  match dict_get k d with Some _ => true | None => false end.

(** [d[k] = v]: an existing key keeps its place, a new one goes last. *)
Fixpoint dict_set (k : string) (v : A) (d : items A) : items A :=
  match d with
  | [] => [(k, v)]
  | (k', v') :: d =>
      if String.eqb k k' then (k', v) :: d else (k', v') :: dict_set k v d
  end.

(** [d.pop(k, default)], the returned value dropped. *)
Fixpoint dict_del (k : string) (d : items A) : items A :=
  match d with
  | [] => []
  | (k', v') :: d =>
      if String.eqb k k' then dict_del k d else (k', v') :: dict_del k d
  end.

(** A dictionary built by successive assignments [r[k] = v]. *)
Definition dict_of_items (l : items A) : items A :=
  fold_left (λ r kv, dict_set kv.1 kv.2 r) l [].

Definition keys (d : items A) : list string := d.*1.
End Dict.

(** ** Strings *)

(** The double quote, as a one-character string. *)
Definition dquote : string := String (ascii_of_nat 34) "".

(** [p in s] for strings: [p] occurs in [s]. *)
Fixpoint substring_of (p s : string) : bool :=
  String.prefix p s
  || match s with
     | EmptyString => false
     | String _ s' => substring_of p s'
     end.

(** [s.startswith(p)] and [s.endswith(p)] *)
Definition startswith (s p : string) : bool := String.prefix p s.

Definition endswith (s p : string) : bool :=
  let n := String.length s in
  let m := String.length p in
  (m <=? n) && String.eqb (String.substring (n - m) m s) p.

(** [s.rfind(c)] for a character [c]: the last index of [c] in [s], or
    [None] where Python gives [-1]. *)
Fixpoint rfind (c : ascii) (s : string) : option nat :=
  match s with
  | EmptyString => None
  | String x s' =>
      match rfind c s' with
      | Some i => Some (S i)
      | None => if Ascii.eqb x c then Some 0 else None
      end
  end.

(** The slices [s[:i]] and [s[i:]] *)
Definition str_take (i : nat) (s : string) : string := String.substring 0 i s.
Definition str_drop (i : nat) (s : string) : string :=
  String.substring i (String.length s - i) s.

(** ** Store operations *)

Definition alloc (o : obj) : M heap val :=
  λ h, (h ++ [o], Ok (VRef (length h))).

Definition deref (v : val) : M heap obj :=
  λ h, match v with
       | VRef l => match h !! l with
                   | Some o => (h, Ok o)
                   | None => (h, Raise SystemError)
                   end
       | _ => (h, Raise AttributeError)
       end.

Definition store (l : loc) (o : obj) : M heap unit :=
  λ h, (<[l:=o]> h, Ok tt).

(** [isinstance(v, dict)] and [isinstance(v, list)] *)
Definition is_dict (h : heap) (v : val) : bool :=
  match v with
  | VRef l => match h !! l with Some (ODict _) => true | _ => false end
  | _ => false
  end.

Definition is_list (h : heap) (v : val) : bool :=
  match v with
  | VRef l => match h !! l with Some (OList _) => true | _ => false end
  | _ => false
  end.

Definition isinstance_dict (v : val) : M heap bool := λ h, (h, Ok (is_dict h v)).
Definition isinstance_list (v : val) : M heap bool := λ h, (h, Ok (is_list h v)).

Definition is_str (k : string) (v : val) : bool :=
  match v with VStr s => String.eqb k s | _ => false end.

(** [b.copy()]: dictionaries and lists have a shallow [copy]; tuples and
    scalars have no such attribute. *)
Definition py_copy (b : val) : M heap val :=
  match b with
  | VRef _ =>
      o <- deref b ;;
      match o with
      | ODict d => alloc (ODict d)
      | OList xs => alloc (OList xs)
      | OTuple _ => raise AttributeError
      end
  | _ => raise AttributeError
  end.

(** [a.items()]: only a dictionary has items. *)
Definition py_items (a : val) : M heap (items val) :=
  match a with
  | VRef _ =>
      o <- deref a ;;
      match o with
      | ODict d => ret d
      | _ => raise AttributeError
      end
  | _ => raise AttributeError
  end.

(** [k in b] for a string [k]: key membership in a dictionary, element
    membership in a list or tuple, occurrence in a string; the other
    scalars are not iterable. *)
Definition py_contains (b : val) (k : string) : M heap bool :=
  match b with
  | VRef _ =>
      o <- deref b ;;
      match o with
      | ODict d => ret (dict_has k d)
      | OList xs | OTuple xs => ret (existsb (is_str k) xs)
      end
  | VStr s => ret (substring_of k s)
  | _ => raise TypeError
  end.

(** [b[k]] for a string [k] *)
Definition py_getitem (b : val) (k : string) : M heap val :=
  match b with
  | VRef _ =>
      o <- deref b ;;
      match o with
      | ODict d =>
          match dict_get k d with
          | Some v => ret v
          | None => raise (KeyError k)
          end
      | OList _ | OTuple _ => raise TypeError
      end
  | _ => raise TypeError
  end.

(** [b[k] = v] for a string [k] *)
Definition py_setitem (b : val) (k : string) (v : val) : M heap unit :=
  match b with
  | VRef l =>
      o <- deref b ;;
      match o with
      | ODict d => store l (ODict (dict_set k v d))
      | OList _ | OTuple _ => raise TypeError
      end
  | _ => raise TypeError
  end.

(** [v.pop(k, False)] on a dictionary [v], the result dropped. *)
Definition py_pop_default (v : val) (k : string) : M heap unit :=
  match v with
  | VRef l =>
      o <- deref v ;;
      match o with
      | ODict d => store l (ODict (dict_del k d))
      | _ => raise AttributeError
      end
  | _ => raise AttributeError
  end.

(** The check a dictionary iterator makes at every step: the dictionary
    must still have the size it had when the iteration started. *)
Definition dict_iter_check (a : val) (size0 : nat) : M heap unit :=
  d <- py_items a ;;
  if Nat.eqb (length d) size0 then ret tt else raise RuntimeError.

(** ** [merge_a_into_b]

<<
def merge_a_into_b(a: dict, b: dict) -> dict:
    b = b.copy()
    for k, v in a.items():
        if isinstance(v, dict) and k in b:
            v.pop("_delete_", False)
            b[k] = merge_a_into_b(v, b[k])
        else:
            b[k] = v
    return b
>>
    The loop runs over the items [a] had when the iteration started; a
    change of size of [a] in between makes the next step raise, and
    nothing in the loop changes [a] in another way. *)

Definition merge_loop (rec : val → val → M heap val) (a b : val) (size0 : nat)
    : items val → M heap val :=
  fix loop its :=
    dict_iter_check a size0 ;;;
    match its with
    | [] => ret b
    | (k, v) :: rest =>
        isd <- isinstance_dict v ;;
        inb <- (if isd then py_contains b k else ret false) ;;
        (if inb then
           py_pop_default v "_delete_" ;;;
           bk <- py_getitem b k ;;
           r <- rec v bk ;;
           py_setitem b k r
         else py_setitem b k v) ;;;
        loop rest
    end.

Definition merge_body (rec : val → val → M heap val) (a b : val) : M heap val :=
  b' <- py_copy b ;;
  its <- py_items a ;;
  merge_loop rec a b' (length its) its.

Fixpoint merge_a_into_b (fuel : nat) (a b : val) : M heap val :=
  match fuel with
  | 0 => raise RecursionError
  | S fuel => merge_body (merge_a_into_b fuel) a b
  end.

(** ** Building and reading back deep values *)

(** Evaluating a literal: the parts first, then the container; a
    dictionary is filled item by item, a repeated key keeping its last
    value. *)
Fixpoint build (t : tree) : M heap val :=
  match t with
  | TNone => ret VNone
  | TBool b => ret (VBool b)
  | TInt z => ret (VInt z)
  | TFloat f => ret (VFloat f)
  | TStr s => ret (VStr s)
  | TList xs =>
      vs <- (fix go xs := match xs with
                          | [] => ret []
                          | x :: xs => v <- build x ;; vs <- go xs ;; ret (v :: vs)
                          end) xs ;;
      alloc (OList vs)
  | TTuple xs =>
      vs <- (fix go xs := match xs with
                          | [] => ret []
                          | x :: xs => v <- build x ;; vs <- go xs ;; ret (v :: vs)
                          end) xs ;;
      alloc (OTuple vs)
  | TDict kvs =>
      d <- (fix go kvs := match kvs with
                          | [] => ret []
                          | (k, x) :: kvs =>
                              v <- build x ;; d <- go kvs ;; ret ((k, v) :: d)
                          end) kvs ;;
      alloc (ODict (dict_of_items d))
  end.

(** The deep value a value denotes in a store (the store may be cyclic,
    hence the depth bound). *)
Fixpoint reify (depth : nat) (h : heap) (v : val) : option tree :=
  match v with
  | VNone => Some TNone
  | VBool b => Some (TBool b)
  | VInt z => Some (TInt z)
  | VFloat f => Some (TFloat f)
  | VStr s => Some (TStr s)
  | VRef l =>
      match depth with
      | 0 => None
      | S depth =>
          match h !! l with
          | None => None
          | Some (OList xs) => TList <$> mapM (reify depth h) xs
          | Some (OTuple xs) => TTuple <$> mapM (reify depth h) xs
          | Some (ODict d) =>
              TDict <$> mapM (λ kv, pair kv.1 <$> reify depth h kv.2) d
          end
      end
  end.

(** ** Well-formed stores

    Every reference held by an object points into the store, and the keys
    of every dictionary are pairwise distinct. *)

Definition val_ok (n : nat) (v : val) : bool :=
  match v with VRef l => l <? n | _ => true end.

Fixpoint distinct (l : list string) : bool :=
  match l with
  | [] => true
  | x :: l => negb (existsb (String.eqb x) l) && distinct l
  end.

Definition obj_ok (n : nat) (o : obj) : bool :=
  match o with
  | ODict d => forallb (val_ok n) d.*2 && distinct (keys d)
  | OList xs | OTuple xs => forallb (val_ok n) xs
  end.

Definition wf_heap (h : heap) : bool := forallb (obj_ok (length h)) h.

(** [k in b], read off the store without running anything. *)
Definition contains (h : heap) (b : val) (k : string) : bool :=
  match b with
  | VRef l =>
      match h !! l with
      | Some (ODict d) => dict_has k d
      | Some (OList xs) | Some (OTuple xs) => existsb (is_str k) xs
      | None => false
      end
  | _ => false
  end.

(** The mappings nested in [a] that a merge of [a] into [b] visits: the
    dictionary values of [a] at keys that [b] has too, and so on below. *)
Inductive shared (h : heap) : val → val → loc → Prop :=
  | shared_here la d k lv b :
      h !! la = Some (ODict d) →
      (k, VRef lv) ∈ d →
      is_dict h (VRef lv) = true →
      contains h b k = true →
      shared h (VRef la) b lv
  | shared_below la d k lv lb d' bk l :
      h !! la = Some (ODict d) →
      (k, VRef lv) ∈ d →
      is_dict h (VRef lv) = true →
      h !! lb = Some (ODict d') →
      dict_get k d' = Some bk →
      shared h (VRef lv) bk l →
      shared h (VRef la) (VRef lb) l.

(** How a store may change: it only grows; an object that was there stays
    as it was, or is a dictionary at a location in [P] that lost its
    [_delete_] key, or sits at a location in [Q]. *)
Definition upd (P Q : loc → Prop) (h h' : heap) : Prop :=
  length h ≤ length h' ∧
  ∀ l o, h !! l = Some o →
    h' !! l = Some o
    ∨ (P l ∧ ∃ d, o = ODict d ∧ h' !! l = Some (ODict (dict_del "_delete_" d)))
    ∨ Q l.

Definition nowhere : loc → Prop := λ _, False.
Definition anywhere : loc → Prop := λ _, True.


(** ** [_convert_all_list_to_tuple]

<<
def _convert_all_list_to_tuple(config: dict) -> dict:
    for k, v in config.items():
        if isinstance(v, list):
            config[k] = tuple(v)
        elif isinstance(v, dict):
            config[k] = _convert_all_list_to_tuple(v)
    return config
>>
    The loop assigns to existing keys only, so the dictionary keeps its
    size and its keys; each step reads the value its key holds then. *)

(** [tuple(v)] for a list [v] *)
Definition py_tuple (v : val) : M heap val :=
  o <- deref v ;;
  match o with
  | OList xs | OTuple xs => alloc (OTuple xs)
  | ODict d => alloc (OTuple (VStr <$> keys d))
  end.

Definition convert_loop (rec : val → M heap val) (config : val)
    : list string → M heap unit :=
  fix loop ks :=
    match ks with
    | [] => ret tt
    | k :: rest =>
        v <- py_getitem config k ;;
        isl <- isinstance_list v ;;
        (if isl then
           t <- py_tuple v ;;
           py_setitem config k t
         else
           isd <- isinstance_dict v ;;
           if isd then
             c <- rec v ;;
             py_setitem config k c
           else ret tt) ;;;
        loop rest
    end.

Fixpoint _convert_all_list_to_tuple (fuel : nat) (config : val) : M heap val :=
  match fuel with
  | 0 => raise RecursionError
  | S fuel =>
      its <- py_items config ;;
      convert_loop (_convert_all_list_to_tuple fuel) config (keys its) ;;;
      ret config
  end.

(** ** The interpreter state around the store, and the files

    [sys.path], the names registered in [sys.modules], and the number of
    temporary directories made so far (from which their names derive). *)

Record world := World {
  w_heap : heap;
  sys_path : list string;
  sys_modules : list string;
  tmp_seq : nat;
}.

Definition lift {A} (m : M heap A) : M world A :=
  λ w, let (h, r) := m (w_heap w) in
       (World h (sys_path w) (sys_modules w) (tmp_seq w), r).

(** What a file holds, read in the two ways the loader reads files:
    imported as a Python module (the module's [__dict__], or the exception
    the import raises) and parsed by [yaml.safe_load] (the value, or the
    exception the parser raises). *)
Record file := File {
  as_module : exn + items tree;
  as_yaml : exn + tree;
}.

(** *** [os.path] on POSIX *)

(** [os.path.splitext(p)[1]]: the extension starts at the last dot of the
    last path component, unless that component has only dots before it. *)
Definition splitext_ext (p : string) : string :=
  let sepIndex := rfind "/" p in
  let dotIndex := rfind "." p in
  match dotIndex with
  | None => ""
  | Some d =>
      let filenameIndex := match sepIndex with Some s => S s | None => 0 end in
      if (filenameIndex <=? d)
         && negb (String.eqb (String.substring filenameIndex (d - filenameIndex) p)
                    (String.concat "" (repeat "." (d - filenameIndex))))
      then str_drop d p
      else ""
  end.

(** [s.rstrip("/")] *)
Fixpoint rstrip_slash (s : string) : string :=
  match s with
  | EmptyString => EmptyString
  | String c s' =>
      match rstrip_slash s' with
      | EmptyString => if Ascii.eqb c "/" then EmptyString else String c EmptyString
      | t => String c t
      end
  end.

(** [os.path.dirname(p)] *)
Definition dirname (p : string) : string :=
  let i := match rfind "/" p with Some s => S s | None => 0 end in
  let head := str_take i p in
  match rstrip_slash head with
  | EmptyString => head
  | stripped => stripped
  end.

(** [os.path.join(a, b)] for strings *)
Definition path_join (a b : string) : string :=
  if startswith b "/" then b
  else if String.eqb a "" || endswith a "/" then a +:+ b
  else a +:+ "/" +:+ b.

(** [os.path.join(a, f)] where [f] is any value *)
Definition py_path_join (a : string) (f : val) : M world string :=
  match f with
  | VStr b => ret (path_join a b)
  | _ => raise TypeError
  end.

Definition supported_ext : list string := [".py"; ".json"; ".yaml"; ".yml"].

Definition unsupported_msg : string :=
  "Only py/yml/yaml/json type are supported now!".

Definition not_found_msg (filename : string) : string :=
  "file " +:+ dquote +:+ filename +:+ dquote +:+ " does not exist".

(** *** [sys.path] and [sys.modules] *)

(** [sys.path.insert(0, d)] *)
Definition sys_path_insert0 (d : string) : M world unit :=
  λ w, (World (w_heap w) (d :: sys_path w) (sys_modules w) (tmp_seq w), Ok tt).

(** [sys.path.pop(0)] *)
Definition sys_path_pop0 : M world unit :=
  λ w, match sys_path w with
       | [] => (w, Raise (OtherError "IndexError"))
       | _ :: p => (World (w_heap w) p (sys_modules w) (tmp_seq w), Ok tt)
       end.

(** [del sys.modules[name]] *)
Definition del_sys_module (name : string) : M world unit :=
  λ w, if existsb (String.eqb name) (sys_modules w) then
         (World (w_heap w) (sys_path w)
            (filter (λ m, m ≠ name) (sys_modules w)) (tmp_seq w), Ok tt)
       else (w, Raise (KeyError name)).

(** A dictionary built from items, by successive assignments. *)
Definition new_dict (its : items val) : M heap val :=
  alloc (ODict (dict_of_items its)).

(** Evaluating the elements of a list or tuple literal, in order. *)
Fixpoint build_elems (xs : list tree) : M heap (list val) :=
  match xs with
  | [] => ret []
  | x :: xs => v <- build x ;; vs <- build_elems xs ;; ret (v :: vs)
  end.

(** Evaluating the bindings of a module, in order. *)
Fixpoint build_items (kvs : items tree) : M heap (items val) :=
  match kvs with
  | [] => ret []
  | (k, t) :: kvs => v <- build t ;; d <- build_items kvs ;; ret ((k, v) :: d)
  end.

(** [config.pop("_base_")] on a value known to contain ["_base_"]: only a
    dictionary has such a [pop]. *)
Definition py_pop (config : val) (k : string) : M heap val :=
  match config with
  | VRef l =>
      o <- deref config ;;
      match o with
      | ODict d =>
          match dict_get k d with
          | Some v => store l (ODict (dict_del k d)) ;;; ret v
          | None => raise (KeyError k)
          end
      | OList _ => raise TypeError
      | OTuple _ => raise AttributeError
      end
  | _ => raise AttributeError
  end.

(** The elements of a list, for [for f in base_file_name]. *)
Definition py_list_elems (v : val) : M heap (list val) :=
  o <- deref v ;;
  match o with
  | OList xs => ret xs
  | _ => raise TypeError
  end.

Section Loader.

(** The surroundings of the loader: how a path is made absolute (which
    depends on the working directory), the files there are, and the names
    [tempfile] gives to the [n]-th temporary directory and to the module
    copied into it. *)
Variable abspath : string → string.
Variable files : string → option file.
Variable tmp_dir : nat → string.
Variable tmp_module : nat → string.

(** [check_file_exist(filename)] *)
Definition check_file_exist (filename : string) : M world unit :=
  match files filename with
  | Some _ => ret tt
  | None => raise (FileNotFoundError (not_found_msg filename))
  end.

(** [import_module(name)] for the module copied from [abs_path]: on
    success the module is registered under [name] and its bindings are
    evaluated; an exception raised by the module's code leaves nothing
    registered.  A module is described by its bindings (or the exception
    it raises) alone: what its code may do besides (import other modules,
    change [sys.path]) is outside this description. *)
Definition import_module (abs_path name : string) : M world (items val) :=
  match as_module <$> files abs_path with
  | Some (inr bindings) =>
      (λ w, (World (w_heap w) (sys_path w) (name :: sys_modules w) (tmp_seq w),
             Ok tt)) ;;;
      lift (build_items bindings)
  | Some (inl e) => raise e
  | None => raise (OtherError "ModuleNotFoundError")
  end.

(** [yaml.safe_load(open(...))] *)
Definition yaml_safe_load (abs_path : string) : M world val :=
  match as_yaml <$> files abs_path with
  | Some (inr t) => lift (build t)
  | Some (inl e) => raise e
  | None => raise (OtherError "FileNotFoundError")
  end.

(** The body of the [with tempfile.TemporaryDirectory()] block.  Of the
    temporary directory only its name matters here (the [n]-th one); what
    [tempfile] imports for its own use is not recorded in [sys_modules]. *)
Definition load_file (abs_path : string) : M world val :=
  n <- (λ w, (World (w_heap w) (sys_path w) (sys_modules w) (S (tmp_seq w)),
              Ok (tmp_seq w))) ;;
  let tmp_config_dir := tmp_dir n in
  if endswith abs_path ".py" then
    let tmp_module_name := tmp_module n in
    sys_path_insert0 tmp_config_dir ;;;
    module_dict <- import_module abs_path tmp_module_name ;;
    sys_path_pop0 ;;;
    config <- lift (new_dict (filter (λ kv, negb (startswith kv.1 "__")) module_dict)) ;;
    del_sys_module tmp_module_name ;;;
    ret config
  else yaml_safe_load abs_path.

(** The fold over the base files:
<<
        for f in base_file_name:
            base_config = parse_backtest_config(os.path.join(os.path.dirname(abs_path), f))
            config = merge_a_into_b(a=config, b=base_config)
>> *)
Fixpoint merge_bases (parse : string → M world val) (fuel : nat)
    (dir : string) (bases : list val) (config : val) : M world val :=
  match bases with
  | [] => ret config
  | f :: bases =>
      p <- py_path_join dir f ;;
      base_config <- parse p ;;
      config <- lift (merge_a_into_b fuel config base_config) ;;
      merge_bases parse fuel dir bases config
  end.

(** [parse_backtest_config(path)]; the fuel is the recursion depth left. *)
Fixpoint parse_backtest_config (fuel : nat) (path : string) : M world val :=
  match fuel with
  | 0 => raise RecursionError
  | S fuel =>
      let abs_path := abspath path in
      check_file_exist abs_path ;;;
      let file_ext_name := splitext_ext abs_path in
      if negb (existsb (String.eqb file_ext_name) supported_ext) then
        raise (IOError unsupported_msg)
      else
        config <- load_file abs_path ;;
        has_base <- lift (py_contains config "_base_") ;;
        if has_base then
          base_file_name <- lift (py_pop config "_base_") ;;
          isl <- lift (isinstance_list base_file_name) ;;
          bases <- (if isl then lift (py_list_elems base_file_name)
                    else ret [base_file_name]) ;;
          merge_bases (parse_backtest_config fuel) fuel (dirname abs_path)
            bases config
        else ret config
  end.

(** ** [get_backtest_config_fromfile] *)

Definition exchange_config_default : items tree :=
  [("open_cost", TFloat 0.0005);
   ("close_cost", TFloat 0.0015);
   ("min_cost", TFloat 5.0);
   ("trade_unit", TFloat 100.0);
   ("cash_limit", TNone);
   ("generate_report", TBool false)].

Definition backtest_config_default : items tree :=
  [("debug_single_stock", TNone);
   ("debug_single_day", TNone);
   ("concurrency", TInt (-1));
   ("multiplier", TFloat 1.0);
   ("output_dir", TStr "outputs/")].

(** The function after [backtest_config = parse_backtest_config(path)]. *)
Definition apply_defaults (fuel : nat) (backtest_config : val) : M heap val :=
  exchange_default <- build (TDict exchange_config_default) ;;
  exchange <- py_getitem backtest_config "exchange" ;;
  merged <- merge_a_into_b fuel exchange exchange_default ;;
  py_setitem backtest_config "exchange" merged ;;;
  exchange <- py_getitem backtest_config "exchange" ;;
  converted <- _convert_all_list_to_tuple fuel exchange ;;
  py_setitem backtest_config "exchange" converted ;;;
  config_default <- build (TDict backtest_config_default) ;;
  merge_a_into_b fuel backtest_config config_default.

Definition get_backtest_config_fromfile (fuel : nat) (path : string) : M world val :=
  backtest_config <- parse_backtest_config fuel path ;;
  lift (apply_defaults fuel backtest_config).

End Loader.

(** ** [convert_instance_config]

    The function reads its argument and builds new containers; nothing is
    changed in place, so it is a function of deep values.  Deep values are
    finite, and the function is given by recursion on them: the
    interpreter's recursion limit, which a value nested deeply enough
    exceeds, is not part of it. *)

(** ["." in type_name]: occurrence in a string, membership in a list, a
    tuple or the keys of a dictionary; the other values are not iterable. *)
Definition tree_is_str (k : string) (t : tree) : bool :=
  match t with TStr s => String.eqb k s | _ => false end.

Definition dot_in (type_name : tree) : res bool :=
  match type_name with
  | TStr s => Ok (substring_of "." s)
  | TList xs | TTuple xs => Ok (existsb (tree_is_str ".") xs)
  | TDict kvs => Ok (dict_has "." kvs)
  | _ => Raise TypeError
  end.

(** The split of [type_name] into [(module_path, class_name)]. *)
Definition split_type (type_name : tree) : res (tree * tree) :=
  match dot_in type_name with
  | Raise e => Raise e
  | Ok true =>
      match type_name with
      | TStr s =>
          match rfind "." s with
          | Some idx => Ok (TStr (str_take idx s), TStr (str_drop (S idx) s))
          | None => Raise (OtherError "ValueError")
          end
      | _ => Raise AttributeError
      end
  | Ok false => Ok (TStr "", type_name)
  end.

Definition res_bind {A B} (m : res A) (k : A → res B) : res B :=
  match m with Ok x => k x | Raise e => Raise e end.

(** [kwargs[k] = rec(v)] for every item of [kvs] in turn, starting from the
    dictionary [kwargs]; with [skip_type], the items with the key ["type"]
    are skipped ([continue]). *)
Definition convert_items (rec : tree → res tree) (skip_type : bool)
    : items tree → items tree → res (items tree) :=
  fix go kvs kwargs :=
    match kvs with
    | [] => Ok kwargs
    | (k, v) :: kvs =>
        if skip_type && String.eqb k "type" then go kvs kwargs
        else res_bind (rec v) (λ v', go kvs (dict_set k v' kwargs))
    end.

(** [[rec(item) for item in config]] *)
Definition convert_elems (rec : tree → res tree) : list tree → res (list tree) :=
  fix go xs :=
    match xs with
    | [] => Ok []
    | x :: xs => res_bind (rec x) (λ x', res_bind (go xs) (λ xs', Ok (x' :: xs')))
    end.

Fixpoint convert_instance_config (config : tree) : res tree :=
  match config with
  | TDict kvs =>
      match dict_get "type" kvs with
      | Some type_name =>
          res_bind (split_type type_name) (λ '(module_path, class_name),
          res_bind (convert_items convert_instance_config true kvs []) (λ kwargs,
          Ok (TDict [("class", class_name);
                     ("module_path", module_path);
                     ("kwargs", TDict kwargs)])))
      | None =>
          res_bind (convert_items convert_instance_config false kvs [])
            (λ kvs', Ok (TDict kvs'))
      end
  | TList xs =>
      res_bind (convert_elems convert_instance_config xs) (λ xs', Ok (TList xs'))
  | TTuple xs =>
      res_bind (convert_elems convert_instance_config xs) (λ xs', Ok (TTuple xs'))
  | _ => Ok config
  end.

(** ** Running a merge on deep values *)

(** The store in which [ta] and [tb] have been evaluated, and the outcome
    of merging the first into the second there. *)
Definition run_merge (fuel : nat) (ta tb : tree) : heap * res (val * val * val) :=
  (a <- build ta ;;
   b <- build tb ;;
   r <- merge_a_into_b fuel a b ;;
   ret (a, b, r)) [].

Definition deep (h : heap) (v : val) : option tree := reify (length h) h v.

(** The deep values, after the merge, of the result, of the overlay and
    of the base. *)
Definition merge_deep (fuel : nat) (ta tb : tree)
    : res (option tree * option tree * option tree) :=
  let (h, r) := run_merge fuel ta tb in
  match r with
  | Ok (a, b, v) => Ok (deep h v, deep h a, deep h b)
  | Raise e => Raise e
  end.

(** Running the conversion on a literal, read back as a deep value. *)
Definition convert_deep (fuel : nat) (t : tree) : res (option tree) :=
  let (h, r) := (c <- build t ;; _convert_all_list_to_tuple fuel c) [] in
  match r with
  | Ok v => Ok (deep h v)
  | Raise e => Raise e
  end.

(** ** The specification's reading of the merge

    The deep merge as section 4.1 of the specification words it, on deep
    values: an overlay value that is a mapping is merged into a base value
    that is a mapping, key by key; any other overlay value replaces the
    base's; base entries the overlay lacks stay. *)
Fixpoint spec_merge_into (overlay : tree) (base : items tree) : items tree :=
  match overlay with
  | TDict ov =>
      (fix go (ov : items tree) (result : items tree) : items tree :=
         match ov with
         | [] => result
         | (k, v) :: ov =>
             go ov
               (dict_set k
                  match v, dict_get k base with
                  | TDict _, Some (TDict vb) => TDict (spec_merge_into v vb)
                  | _, _ => v
                  end
                  result)
         end) ov base
  | _ => base
  end.

Definition spec_merge (overlay base : items tree) : items tree :=
  spec_merge_into (TDict overlay) base.



(** The deep value of the result of a merge, and of its two arguments
    after it; [None] when the merge raises. *)
Definition merge_value (fuel : nat) (ta tb : tree) : option tree :=
  match merge_deep fuel ta tb with Ok (t, _, _) => t | Raise _ => None end.

Definition overlay_after (fuel : nat) (ta tb : tree) : option tree :=
  match merge_deep fuel ta tb with Ok (_, t, _) => t | Raise _ => None end.

Definition base_after (fuel : nat) (ta tb : tree) : option tree :=
  match merge_deep fuel ta tb with Ok (_, _, t) => t | Raise _ => None end.

Definition is_ref (v : val) : bool :=
  match v with VRef _ => true | _ => false end.

(** ** The specification's reading of the conversion

    Every list inside a deep value has become a tuple: no list is left
    anywhere in it. *)
Fixpoint list_free (t : tree) : bool :=
  match t with
  | TList _ => false
  | TTuple xs => forallb list_free xs
  | TDict kvs =>
      (fix go (kvs : items tree) : bool :=
         match kvs with
         | [] => true
         | (_, v) :: kvs => list_free v && go kvs
         end) kvs
  | _ => true
  end.

(** ** Example inputs *)

(** The store after [a = {"k": {"_delete_": True, "q": 2}}] (at location 1)
    and [b = {"k": {"p": 1}}] (at location 3) have been evaluated. *)
Definition ex_store : heap :=
  [ODict [("_delete_", VBool true); ("q", VInt 2)];
   ODict [("k", VRef 0)];
   ODict [("p", VInt 1)];
   ODict [("k", VRef 2)]].

(** The store after [merge_a_into_b(a, b)] there. *)
Definition ex_store_merged : heap :=
  [ODict [("q", VInt 2)];
   ODict [("k", VRef 0)];
   ODict [("p", VInt 1)];
   ODict [("k", VRef 2)];
   ODict [("k", VRef 5)];
   ODict [("p", VInt 1); ("q", VInt 2)]].

(** The store after [a = {"k": {}}] (at location 1) and [b = {"k": 1}] (at
    location 2) have been evaluated. *)
Definition ex_store_scalar : heap :=
  [ODict []; ODict [("k", VRef 0)]; ODict [("k", VInt 1)]].

(** ** Shapes of deep values, for the normalizer *)

(** Every key ["type"] of every mapping in [t] holds a string. *)
Fixpoint str_typed (t : tree) : bool :=
  match t with
  | TList xs | TTuple xs => forallb str_typed xs
  | TDict kvs =>
      (fix go (kvs : items tree) : bool :=
         match kvs with
         | [] => true
         | (k, v) :: kvs =>
             (if String.eqb k "type" then
                match v with TStr _ => true | _ => false end
              else true)
             && str_typed v && go kvs
         end) kvs
  | _ => true
  end.

(** No mapping in [t] has the key ["type"], and the keys of every mapping
    in [t] are distinct. *)
Fixpoint type_free (t : tree) : bool :=
  match t with
  | TList xs | TTuple xs => forallb type_free xs
  | TDict kvs =>
      distinct (keys kvs)
      && (fix go (kvs : items tree) : bool :=
            match kvs with
            | [] => true
            | (k, v) :: kvs =>
                negb (String.eqb k "type") && type_free v && go kvs
            end) kvs
  | _ => true
  end.

Definition is_scalar (t : tree) : bool :=
  match t with
  | TList _ | TTuple _ | TDict _ => false
  | _ => true
  end.

(** ** Example files

    A directory [/cfg] with a base file, a child of it, a module that sets
    an exchange section, a module whose code raises, and a text file. *)
Definition ex_file_a : file :=
  File (inl (OtherError "SyntaxError"))
       (inr (TDict [("x", TInt 1); ("y", TDict [("p", TInt 1)])])).

Definition ex_file_b : file :=
  File (inl (OtherError "SyntaxError"))
       (inr (TDict [("_base_", TStr "a.yaml");
                    ("y", TDict [("q", TInt 2)]);
                    ("z", TInt 3)])).

Definition ex_file_exchange : file :=
  File (inr [("__name__", TStr "tmpmod");
             ("exchange", TDict [("open_cost", TFloat 0.01);
                                 ("limits", TList [TInt 1; TInt 2]);
                                 ("sub", TDict [("days", TList [])])])])
       (inl (OtherError "ScannerError")).

Definition ex_file_raising : file :=
  File (inl (OtherError "ZeroDivisionError")) (inl (OtherError "ScannerError")).

Definition ex_files (p : string) : option file :=
  if String.eqb p "/cfg/a.yaml" then Some ex_file_a
  else if String.eqb p "/cfg/b.yaml" then Some ex_file_b
  else if String.eqb p "/cfg/c.py" then Some ex_file_exchange
  else if String.eqb p "/cfg/bad.py" then Some ex_file_raising
  else if String.eqb p "/cfg/n.txt" then Some ex_file_a
  else None.

(** [os.path.abspath] with [/cfg] as the working directory, on paths that
    are already normalised. *)
Definition ex_abspath (p : string) : string := path_join "/cfg" p.

Definition ex_tmp_dir (n : nat) : string := "/tmp/tmp" +:+ pretty n.
Definition ex_tmp_module (n : nat) : string := "tmp" +:+ pretty n.

Definition ex_world : world :=
  World [] ["/usr/lib/python3"] ["sys"; "os"] 0.

(** The deep value of what a computation in a world returns. *)
Definition deep_result (x : world * res val) : res (option tree) :=
  match x.2 with
  | Ok v => Ok (deep (w_heap x.1) v)
  | Raise e => Raise e
  end.



(** A file that names itself as its base. *)
Definition ex_file_self : file :=
  File (inl (OtherError "SyntaxError"))
       (inr (TDict [("_base_", TStr "self.yaml"); ("x", TInt 1)])).

Definition ex_files_self (p : string) : option file :=
  if String.eqb p "/cfg/self.yaml" then Some ex_file_self else None.

(** A file whose exchange section holds a list inside a list. *)
Definition ex_file_nested : file :=
  File (inl (OtherError "SyntaxError"))
       (inr (TDict [("exchange",
                     TDict [("limits",
                             TList [TList [TInt 1; TInt 2]; TInt 3])])])).

Definition ex_files_nested (p : string) : option file :=
  if String.eqb p "/cfg/nested.yaml" then Some ex_file_nested else None.

(** A file whose base does not exist, and one whose exchange section is
    [null]. *)
Definition ex_file_orphan : file :=
  File (inl (OtherError "SyntaxError"))
       (inr (TDict [("_base_", TStr "missing.yaml"); ("z", TInt 3)])).

Definition ex_file_null : file :=
  File (inl (OtherError "SyntaxError"))
       (inr (TDict [("exchange", TNone)])).

Definition ex_files_more (p : string) : option file :=
  if String.eqb p "/cfg/orphan.yaml" then Some ex_file_orphan
  else if String.eqb p "/cfg/null.yaml" then Some ex_file_null
  else None.

(** ** Dictionary updates *)

(** [d.update(l)]: the assignments [d[k] = v] for the items of [l], in
    order. *)
Definition dict_update {A} (l d : items A) : items A :=
  fold_left (λ r kv, dict_set kv.1 kv.2 r) l d.

(** ** Notions used to state what a merge does *)

(** Safety of a merge: the store stays well formed, objects that were
    there change only by losing [_delete_] where the merge visits, and the
    result is a new object. *)
Definition merge_sound (rec : val → val → M heap val) : Prop :=
  ∀ a b h h' r,
    wf_heap h = true → val_ok (length h) a = true → val_ok (length h) b = true →
    rec a b h = (h', r) →
    wf_heap h' = true ∧ upd (shared h a b) nowhere h h' ∧
    ∀ v, r = Ok v → v = VRef (length h) ∧ length h < length h'.

Definition merge_total (good : heap → val → val → Prop)
    (rec : val → val → M heap val) : Prop :=
  ∀ a b h,
    wf_heap h = true → val_ok (length h) a = true → val_ok (length h) b = true →
    good h a b → ∃ h' v, rec a b h = (h', Ok v).

Definition good_mono (good : heap → val → val → Prop) : Prop :=
  ∀ h h' a b,
    wf_heap h = true → val_ok (length h) a = true → val_ok (length h) b = true →
    upd anywhere (λ l, length h ≤ l) h h' → good h a b → good h' a b.

(** The copy of [b] (the object [ob] when the merge started) while the
    loop runs: at the keys still to come it holds what [b] held. *)
Definition copy_inv (ob : obj) (its : items val) (oc : obj) : Prop :=
  match ob with
  | ODict B =>
      ∃ Rc, oc = ODict Rc ∧ ∀ k, k ∈ keys its → dict_get k Rc = dict_get k B
  | OList xs => oc = OList xs
  | OTuple _ => False
  end.

(** The outcome of the loop of a merge of [la] into [lb] started in the
    store [h0], item by item: [its] are the items still to be processed,
    [Rc] what the copy holds in the store [hc] before and [R] what it holds
    in the store [h'] after them.  A key that is not among [its] is left
    alone; an item whose value is not a dictionary, or whose key the copy
    lacks, is stored as it is; any other item [(k, v)] is replaced by the
    outcome [rk] of the call [rec v bk], made in a store [h1] in which [v]
    has no [_delete_] key. *)
Definition loop_items (rec : val → val → M heap val) (h0 : heap) (la lb : loc)
    (its Rc R : items val) (hc h' : heap) : Prop :=
  (∀ k, dict_get k its = None → dict_get k R = dict_get k Rc) ∧
  (∀ k v, dict_get k its = Some v →
     is_dict h0 v && dict_has k Rc = false → dict_get k R = Some v) ∧
  (∀ k v bk, dict_get k its = Some v →
     is_dict h0 v = true → dict_get k Rc = Some bk →
     ∃ h1 h2 lv d rk,
       upd (shared h0 (VRef la) (VRef lb)) (eq (length h0)) hc h1 ∧
       wf_heap h1 = true ∧
       v = VRef lv ∧ h1 !! lv = Some (ODict d) ∧ dict_has "_delete_" d = false ∧
       rec v bk h1 = (h2, Ok rk) ∧ dict_get k R = Some rk ∧
       upd (shared h0 (VRef la) (VRef lb)) (eq (length h0)) h2 h').

Definition loop_post (rec : val → val → M heap val) (h0 : heap) (la lb : loc)
    (ob : obj) (its : items val) (hc h' : heap) (r : res val) : Prop :=
  wf_heap h' = true ∧
  upd (shared h0 (VRef la) (VRef lb)) (eq (length h0)) hc h' ∧
  ∀ v, r = Ok v →
    v = VRef (length h0) ∧
    match ob with
    | ODict _ =>
        ∃ Rc R, hc !! length h0 = Some (ODict Rc) ∧
                h' !! length h0 = Some (ODict R) ∧
                loop_items rec h0 la lb its Rc R hc h'
    | _ => its = [] ∧ h' !! length h0 = hc !! length h0
    end.

(** When the loop runs to its end: the merge does not visit [la] itself,
    and the calls it makes return. *)
Definition loop_good (good : heap → val → val → Prop) (h0 : heap) (la lb : loc)
    (ob : obj) (its : items val) : Prop :=
  ¬ shared h0 (VRef la) (VRef lb) la ∧
  match ob with
  | ODict B =>
      ∀ k v bk, (k, v) ∈ its → is_dict h0 v = true →
                dict_get k B = Some bk → good h0 v bk
  | OList _ => its = []
  | OTuple _ => False
  end.

Definition loop_claim (rec : val → val → M heap val)
    (good : heap → val → val → Prop) (h0 : heap) (la lb : loc)
    (A : items val) (ob : obj) (its : items val) : Prop :=
  ∀ hc oc h' r,
    (∀ x, x ∈ its → x ∈ A) → NoDup (keys its) →
    wf_heap hc = true →
    upd (shared h0 (VRef la) (VRef lb)) (eq (length h0)) h0 hc →
    hc !! length h0 = Some oc → copy_inv ob its oc →
    merge_loop rec (VRef la) (VRef (length h0)) (length A) its hc = (h', r) →
    loop_post rec h0 la lb ob its hc h' r ∧
    (loop_good good h0 la lb ob its → ∃ v, r = Ok v).

(** What a merge returns: a new object; for dictionaries [a] and [b] the
    items described by [loop_items], and for an empty [a] and a list [b] a
    copy of the list. *)
Definition merge_result (rec : val → val → M heap val)
    (a b : val) (h h' : heap) (v : val) : Prop :=
  v = VRef (length h) ∧ length h < length h' ∧
  ∃ la A lb ob,
    a = VRef la ∧ b = VRef lb ∧
    h !! la = Some (ODict A) ∧ h !! lb = Some ob ∧
    match ob with
    | ODict B =>
        ∃ R, h' !! length h = Some (ODict R) ∧
             loop_items rec h la lb A B R (h ++ [ob]) h'
    | OList xs => A = [] ∧ h' !! length h = Some (OList xs)
    | OTuple _ => False
    end.

(** When a merge returns, given when the calls it makes do. *)
Definition merge_good (good : heap → val → val → Prop)
    (h : heap) (a b : val) : Prop :=
  ∃ la A lb ob,
    a = VRef la ∧ b = VRef lb ∧
    h !! la = Some (ODict A) ∧ h !! lb = Some ob ∧
    loop_good good h la lb ob A.

(** A sufficient shape for a merge of [a] into [b] to return within
    recursion depth [n]: wherever the merge descends, it meets a dictionary
    on both sides (or an empty dictionary on a list), and never a
    dictionary that it is still iterating over ([seen]). *)
Fixpoint mergeable (n : nat) (seen : list loc) (h : heap) (a b : val) : bool :=
  match n with
  | 0 => false
  | S n =>
      match a, b with
      | VRef la, VRef lb =>
          match h !! la, h !! lb with
          | Some (ODict A), Some (ODict B) =>
              forallb
                (λ kv,
                   if is_dict h kv.2 && dict_has kv.1 B then
                     match kv.2, dict_get kv.1 B with
                     | VRef lv, Some bk =>
                         negb (existsb (Nat.eqb lv) (la :: seen))
                         && mergeable n (la :: seen) h kv.2 bk
                     | _, _ => false
                     end
                   else true)
                A
          | Some (ODict A), Some (OList _) =>
              match A with [] => true | _ => false end
          | _, _ => false
          end
      | _, _ => false
      end
  end.

(** ** Notions used to state what the loader does to the store *)

(** The values an object holds. *)
Definition refs (o : obj) : list val :=
  match o with
  | ODict d => d.*2
  | OList xs | OTuple xs => xs
  end.

(** A value that does not point below [n0], and a store in which no
    object from [n0] on points below [n0]. *)
Definition vabove (n0 : nat) (v : val) : Prop :=
  match v with VRef l => n0 ≤ l | _ => True end.

Definition above (n0 : nat) (h : heap) : Prop :=
  ∀ l o v, h !! l = Some o → n0 ≤ l → v ∈ refs o → vabove n0 v.

(** The invariant of the loader started in a store of size [n0], and what
    a step of it may do: the store grows and the objects below [n0] stay
    as they are. *)
Definition inv (n0 : nat) (h : heap) : Prop :=
  n0 ≤ length h ∧ wf_heap h = true ∧ above n0 h.

Definition frame (n0 : nat) (h h' : heap) : Prop :=
  length h ≤ length h' ∧ ∀ l, l < n0 → h' !! l = h !! l.

(** The store [h'] is [h] with new objects after it, which refer to new
    objects only. *)
Definition extends (h h' : heap) : Prop :=
  wf_heap h' = true ∧ (∃ new, h' = h ++ new) ∧ above (length h) h'.

(** A value of a store of size [n] made of objects from [n0] on. *)
Definition new_val (n0 n : nat) (v : val) : Prop :=
  val_ok n v = true ∧ vabove n0 v.

(** A computation that returns in every well-formed store, adding objects
    to it; [ok] relates the sizes of the store before and after to what
    is returned. *)
Definition builds {A} (m : M heap A) (ok : nat → nat → A → Prop) : Prop :=
  ∀ h, wf_heap h = true →
    ∃ h' x, m h = (h', Ok x) ∧ extends h h' ∧ ok (length h) (length h') x.

(** An item and its normalised form. *)
Definition converts (kv kv' : string * tree) : Prop :=
  kv'.1 = kv.1 ∧ convert_instance_config kv.2 = Ok kv'.2.

(** What a run of the loader that started in a store of size [n0] keeps. *)
Definition loader_post (n0 : nat) (w w' : world) (r : res val) : Prop :=
  inv n0 (w_heap w') ∧ frame n0 (w_heap w) (w_heap w') ∧
  ∀ v, r = Ok v → new_val n0 (length (w_heap w')) v.


(** ** Precedence of the file's own mapping *)





(** ** Notions used to state what the assembly does *)

(** What [_convert_all_list_to_tuple] may do to a value held at a key: keep
    it, or replace a list by a new tuple of the same elements. *)
Definition entry_conv (h h' : heap) (v v' : val) : Prop :=
  v' = v
  ∨ ∃ l lt xs, v = VRef l ∧ h !! l = Some (OList xs) ∧
               v' = VRef lt ∧ length h ≤ lt ∧ h' !! lt = Some (OTuple xs).

(** What it may do to the store: lists and tuples stay as they are, and a
    dictionary keeps its keys, each with its value kept or converted. *)
Definition conv (h h' : heap) : Prop :=
  length h ≤ length h' ∧
  ∀ l o, h !! l = Some o →
    match o with
    | ODict d =>
        ∃ d', h' !! l = Some (ODict d') ∧ keys d' = keys d ∧
              ∀ k v, dict_get k d = Some v →
                     ∃ v', dict_get k d' = Some v' ∧ entry_conv h h' v v'
    | _ => h' !! l = Some o
    end.

(** [v] is a mapping that holds no list at any key, nor does any mapping
    nested in it through its keys, the nesting being less than [n] deep. *)
Fixpoint tupled (n : nat) (h : heap) (v : val) : bool :=
  match n with
  | 0 => false
  | S n =>
      match v with
      | VRef l =>
          match h !! l with
          | Some (ODict d) =>
              forallb (λ kv, negb (is_list h kv.2)
                             && (negb (is_dict h kv.2) || tupled n h kv.2)) d
          | _ => false
          end
      | _ => false
      end
  end.

Definition convert_sound (rec : val → M heap val) (n : nat) : Prop :=
  ∀ config h h' r,
    wf_heap h = true → val_ok (length h) config = true →
    rec config h = (h', r) →
    wf_heap h' = true ∧ conv h h' ∧
    ∀ v, r = Ok v → v = config ∧ tupled n h' config = true.

(** The value of a scalar literal, and the two default mappings as the
    store holds them. *)
Definition scalar_val (t : tree) : val :=
  match t with
  | TBool b => VBool b
  | TInt z => VInt z
  | TFloat f => VFloat f
  | TStr s => VStr s
  | _ => VNone
  end.

Definition exchange_default_items : items val :=
  (λ kv, (kv.1, scalar_val kv.2)) <$> exchange_config_default.

Definition backtest_default_items : items val :=
  (λ kv, (kv.1, scalar_val kv.2)) <$> backtest_config_default.

(** What one step of the loop leaves at its key: a value that is not a
    list and that, when a mapping, has been converted. *)
Definition converted_at (n : nat) (h : heap) (lc : loc) (k : string) : Prop :=
  ∃ d x, h !! lc = Some (ODict d) ∧ dict_get k d = Some x ∧
         is_list h x = false ∧ (is_dict h x = true → tupled n h x = true).

(** [v] is a mapping nested less than [n] deep: the mappings it holds at
    its keys are so less than [n - 1] deep.  This is when the conversion
    of [v] returns within recursion depth [n]. *)
Fixpoint nest_ok (n : nat) (h : heap) (v : val) : bool :=
  match n with
  | 0 => false
  | S n =>
      match v with
      | VRef l =>
          match h !! l with
          | Some (ODict d) =>
              forallb (λ kv, negb (is_dict h kv.2) || nest_ok n h kv.2) d
          | _ => false
          end
      | _ => false
      end
  end.

(** The same, and no mapping met on the way down is one of [seen]. *)
Fixpoint nested (n : nat) (seen : list loc) (h : heap) (v : val) : bool :=
  match n with
  | 0 => false
  | S n =>
      match v with
      | VRef l =>
          negb (existsb (Nat.eqb l) seen)
          && match h !! l with
             | Some (ODict d) =>
                 forallb (λ kv, negb (is_dict h kv.2)
                                || nested n (l :: seen) h kv.2) d
             | _ => false
             end
      | _ => false
      end
  end.

(** The keys of the mapping at [lc] that the loop of the conversion has
    still to visit hold values whose conversion returns. *)
Definition loop_ready (n : nat) (h : heap) (lc : loc) (ks : list string) : Prop :=
  ∃ d, h !! lc = Some (ODict d) ∧
       ∀ k, k ∈ ks → ∃ v, dict_get k d = Some v ∧
                          (is_dict h v = true → nest_ok n h v = true).

Definition convert_total (rec : val → M heap val) (n : nat) : Prop :=
  ∀ config h,
    wf_heap h = true → nest_ok n h config = true →
    ∃ h', rec config h = (h', Ok config).

(** The mappings that the conversion of [v] visits in the store [h]: [v]
    itself when it is a mapping, and the mappings visited from the values
    at its keys. *)
Inductive visits (h : heap) : val → loc → Prop :=
  | visits_here l d :
      h !! l = Some (ODict d) → visits h (VRef l) l
  | visits_below l d k v l' :
      h !! l = Some (ODict d) → dict_get k d = Some v → visits h v l' →
      visits h (VRef l) l'.

(** The mappings visited from the values of the items [d]. *)
Definition inside (h : heap) (d : items val) (l : loc) : Prop :=
  ∃ k v, dict_get k d = Some v ∧ visits h v l.

(** What a conversion that returns leaves at a key that held [v]: a new
    tuple of the same elements when [v] was a list, and [v] itself
    otherwise. *)
Definition converted_entry (h h' : heap) (v v' : val) : Prop :=
  match v with
  | VRef l =>
      match h !! l with
      | Some (OList xs) =>
          ∃ lt, v' = VRef lt ∧ length h ≤ lt ∧ h' !! lt = Some (OTuple xs)
      | _ => v' = v
      end
  | _ => v' = v
  end.

(** A mapping and the mapping it has become: the same keys in the same
    order, each entry converted. *)
Definition converted_items (h h' : heap) (d d' : items val) : Prop :=
  keys d' = keys d ∧
  ∀ k v, dict_get k d = Some v →
         ∃ v', dict_get k d' = Some v' ∧ converted_entry h h' v v'.

(** The conversion leaves alone what it does not visit. *)
Definition convert_frame (rec : val → M heap val) : Prop :=
  ∀ config h h' r,
    wf_heap h = true → val_ok (length h) config = true →
    rec config h = (h', r) →
    ∀ l o, h !! l = Some o → ¬ visits h config l → h' !! l = Some o.

(** When the assembly of the configuration mapping [C] at [lc] returns
    within recursion depth [n]: its exchange section is a mapping, nested
    less than [n] deep and not holding the configuration itself, and no
    mapping sits at a key that has a scalar default. *)
Definition assembles (n : nat) (h : heap) (lc : loc) (C : items val) : Prop :=
  ∃ lx X,
    dict_get "exchange" C = Some (VRef lx) ∧ h !! lx = Some (ODict X) ∧
    nested n [lc] h (VRef lx) = true ∧
    (∀ k v, dict_get k X = Some v → is_dict h v = true →
            dict_get k exchange_default_items = None) ∧
    (∀ k v, dict_get k C = Some v → is_dict h v = true →
            dict_get k backtest_default_items = None).

(** What the assembly returns for the configuration mapping [C], at [lc]
    in the store [h], whose exchange section is the mapping [X]: in the
    store [h'] the result [r] is a new mapping, the top-level defaults
    updated with the items of [C], where [exchange] holds a new mapping
    [E]; [E] has the keys of the exchange defaults updated with the items
    of [X], each entry converted; the mappings visited from the values of
    [X] have been converted in place, so that no key of [E] or of a
    mapping nested in it through keys holds a list; [C] itself holds [E]
    at [exchange]; and every other object of [h] is as it was. *)
Definition assembled (n : nat) (h : heap) (lc : loc) (C : items val)
    (h' : heap) (r : val) : Prop :=
  ∃ lx X le E lr,
    dict_get "exchange" C = Some (VRef lx) ∧ h !! lx = Some (ODict X) ∧
    r = VRef lr ∧ length h ≤ lr ∧ length h ≤ le ∧
    h' !! lr
    = Some (ODict (dict_update (dict_set "exchange" (VRef le) C)
                     backtest_default_items)) ∧
    h' !! le = Some (ODict E) ∧
    converted_items h h' (dict_update X exchange_default_items) E ∧
    tupled n h' (VRef le) = true ∧
    h' !! lc = Some (ODict (dict_set "exchange" (VRef le) C)) ∧
    (∀ l d, inside h X l → h !! l = Some (ODict d) →
            ∃ d', h' !! l = Some (ODict d') ∧ converted_items h h' d d') ∧
    (∀ l o, h !! l = Some o → l ≠ lc → ¬ inside h X l → h' !! l = Some o).

(** ** Notions used to state further properties *)

(** No value of the items [its] is a mapping, in the store [h]. *)
Definition flat (h : heap) (its : items val) : Prop :=
  ∀ k v, (k, v) ∈ its → is_dict h v = false.

(** The value [v], when it is a mapping of the store [h], lacks the key
    [k]. *)
Definition lacks (k : string) (h : heap) (v : val) : Prop :=
  ∀ l d, v = VRef l → h !! l = Some (ODict d) → dict_get k d = None.
(** * Lemmas *)

(** ** The monad *)

Lemma bind_inv {S A B} (m : M S A) (k : A → M S B) s s' r :
  bind m k s = (s', r) →
  (∃ e, m s = (s', Raise e) ∧ r = Raise e)
  ∨ (∃ x s1, m s = (s1, Ok x) ∧ k x s1 = (s', r)).
Proof.
  unfold bind. destruct (m s) as [s1 [x|e]]; intros H.
  - right. eauto.
  - left. inversion H; subst. eauto.
Qed.

Lemma bind_ok {S A B} (m : M S A) (k : A → M S B) s s1 x :
  m s = (s1, Ok x) → bind m k s = k x s1.
Proof. unfold bind. by intros ->. Qed.

Lemma bind_raise {S A B} (m : M S A) (k : A → M S B) s s1 e :
  m s = (s1, Raise e) → bind m k s = (s1, Raise e).
Proof. unfold bind. by intros ->. Qed.

(** ** Dictionaries *)

Section DictLemmas.
Context {A : Type}.
Implicit Types (d : items A) (k : string) (v : A).

Lemma dict_get_elem k v d : dict_get k d = Some v → (k, v) ∈ d.
Proof.
  induction d as [|[k' v'] d IH]; simpl; [done|].
  destruct (String.eqb_spec k k') as [->|]; intros H.
  - inversion H; subst. left.
  - right. auto.
Qed.

Lemma dict_has_keys k d : dict_has k d = true ↔ k ∈ keys d.
Proof.
  unfold dict_has, keys. induction d as [|[k' v'] d IH]; simpl.
  - split; [done|]. intros H. inversion H.
  - destruct (String.eqb_spec k k') as [->|Hne].
    + split; [|done]. intros _. left.
    + rewrite IH. split; [by right|]. intros H.
      inversion H; subst; [done|]. done.
Qed.

Lemma dict_has_false k d : dict_has k d = false ↔ dict_get k d = None.
Proof. unfold dict_has. destruct (dict_get k d); split; done. Qed.

Lemma dict_has_true k d : dict_has k d = true ↔ is_Some (dict_get k d).
Proof.
  unfold dict_has. destruct (dict_get k d); split; try done; eauto.
Qed.

Lemma distinct_NoDup (l : list string) : distinct l = true ↔ NoDup l.
Proof.
  induction l as [|x l IH]; simpl.
  - split; [constructor|done].
  - rewrite andb_true_iff, negb_true_iff, IH, NoDup_cons.
    apply and_iff_compat_r. split.
    + intros H Hin. apply not_true_iff_false in H. apply H.
      apply existsb_exists. exists x. split; [by apply list_elem_of_In|].
      apply String.eqb_refl.
    + intros H. apply not_true_iff_false. intros Hex.
      apply existsb_exists in Hex as (y & Hy & Heq).
      apply String.eqb_eq in Heq as ->. by apply H, list_elem_of_In.
Qed.

Lemma dict_get_NoDup k v d :
  NoDup (keys d) → (k, v) ∈ d → dict_get k d = Some v.
Proof.
  unfold keys. induction d as [|[k' v'] d IH]; simpl; intros Hnd Hin.
  - inversion Hin.
  - apply NoDup_cons in Hnd as [Hk Hnd].
    apply elem_of_cons in Hin as [Heq|Hin].
    + inversion Heq; subst. by rewrite String.eqb_refl.
    + destruct (String.eqb_spec k k') as [->|]; [|auto].
      exfalso. apply Hk. apply list_elem_of_fmap. by exists (k', v).
Qed.

Lemma dict_get_set_eq k v d : dict_get k (dict_set k v d) = Some v.
Proof.
  induction d as [|[k' v'] d IH]; simpl.
  - by rewrite String.eqb_refl.
  - destruct (String.eqb_spec k k') as [->|Hne]; simpl.
    + by rewrite String.eqb_refl.
    + by destruct (String.eqb_spec k k').
Qed.

Lemma dict_get_set_ne k k' v d :
  k ≠ k' → dict_get k (dict_set k' v d) = dict_get k d.
Proof.
  intros Hne. induction d as [|[k'' v''] d IH]; simpl.
  - by destruct (String.eqb_spec k k').
  - destruct (String.eqb_spec k' k'') as [->|Hne']; simpl.
    + by destruct (String.eqb_spec k k'').
    + by rewrite IH.
Qed.

Lemma dict_has_set k k' v d :
  dict_has k (dict_set k' v d) = String.eqb k k' || dict_has k d.
Proof.
  unfold dict_has. destruct (String.eqb_spec k k') as [->|Hne]; simpl.
  - by rewrite dict_get_set_eq.
  - by rewrite dict_get_set_ne.
Qed.

Lemma keys_set k v d :
  keys (dict_set k v d) = if dict_has k d then keys d else keys d ++ [k].
Proof.
  unfold keys, dict_has. induction d as [|[k' v'] d IH]; csimpl; [done|].
  destruct (String.eqb_spec k k') as [->|Hne]; csimpl; [done|].
  rewrite IH. by destruct (dict_get k d).
Qed.

Lemma NoDup_keys_set k v d : NoDup (keys d) → NoDup (keys (dict_set k v d)).
Proof.
  intros Hnd. rewrite keys_set. destruct (dict_has k d) eqn:E; [done|].
  apply NoDup_app. split_and!; [done| |apply NoDup_singleton].
  intros x Hx Hx'. apply list_elem_of_singleton in Hx' as ->.
  apply dict_has_keys in Hx. congruence.
Qed.

Lemma elem_of_dict_set x k v d : x ∈ dict_set k v d → x = (k, v) ∨ x ∈ d.
Proof.
  induction d as [|[k' v'] d IH]; simpl.
  - intros H. apply list_elem_of_singleton in H. auto.
  - destruct (String.eqb_spec k k') as [->|Hne]; intros H.
    + apply elem_of_cons in H as [->|H]; [auto|]. right. by right.
    + apply elem_of_cons in H as [->|H]; [right; left|].
      destruct (IH H); [auto|]. right. by right.
Qed.

Lemma elem_of_dict_del x k d : x ∈ dict_del k d → x ∈ d.
Proof.
  induction d as [|[k' v'] d IH]; simpl; [done|].
  destruct (String.eqb_spec k k') as [->|Hne]; intros H.
  - right. auto.
  - apply elem_of_cons in H as [->|H]; [left|right; auto].
Qed.

Lemma dict_get_del_eq k d : dict_get k (dict_del k d) = None.
Proof.
  induction d as [|[k' v'] d IH]; simpl; [done|].
  destruct (String.eqb_spec k k') as [->|Hne]; simpl; [done|].
  by destruct (String.eqb_spec k k').
Qed.

Lemma dict_get_del_ne k k' d :
  k ≠ k' → dict_get k (dict_del k' d) = dict_get k d.
Proof.
  intros Hne. induction d as [|[k'' v''] d IH]; simpl; [done|].
  destruct (String.eqb_spec k' k'') as [->|Hne']; simpl.
  - by destruct (String.eqb_spec k k'').
  - by rewrite IH.
Qed.

Lemma dict_get_del_Some k k' v d :
  dict_get k (dict_del k' d) = Some v → dict_get k d = Some v.
Proof.
  destruct (decide (k = k')) as [->|Hne].
  - by rewrite dict_get_del_eq.
  - by rewrite dict_get_del_ne.
Qed.

Lemma dict_has_del k k' d :
  dict_has k (dict_del k' d) = true → dict_has k d = true.
Proof.
  rewrite !dict_has_true. intros [v Hv]. exists v.
  by eapply dict_get_del_Some.
Qed.

Lemma dict_del_idemp k d : dict_del k (dict_del k d) = dict_del k d.
Proof.
  induction d as [|[k' v'] d IH]; simpl; [done|].
  destruct (String.eqb_spec k k') as [->|Hne]; simpl; [done|].
  destruct (String.eqb_spec k k'); [done|]. by rewrite IH.
Qed.

Lemma dict_del_absent k d : dict_has k d = false → dict_del k d = d.
Proof.
  unfold dict_has. induction d as [|[k' v'] d IH]; simpl; [done|].
  destruct (String.eqb_spec k k') as [->|Hne]; [done|].
  intros H. by rewrite IH.
Qed.

Lemma keys_del k d : keys (dict_del k d) = filter (λ x, x ≠ k) (keys d).
Proof.
  unfold keys. induction d as [|[k' v'] d IH]; csimpl; [done|].
  destruct (String.eqb_spec k k') as [->|Hne]; csimpl.
  - rewrite filter_cons_False; [done|]. intros H. by apply H.
  - rewrite filter_cons_True; [|congruence]. by rewrite IH.
Qed.

Lemma NoDup_keys_del k d : NoDup (keys d) → NoDup (keys (dict_del k d)).
Proof. rewrite keys_del. apply NoDup_filter. Qed.

Lemma length_dict_del k d :
  length (dict_del k d) = length d → dict_del k d = d.
Proof.
  induction d as [|[k' v'] d IH]; simpl; [done|].
  destruct (String.eqb_spec k k') as [->|Hne]; simpl.
  - intros H. exfalso.
    assert (length (dict_del k' d) ≤ length d); [|lia].
    clear. induction d as [|[k v] d IH]; simpl; [lia|].
    destruct (String.eqb k' k); simpl; lia.
  - intros H. f_equal. apply IH. lia.
Qed.
End DictLemmas.

(** ** Well-formed stores *)

Lemma val_ok_mono n m v : n ≤ m → val_ok n v = true → val_ok m v = true.
Proof.
  destruct v; simpl; try done. rewrite !Nat.ltb_lt. lia.
Qed.

Lemma val_ok_ref n l : val_ok n (VRef l) = true ↔ l < n.
Proof. simpl. apply Nat.ltb_lt. Qed.

Lemma forallb_val_ok_mono n m vs :
  n ≤ m → forallb (val_ok n) vs = true → forallb (val_ok m) vs = true.
Proof.
  intros Hle. rewrite !forallb_forall. intros H x Hx.
  eapply val_ok_mono; eauto.
Qed.

Lemma obj_ok_mono n m o : n ≤ m → obj_ok n o = true → obj_ok m o = true.
Proof.
  intros Hle. destruct o; simpl; [|by apply forallb_val_ok_mono..].
  rewrite !andb_true_iff. intros [? ?]. split; [|done].
  by eapply forallb_val_ok_mono.
Qed.

Lemma obj_ok_dict n d :
  obj_ok n (ODict d) = true ↔
  (∀ k v, (k, v) ∈ d → val_ok n v = true) ∧ NoDup (keys d).
Proof.
  simpl. rewrite andb_true_iff, distinct_NoDup, forallb_forall.
  apply and_iff_compat_r. split.
  - intros H k v Hin. apply H, list_elem_of_In, list_elem_of_fmap.
    by exists (k, v).
  - intros H v Hin. apply list_elem_of_In, list_elem_of_fmap in Hin
      as ([k v'] & -> & Hin). eauto.
Qed.

Lemma obj_ok_del n k d :
  obj_ok n (ODict d) = true → obj_ok n (ODict (dict_del k d)) = true.
Proof.
  rewrite !obj_ok_dict. intros [Hv Hnd]. split.
  - intros k' v Hin. eapply Hv, elem_of_dict_del, Hin.
  - by apply NoDup_keys_del.
Qed.

Lemma obj_ok_set n k v d :
  obj_ok n (ODict d) = true → val_ok n v = true →
  obj_ok n (ODict (dict_set k v d)) = true.
Proof.
  rewrite !obj_ok_dict. intros [Hv Hnd] Hok. split.
  - intros k' v' Hin. apply elem_of_dict_set in Hin as [Heq|Hin]; [|eauto].
    by inversion Heq; subst.
  - by apply NoDup_keys_set.
Qed.

Lemma wf_heap_lookup h l o :
  wf_heap h = true → h !! l = Some o → obj_ok (length h) o = true.
Proof.
  unfold wf_heap. rewrite forallb_forall. intros H Hl.
  apply H, list_elem_of_In. by eapply list_elem_of_lookup_2.
Qed.

Lemma wf_heap_intro h :
  (∀ l o, h !! l = Some o → obj_ok (length h) o = true) → wf_heap h = true.
Proof.
  intros H. unfold wf_heap. apply forallb_forall. intros o Hin.
  apply list_elem_of_In, list_elem_of_lookup in Hin as [l Hl]. eauto.
Qed.

Lemma wf_heap_alloc h o :
  wf_heap h = true → obj_ok (S (length h)) o = true → wf_heap (h ++ [o]) = true.
Proof.
  intros Hwf Ho. apply wf_heap_intro. intros l o' Hl.
  rewrite length_app. simpl. rewrite Nat.add_1_r.
  apply lookup_app_Some in Hl as [Hl|[_ Hl]].
  - eapply obj_ok_mono; [|by eapply wf_heap_lookup]. lia.
  - apply list_lookup_singleton_Some in Hl as [_ <-]. done.
Qed.

Lemma wf_heap_insert h l o :
  wf_heap h = true → obj_ok (length h) o = true → wf_heap (<[l:=o]> h) = true.
Proof.
  intros Hwf Ho. apply wf_heap_intro. intros l' o' Hl.
  rewrite length_insert. destruct (decide (l = l')) as [->|Hne].
  - destruct (decide (l' < length h)).
    + rewrite list_lookup_insert_eq in Hl by done. by inversion Hl; subst.
    + rewrite list_insert_ge in Hl by lia. by eapply wf_heap_lookup.
  - rewrite list_lookup_insert_ne in Hl by done. by eapply wf_heap_lookup.
Qed.

Lemma wf_heap_val h l d k v :
  wf_heap h = true → h !! l = Some (ODict d) → (k, v) ∈ d →
  val_ok (length h) v = true.
Proof.
  intros Hwf Hl Hin. eapply wf_heap_lookup in Hl; [|done].
  apply obj_ok_dict in Hl as [Hv _]. eauto.
Qed.

Lemma wf_heap_NoDup h l d :
  wf_heap h = true → h !! l = Some (ODict d) → NoDup (keys d).
Proof.
  intros Hwf Hl. eapply wf_heap_lookup in Hl; [|done].
  by apply obj_ok_dict in Hl as [_ ?].
Qed.

Lemma is_dict_Some h v :
  is_dict h v = true ↔ ∃ l d, v = VRef l ∧ h !! l = Some (ODict d).
Proof.
  split.
  - destruct v as [| | | | |l]; simpl; try done.
    destruct (h !! l) as [[d| |]|] eqn:E; try done. eauto.
  - intros (l & d & -> & Hl). simpl. by rewrite Hl.
Qed.

(** ** Store changes *)

Lemma upd_refl P Q h : upd P Q h h.
Proof. split; [done|]. auto. Qed.

Lemma upd_mono (P P' Q Q' : loc → Prop) h h' :
  (∀ l, P l → P' l) → (∀ l, Q l → Q' l) → upd P Q h h' → upd P' Q' h h'.
Proof.
  intros HP HQ [Hlen H]. split; [done|]. intros l o Hl.
  destruct (H l o Hl) as [?|[[? ?]|?]]; auto.
Qed.

Lemma upd_trans P Q h1 h2 h3 : upd P Q h1 h2 → upd P Q h2 h3 → upd P Q h1 h3.
Proof.
  intros [Hlen1 H1] [Hlen2 H2]. split; [lia|]. intros l o Hl.
  destruct (H1 l o Hl) as [Hl2|[[HP (d & -> & Hl2)]|HQ]]; [| |auto].
  - apply H2 in Hl2. done.
  - destruct (H2 _ _ Hl2) as [Hl3|[[_ (d' & Heq & Hl3)]|HQ]]; [| |auto].
    + right; left. eauto.
    + inversion Heq; subst. rewrite dict_del_idemp in Hl3. right; left. eauto.
Qed.

Lemma upd_alloc P Q h o : upd P Q h (h ++ [o]).
Proof.
  split; [rewrite length_app; lia|]. intros l o' Hl. left.
  by apply lookup_app_l_Some.
Qed.

Lemma upd_pop (P Q : loc → Prop) h l d :
  h !! l = Some (ODict d) → P l →
  upd P Q h (<[l:=ODict (dict_del "_delete_" d)]> h).
Proof.
  intros Hl HP. split; [by rewrite length_insert|]. intros l' o Hl'.
  destruct (decide (l = l')) as [<-|Hne].
  - right; left. split; [done|]. exists d. split; [congruence|].
    apply list_lookup_insert_eq. by eapply lookup_lt_Some.
  - left. by rewrite list_lookup_insert_ne.
Qed.

Lemma upd_set (P Q : loc → Prop) h l o :
  Q l → upd P Q h (<[l:=o]> h).
Proof.
  intros HQ. split; [by rewrite length_insert|]. intros l' o' Hl'.
  destruct (decide (l = l')) as [<-|Hne]; [auto|].
  left. by rewrite list_lookup_insert_ne.
Qed.

(** What an object that was in the store has become. *)
Lemma upd_old P Q h h' l o :
  upd P Q h h' → h !! l = Some o → ¬ Q l →
  h' !! l = Some o ∨ ∃ d, o = ODict d ∧ h' !! l = Some (ODict (dict_del "_delete_" d)).
Proof.
  intros [_ H] Hl HQ. destruct (H l o Hl) as [?|[[_ ?]|?]]; auto. done.
Qed.

Lemma upd_keep (P Q : loc → Prop) h h' l o :
  upd P Q h h' → h !! l = Some o → ¬ P l → ¬ Q l → h' !! l = Some o.
Proof.
  intros [_ H] Hl HP HQ. destruct (H l o Hl) as [?|[[? _]|?]]; done.
Qed.

Lemma upd_is_dict P Q h h' l :
  upd P Q h h' → l < length h → ¬ Q l →
  is_dict h' (VRef l) = is_dict h (VRef l).
Proof.
  intros Hupd Hlt HQ. apply lookup_lt_is_Some_2 in Hlt as [o Hl].
  simpl. rewrite Hl.
  destruct (upd_old _ _ _ _ _ _ Hupd Hl HQ) as [->|(d & -> & ->)]; done.
Qed.

Lemma upd_contains P Q h h' b k :
  upd P Q h h' → val_ok (length h) b = true → (∀ l, Q l → length h ≤ l) →
  contains h' b k = true → contains h b k = true.
Proof.
  intros Hupd Hok HQ. destruct b as [| | | | |l]; simpl; try done.
  apply val_ok_ref in Hok. assert (¬ Q l) as HnQ by (intros ?%HQ; lia).
  apply lookup_lt_is_Some_2 in Hok as [o Hl]. rewrite Hl.
  destruct (upd_old _ _ _ _ _ _ Hupd Hl HnQ) as [->|(d & -> & ->)]; [done|].
  apply dict_has_del.
Qed.

(** ** The mappings a merge visits *)

Lemma shared_is_dict h a b l : shared h a b l → is_dict h (VRef l) = true.
Proof. induction 1; done. Qed.

Lemma shared_lt h a b l : shared h a b l → l < length h.
Proof.
  intros H%shared_is_dict. apply is_dict_Some in H as (? & ? & [= <-] & H).
  by eapply lookup_lt_Some.
Qed.

(** Visiting is decided by the objects that were in the store when the
    merge started: later changes can only shrink what is visited. *)
Lemma shared_upd P Q h h' a b l :
  wf_heap h = true → upd P Q h h' → (∀ l, Q l → length h ≤ l) →
  val_ok (length h) a = true → val_ok (length h) b = true →
  shared h' a b l → shared h a b l.
Proof.
  intros Hwf Hupd HQ Ha Hb Hsh. induction Hsh
    as [la d k lv b Hla Hin Hd Hc|la d k lv lb d' bk l Hla Hin Hd Hlb Hbk Hsh IH].
  - apply val_ok_ref in Ha as Hlt.
    assert (¬ Q la) as HnQ by (intros ?%HQ; lia).
    apply lookup_lt_is_Some_2 in Hlt as [o Ho].
    assert (∃ d0, h !! la = Some (ODict d0) ∧ (k, VRef lv) ∈ d0) as (d0 & Hd0 & Hin0).
    { destruct (upd_old _ _ _ _ _ _ Hupd Ho HnQ) as [Heq|(d0 & -> & Heq)].
      - exists d. split; congruence.
      - exists d0. split; [done|]. rewrite Hla in Heq. inversion Heq; subst.
        by eapply elem_of_dict_del. }
    pose proof (wf_heap_val _ _ _ _ _ Hwf Hd0 Hin0) as Hlv.
    apply val_ok_ref in Hlv as Hlv'.
    eapply shared_here; [done..| |].
    + erewrite <-upd_is_dict; [done..|]. intros ?%HQ; lia.
    + by eapply upd_contains.
  - apply val_ok_ref in Ha as Hlt. apply val_ok_ref in Hb as Hltb.
    assert (¬ Q la) as HnQ by (intros ?%HQ; lia).
    assert (¬ Q lb) as HnQb by (intros ?%HQ; lia).
    apply lookup_lt_is_Some_2 in Hlt as [o Ho].
    apply lookup_lt_is_Some_2 in Hltb as [ob Hob].
    assert (∃ d0, h !! la = Some (ODict d0) ∧ (k, VRef lv) ∈ d0) as (d0 & Hd0 & Hin0).
    { destruct (upd_old _ _ _ _ _ _ Hupd Ho HnQ) as [Heq|(d0 & -> & Heq)].
      - exists d. split; congruence.
      - exists d0. split; [done|]. rewrite Hla in Heq. inversion Heq; subst.
        by eapply elem_of_dict_del. }
    assert (∃ d0', h !! lb = Some (ODict d0') ∧ dict_get k d0' = Some bk)
      as (d0' & Hd0' & Hbk0).
    { destruct (upd_old _ _ _ _ _ _ Hupd Hob HnQb) as [Heq|(d0' & -> & Heq)].
      - exists d'. split; congruence.
      - exists d0'. split; [done|]. rewrite Hlb in Heq. inversion Heq; subst.
        by eapply dict_get_del_Some. }
    pose proof (wf_heap_val _ _ _ _ _ Hwf Hd0 Hin0) as Hlv.
    apply val_ok_ref in Hlv as Hlv'.
    eapply shared_below; [done..| | done | done |].
    + erewrite <-upd_is_dict; [done..|]. intros ?%HQ; lia.
    + apply IH; [done|]. eapply wf_heap_val; [done..|].
      by apply dict_get_elem.
Qed.

Lemma dict_get_None_keys {A} k (d : list (string * A)) :
  dict_get k d = None ↔ k ∉ keys d.
Proof.
  rewrite <-dict_has_false, <-dict_has_keys. by destruct (dict_has k d).
Qed.

Lemma dict_set_same {A} k (v : A) d : dict_get k d = Some v → dict_set k v d = d.
Proof.
  induction d as [|[k' v'] d IH]; simpl; [done|].
  destruct (String.eqb_spec k k') as [->|Hne].
  - by intros [= ->].
  - intros H. by rewrite IH.
Qed.

(** ** Running the primitive operations *)

Lemma run_py_items h l d :
  h !! l = Some (ODict d) → py_items (VRef l) h = (h, Ok d).
Proof. intros Hl. unfold py_items, bind, deref. by rewrite Hl. Qed.

Lemma run_dict_iter_check h l d n :
  h !! l = Some (ODict d) →
  dict_iter_check (VRef l) n h
  = (h, if Nat.eqb (length d) n then Ok tt else Raise RuntimeError).
Proof.
  intros Hl. unfold dict_iter_check. erewrite bind_ok by by apply run_py_items.
  by destruct (Nat.eqb _ _).
Qed.

Lemma dict_iter_check_heap a n h h' r : dict_iter_check a n h = (h', r) → h' = h.
Proof.
  unfold dict_iter_check, py_items, bind, deref, ret, raise.
  destruct a as [| | | | |l]; try by intros [= <- _].
  destruct (h !! l) as [[d| |]|]; try by intros [= <- _].
  destruct (Nat.eqb _ _); by intros [= <- _].
Qed.

Lemma run_py_contains h l o k :
  h !! l = Some o → py_contains (VRef l) k h = (h, Ok (contains h (VRef l) k)).
Proof.
  intros Hl. unfold py_contains, contains, bind, deref. rewrite Hl.
  by destruct o.
Qed.

Lemma run_py_getitem_dict h l d k :
  h !! l = Some (ODict d) →
  py_getitem (VRef l) k h
  = (h, match dict_get k d with Some v => Ok v | None => Raise (KeyError k) end).
Proof.
  intros Hl. unfold py_getitem, bind, deref. rewrite Hl.
  by destruct (dict_get k d).
Qed.

Lemma run_py_getitem_list h l xs k :
  h !! l = Some (OList xs) → py_getitem (VRef l) k h = (h, Raise TypeError).
Proof. intros Hl. unfold py_getitem, bind, deref. by rewrite Hl. Qed.

Lemma run_py_setitem_dict h l d k v :
  h !! l = Some (ODict d) →
  py_setitem (VRef l) k v h = (<[l:=ODict (dict_set k v d)]> h, Ok tt).
Proof. intros Hl. unfold py_setitem, bind, deref. by rewrite Hl. Qed.

Lemma run_py_setitem_list h l xs k v :
  h !! l = Some (OList xs) → py_setitem (VRef l) k v h = (h, Raise TypeError).
Proof. intros Hl. unfold py_setitem, bind, deref. by rewrite Hl. Qed.

Lemma run_py_pop_default h l d k :
  h !! l = Some (ODict d) →
  py_pop_default (VRef l) k h = (<[l:=ODict (dict_del k d)]> h, Ok tt).
Proof. intros Hl. unfold py_pop_default, bind, deref. by rewrite Hl. Qed.

Lemma run_py_copy_dict h l d :
  h !! l = Some (ODict d) →
  py_copy (VRef l) h = (h ++ [ODict d], Ok (VRef (length h))).
Proof. intros Hl. unfold py_copy, bind, deref. by rewrite Hl. Qed.

Lemma run_py_copy_list h l xs :
  h !! l = Some (OList xs) →
  py_copy (VRef l) h = (h ++ [OList xs], Ok (VRef (length h))).
Proof. intros Hl. unfold py_copy, bind, deref. by rewrite Hl. Qed.

Lemma py_copy_inv b h h' r :
  py_copy b h = (h', r) →
  (h' = h ∧ ∃ e, r = Raise e ∧
     ∀ l o, b = VRef l → h !! l = Some o → ∃ xs, o = OTuple xs)
  ∨ (∃ l o, b = VRef l ∧ h !! l = Some o ∧ (∀ xs, o ≠ OTuple xs) ∧
       h' = h ++ [o] ∧ r = Ok (VRef (length h))).
Proof.
  unfold py_copy, bind, deref, raise, alloc.
  destruct b as [| | | | |l];
    try (intros [= <- <-]; left; split; [done|]; eexists; split; [done|];
         by intros).
  destruct (h !! l) as [[d|xs|xs]|] eqn:E; intros [= <- <-].
  - right. exists l, (ODict d). by eauto.
  - right. exists l, (OList xs). by eauto.
  - left. split; [done|]. eexists; split; [done|].
    intros ? ? [= <-] ?. simplify_eq. eauto.
  - left. split; [done|]. eexists; split; [done|].
    intros ? ? [= <-] ?. simplify_eq.
Qed.

Lemma py_items_inv a h h' r :
  py_items a h = (h', r) →
  h' = h ∧ ∀ d, r = Ok d → ∃ l, a = VRef l ∧ h !! l = Some (ODict d).
Proof.
  unfold py_items, bind, deref, raise, ret.
  destruct a as [| | | | |l]; try by intros [= <- <-].
  destruct (h !! l) as [[d|xs|xs]|] eqn:E; intros [= <- <-]; split; try done.
  intros ? [= <-]. eauto.
Qed.

Lemma merge_loop_nil rec a b n :
  merge_loop rec a b n [] = (dict_iter_check a n ;;; ret b).
Proof. done. Qed.

Lemma merge_loop_cons rec a b n k v rest :
  merge_loop rec a b n ((k, v) :: rest)
  = (dict_iter_check a n ;;;
     isd <- isinstance_dict v ;;
     inb <- (if isd then py_contains b k else ret false) ;;
     (if inb then
        py_pop_default v "_delete_" ;;;
        bk <- py_getitem b k ;;
        r <- rec v bk ;;
        py_setitem b k r
      else py_setitem b k v) ;;;
     merge_loop rec a b n rest).
Proof. done. Qed.

(** ** The loop of a merge, given what the calls it makes do *)

Section merge_loop.
Variables (rec : val → val → M heap val) (good : heap → val → val → Prop).
Hypothesis Hsound : merge_sound rec.
Hypothesis Htotal : merge_total good rec.
Hypothesis Hmono : good_mono good.

Variables (h0 : list obj) (la lb : nat) (A : list (string * val)) (ob : obj).
Hypothesis Hwf0 : wf_heap h0 = true.
Hypothesis Hla : h0 !! la = Some (ODict A).
Hypothesis Hlb : h0 !! lb = Some ob.

Let lr := length h0.
Let P := shared h0 (VRef la) (VRef lb).

Lemma P_lt l : P l → l < lr.
Proof. apply shared_lt. Qed.

Lemma new_lr l : lr = l → length h0 ≤ l.
Proof. unfold lr. lia. Qed.

Lemma item_ok k v : (k, v) ∈ A → val_ok (length h0) v = true.
Proof. intros Hin. by eapply wf_heap_val. Qed.

Lemma a_check hc :
  upd P (eq lr) h0 hc →
  ∃ d, hc !! la = Some (ODict d) ∧ (¬ P la → d = A).
Proof.
  intros Hupd. assert (¬ lr = la) as Hne.
  { intros Heq. apply lookup_lt_Some in Hla. unfold lr in Heq. lia. }
  destruct Hupd as [_ H]. destruct (H _ _ Hla) as [?|[[HP (d & Hd & ?)]|?]].
  - eauto.
  - eexists. split; [done|]. intros HnP. done.
  - done.
Qed.

Lemma dict_get_cons_None {B} k k0 (v : B) rest :
  dict_get k0 ((k, v) :: rest) = None → k0 ≠ k ∧ dict_get k0 rest = None.
Proof. simpl. by destruct (String.eqb_spec k0 k). Qed.

Lemma dict_get_cons_Some {B} k k0 (v v0 : B) rest :
  dict_get k0 ((k, v) :: rest) = Some v0 →
  (k0 = k ∧ v0 = v) ∨ (k0 ≠ k ∧ dict_get k0 rest = Some v0).
Proof.
  simpl. destruct (String.eqb_spec k0 k); [|by auto].
  intros [= ->]. auto.
Qed.

Lemma NoDup_keys_cons {B} k (v : B) rest :
  NoDup (keys ((k, v) :: rest)) →
  dict_get k rest = None ∧ NoDup (keys rest) ∧ ∀ k', k' ∈ keys rest → k' ≠ k.
Proof.
  unfold keys. csimpl. intros [Hk Hnd]%NoDup_cons. split_and!; [|done|].
  - apply dict_has_false. apply not_true_iff_false.
    intros ?%dict_has_keys. done.
  - intros k' Hin ->. done.
Qed.

(** The item [(k, v)] was stored as it is, then the loop went on. *)
Lemma loop_items_stored k v rest Rc R hc h3 h' :
  dict_get k rest = None →
  is_dict h0 v && dict_has k Rc = false →
  upd P (eq lr) hc h3 →
  loop_items rec h0 la lb rest (dict_set k v Rc) R h3 h' →
  loop_items rec h0 la lb ((k, v) :: rest) Rc R hc h'.
Proof.
  intros Hk Hcond Hupd (H1 & H2 & H3). split_and!.
  - intros k0 [Hne Hk0]%dict_get_cons_None.
    rewrite H1 by done. by apply dict_get_set_ne.
  - intros k0 v0 [[-> ->]|[Hne Hk0]]%dict_get_cons_Some Hc.
    + rewrite H1 by done. apply dict_get_set_eq.
    + apply H2; [done|]. rewrite dict_has_set.
      by destruct (String.eqb_spec k0 k).
  - intros k0 v0 bk [[-> ->]|[Hne Hk0]]%dict_get_cons_Some Hd Hbk.
    + rewrite Hd in Hcond. simpl in Hcond.
      apply dict_has_false in Hcond. congruence.
    + destruct (H3 k0 v0 bk)
        as (h1 & h2 & lv & d & rk & ? & ? & ? & ? & ? & ? & ? & ?);
        [done|done|by rewrite dict_get_set_ne|].
      exists h1, h2, lv, d, rk. split_and!; try done.
      by eapply upd_trans.
Qed.

(** The item [(k, v)] was merged into what the copy held at [k], the
    outcome stored, then the loop went on. *)
Lemma loop_items_merged k lv d bk rk rest Rc R hc h1 h2 h3 h' :
  dict_get k rest = None →
  is_dict h0 (VRef lv) = true →
  dict_get k Rc = Some bk →
  upd P (eq lr) hc h1 → wf_heap h1 = true →
  h1 !! lv = Some (ODict d) → dict_has "_delete_" d = false →
  rec (VRef lv) bk h1 = (h2, Ok rk) →
  upd P (eq lr) h1 h3 → upd P (eq lr) h2 h3 →
  upd P (eq lr) h3 h' →
  loop_items rec h0 la lb rest (dict_set k rk Rc) R h3 h' →
  loop_items rec h0 la lb ((k, VRef lv) :: rest) Rc R hc h'.
Proof.
  intros Hk Hdv Hbk Hu1 Hwf1 Hlv Hdel Hrec Hu2 Hu3 Hu4 (H1 & H2 & H3).
  split_and!.
  - intros k0 [Hne Hk0]%dict_get_cons_None.
    rewrite H1 by done. by apply dict_get_set_ne.
  - intros k0 v0 [[-> ->]|[Hne Hk0]]%dict_get_cons_Some Hc.
    + rewrite Hdv in Hc. simpl in Hc. apply dict_has_false in Hc. congruence.
    + apply H2; [done|]. rewrite dict_has_set.
      by destruct (String.eqb_spec k0 k).
  - intros k0 v0 bk0 [[-> ->]|[Hne Hk0]]%dict_get_cons_Some Hd Hbk0.
    + exists h1, h2, lv, d, rk. simplify_eq. split_and!; try done.
      * rewrite H1 by done. apply dict_get_set_eq.
      * by eapply upd_trans.
    + destruct (H3 k0 v0 bk0)
        as (h1' & h2' & lv' & d' & rk' & ? & ? & ? & ? & ? & ? & ? & ?);
        [done|done|by rewrite dict_get_set_ne|].
      exists h1', h2', lv', d', rk'. split_and!; try done.
      eapply upd_trans; [|done]. by eapply upd_trans.
Qed.

Lemma loop_good_tail k v rest : loop_good good h0 la lb ob ((k, v) :: rest) → loop_good good h0 la lb ob rest.
Proof.
  unfold loop_good. intros [HnP H]. split; [done|].
  destruct ob; [|done..]. intros ? ? ? ?. apply H. by right.
Qed.

Lemma lr_lt (hc : list obj) oc : hc !! lr = Some oc → lr < length hc.
Proof. apply lookup_lt_Some. Qed.

Lemma copy_inv_cases its oc :
  copy_inv ob its oc →
  (∃ B Rc, ob = ODict B ∧ oc = ODict Rc ∧
           ∀ k, k ∈ keys its → dict_get k Rc = dict_get k B)
  ∨ (∃ xs, ob = OList xs ∧ oc = OList xs).
Proof.
  unfold copy_inv. destruct ob as [B|xs|xs]; [|by eauto|done].
  intros (Rc & -> & H). left. eauto 6.
Qed.

(** [b[k] = v], then the rest of the loop. *)
Lemma loop_else k v rest hc oc h' r :
  loop_claim rec good h0 la lb A ob rest →
  (∀ x, x ∈ (k, v) :: rest → x ∈ A) → NoDup (keys ((k, v) :: rest)) →
  wf_heap hc = true → upd P (eq lr) h0 hc →
  hc !! lr = Some oc → copy_inv ob ((k, v) :: rest) oc →
  is_dict h0 v && contains hc (VRef lr) k = false →
  (py_setitem (VRef lr) k v ;;;
   merge_loop rec (VRef la) (VRef lr) (length A) rest) hc = (h', r) →
  loop_post rec h0 la lb ob ((k, v) :: rest) hc h' r ∧
  (loop_good good h0 la lb ob ((k, v) :: rest) → ∃ v, r = Ok v).
Proof.
  intros IH Hsub Hnd Hwf Hupd Hlr Hinv Hcond Hrun.
  unfold loop_post.
  apply NoDup_keys_cons in Hnd as (Hk & Hnd & Hne).
  assert ((k, v) ∈ A) as Hvin by (apply Hsub; left).
  pose proof (item_ok _ _ Hvin) as Hvok.
  pose proof (lr_lt _ _ Hlr) as Hlt.
  destruct (copy_inv_cases _ _ Hinv) as [(B & Rc & Hob & -> & HRc)|(xs & Hob & ->)].
  - rewrite (bind_ok _ _ _ _ _ (run_py_setitem_dict _ _ _ k v Hlr)) in Hrun.
    set (h3 := <[lr:=ODict (dict_set k v Rc)]> hc) in *.
    assert (wf_heap h3 = true) as Hwf3.
    { apply wf_heap_insert; [done|]. apply obj_ok_set.
      - by eapply wf_heap_lookup.
      - eapply val_ok_mono; [|done]. apply Hupd. }
    assert (upd P (eq lr) hc h3) as Hupd3 by by apply upd_set.
    assert (h3 !! lr = Some (ODict (dict_set k v Rc))) as Hlr3
      by by apply list_lookup_insert_eq.
    destruct (IH h3 (ODict (dict_set k v Rc)) h' r) as [(Hwf' & Hupd' & Hres) Hgood];
      try done.
    { intros x Hx. apply Hsub. by right. }
    { by eapply upd_trans. }
    { unfold copy_inv. rewrite Hob. eexists. split; [done|].
      intros k' Hk'. rewrite dict_get_set_ne by by apply Hne.
      apply HRc. unfold keys in *. csimpl. by right. }
    split.
    + split; [done|]. split; [by eapply upd_trans|].
      intros v' Hv'. destruct (Hres v' Hv') as (-> & Hit). split; [done|].
      rewrite Hob in Hit |- *. destruct Hit as (Rc' & R & HRc' & HR & Hit).
      unfold lr in Hlr3; rewrite Hlr3 in HRc'. inversion HRc'; subst Rc'.
      exists Rc, R. split_and!; try done.
      eapply loop_items_stored; try done.
      simpl in Hcond. by rewrite Hlr in Hcond.
    + intros Hg. apply Hgood. by eapply loop_good_tail.
  - rewrite (bind_raise _ _ _ _ _ (run_py_setitem_list _ _ _ k v Hlr)) in Hrun.
    inversion Hrun; subst h' r. split.
    + split; [done|]. split; [apply upd_refl|]. done.
    + unfold loop_good. rewrite Hob. by intros [_ Hg].
Qed.

(** [v.pop("_delete_", False); b[k] = merge_a_into_b(v, b[k])], then the
    rest of the loop. *)
Lemma loop_then k v rest hc oc h' r :
  loop_claim rec good h0 la lb A ob rest →
  (∀ x, x ∈ (k, v) :: rest → x ∈ A) → NoDup (keys ((k, v) :: rest)) →
  wf_heap hc = true → upd P (eq lr) h0 hc →
  hc !! lr = Some oc → copy_inv ob ((k, v) :: rest) oc →
  is_dict h0 v = true → contains hc (VRef lr) k = true →
  ((py_pop_default v "_delete_" ;;;
    bk <- py_getitem (VRef lr) k ;;
    r <- rec v bk ;;
    py_setitem (VRef lr) k r) ;;;
   merge_loop rec (VRef la) (VRef lr) (length A) rest) hc = (h', r) →
  loop_post rec h0 la lb ob ((k, v) :: rest) hc h' r ∧
  (loop_good good h0 la lb ob ((k, v) :: rest) → ∃ v, r = Ok v).
Proof.
  intros IH Hsub Hnd Hwf Hupd Hlr Hinv Hdv Hc Hrun.
  unfold loop_post.
  apply NoDup_keys_cons in Hnd as (Hk & Hnd & Hne).
  assert ((k, v) ∈ A) as Hvin by (apply Hsub; left).
  pose proof (item_ok _ _ Hvin) as Hvok.
  pose proof (lr_lt _ _ Hlr) as Hlt.
  apply is_dict_Some in Hdv as Hdv'. destruct Hdv' as (lv & dv0 & -> & Hlv0).
  apply val_ok_ref in Hvok as Hlvlt.
  assert (lr ≠ lv) as Hlvne by (unfold lr; lia).
  assert (contains h0 (VRef lb) k = true) as Hc0.
  { simpl in Hc |- *. rewrite Hlr in Hc. rewrite Hlb.
    destruct (copy_inv_cases _ _ Hinv) as [(B & Rc & -> & -> & HRc)|(xs & -> & ->)];
      [|done].
    unfold dict_has in *. rewrite <-HRc; [done|]. unfold keys. csimpl. left. }
  assert (P lv) as HPlv by by eapply shared_here.
  assert (∃ dv, hc !! lv = Some (ODict dv)) as [dv Hlv].
  { destruct (upd_old _ _ _ _ _ _ Hupd Hlv0 Hlvne) as [?|(? & [= <-] & ?)]; eauto. }
  set (h1 := <[lv:=ODict (dict_del "_delete_" dv)]> hc) in *.
  assert (wf_heap h1 = true) as Hwf1.
  { apply wf_heap_insert; [done|]. apply obj_ok_del. by eapply wf_heap_lookup. }
  assert (upd P (eq lr) hc h1) as Hupd1 by by apply upd_pop.
  assert (h1 !! lr = Some oc) as Hlr1
    by by (unfold h1; rewrite list_lookup_insert_ne by done).
  assert (h1 !! lv = Some (ODict (dict_del "_delete_" dv))) as Hlv1
    by (apply list_lookup_insert_eq; by eapply lookup_lt_Some).
  assert (upd P (eq lr) h0 h1) as Hupd01 by by eapply upd_trans.
  assert (length h0 ≤ length h1) as Hlen1 by apply Hupd01.
  unfold bind in Hrun.
  rewrite (run_py_pop_default _ _ _ "_delete_" Hlv) in Hrun.
  fold h1 in Hrun. cbv beta iota in Hrun.
  destruct (copy_inv_cases _ _ Hinv)
    as [(B & Rc & Hob & -> & HRc)|(xs & Hob & ->)]; cycle 1.
  { (* the copy is a list: [b[k]] raises *)
    rewrite (run_py_getitem_list _ _ _ k Hlr1) in Hrun.
    inversion Hrun; subst h' r. split.
    - split; [done|]. split; [done|]. done.
    - unfold loop_good. rewrite Hob. by intros [_ ?]. }
  assert (h0 !! lb = Some (ODict B)) as HlbB by by rewrite <-Hob.
  assert (∃ bk, dict_get k Rc = Some bk) as [bk Hbk]
    by (apply dict_has_true; simpl in Hc; by rewrite Hlr in Hc).
  assert (dict_get k B = Some bk) as HbkB
    by (rewrite <-HRc; [done|]; unfold keys; csimpl; left).
  assert (val_ok (length h0) bk = true) as Hbkok.
  { eapply wf_heap_val; [done..|]. by apply dict_get_elem. }
  assert (∀ l, shared h1 (VRef lv) bk l → P l) as Hsh.
  { intros l Hl.
    pose proof (shared_upd P (eq lr) h0 h1 _ _ _ Hwf0 Hupd01 new_lr Hvok Hbkok Hl).
    by eapply shared_below. }
  rewrite (run_py_getitem_dict _ _ _ k Hlr1), Hbk in Hrun.
  cbv beta iota in Hrun.
  destruct (rec (VRef lv) bk h1) as [h2 r2] eqn:Hrec.
  destruct (Hsound _ _ _ _ _ Hwf1 (val_ok_mono _ _ _ Hlen1 Hvok)
              (val_ok_mono _ _ _ Hlen1 Hbkok) Hrec) as (Hwf2 & Hupd2 & Hres2).
  assert (upd P (eq lr) h1 h2) as Hupd12
    by (eapply upd_mono; [| |exact Hupd2]; [apply Hsh|unfold nowhere; tauto]).
  assert (h2 !! lr = Some (ODict Rc)) as Hlr2.
  { eapply (upd_keep _ _ h1 h2); [exact Hupd2|exact Hlr1| |unfold nowhere; tauto].
    intros HP%Hsh%P_lt. lia. }
  destruct r2 as [rk|e2]; cycle 1.
  - (* the inner merge raised *)
    inversion Hrun; subst h' r. split.
    + split; [done|]. split; [by eapply upd_trans|]. done.
    + intros Hg. exfalso. destruct Hg as [_ Hg]. rewrite Hob in Hg.
      destruct (Htotal (VRef lv) bk h1) as (? & ? & Hok); try done.
      * by eapply val_ok_mono.
      * by eapply val_ok_mono.
      * apply (Hmono h0 h1 _ _ Hwf0 Hvok Hbkok).
        -- eapply upd_mono; [| |exact Hupd01]; [done|]. apply new_lr.
        -- eapply Hg; [left|done..].
      * congruence.
  - (* the inner merge returned *)
    rewrite (run_py_setitem_dict _ _ _ k rk Hlr2) in Hrun.
    set (h3 := <[lr:=ODict (dict_set k rk Rc)]> h2) in *.
    destruct (Hres2 rk eq_refl) as [-> Hlt2].
    assert (lr < length h2) as Hlrlt2 by by eapply lookup_lt_Some.
    assert (wf_heap h3 = true) as Hwf3.
    { apply wf_heap_insert; [done|]. apply obj_ok_set.
      - by eapply wf_heap_lookup.
      - by apply val_ok_ref. }
    assert (upd P (eq lr) h2 h3) as Hupd3 by by apply upd_set.
    assert (h3 !! lr = Some (ODict (dict_set k (VRef (length h1)) Rc))) as Hlr3
      by by apply list_lookup_insert_eq.
    destruct (IH h3 (ODict (dict_set k (VRef (length h1)) Rc)) h' r)
      as [(Hwf' & Hupd' & Hres) Hgood]; try done.
    { intros x Hx. apply Hsub. by right. }
    { eapply upd_trans; [exact Hupd01|]. by eapply upd_trans. }
    { unfold copy_inv. rewrite Hob. eexists. split; [done|].
      intros k' Hk'. rewrite dict_get_set_ne by by apply Hne.
      apply HRc. unfold keys in *. csimpl. by right. }
    split.
    + split; [done|]. split.
      { eapply upd_trans; [exact Hupd1|]. eapply upd_trans; [exact Hupd12|].
        by eapply upd_trans. }
      intros v' Hv'. destruct (Hres v' Hv') as (-> & Hit). split; [done|].
      rewrite Hob in Hit |- *. destruct Hit as (Rc' & R & HRc' & HR & Hit).
      unfold lr in Hlr3; rewrite Hlr3 in HRc'. inversion HRc'; subst Rc'.
      exists Rc, R. split_and!; try done.
      eapply (loop_items_merged k lv (dict_del "_delete_" dv) bk
                (VRef (length h1)) rest Rc R hc h1 h2 h3 h'); try done.
      * apply dict_has_false, dict_get_del_eq.
      * eapply upd_trans; [exact Hupd12|exact Hupd3].
    + intros Hg. apply Hgood. by eapply loop_good_tail.
Qed.

Lemma merge_loop_spec its : loop_claim rec good h0 la lb A ob its.
Proof.
  induction its as [|[k v] rest IH];
    intros hc oc h' r Hsub Hnd Hwf Hupd Hlr Hinv Hrun.
  - rewrite merge_loop_nil in Hrun.
    destruct (a_check hc Hupd) as (d & Hd & HdA).
    unfold bind in Hrun. rewrite (run_dict_iter_check _ _ _ _ Hd) in Hrun.
    unfold loop_post.
    destruct (Nat.eqb_spec (length d) (length A)) as [Hlen|Hlen];
      inversion Hrun; subst h' r; (split; [split; [done|]; split; [apply upd_refl|]|]).
    + intros ? [= <-]. split; [done|].
      destruct (copy_inv_cases _ _ Hinv) as [(B & Rc & -> & -> & HRc)|(xs & -> & ->)];
        [|done].
      exists Rc, Rc. split_and!; done.
    + eauto.
    + done.
    + intros [HnP _]. rewrite (HdA HnP) in Hlen. done.
  - rewrite merge_loop_cons in Hrun. fold lr in Hrun, Hlr.
    destruct (a_check hc Hupd) as (d & Hd & HdA).
    assert ((k, v) ∈ A) as Hvin by (apply Hsub; left).
    pose proof (item_ok _ _ Hvin) as Hvok.
    unfold bind in Hrun at 1.
    rewrite (run_dict_iter_check _ _ _ _ Hd) in Hrun.
    destruct (Nat.eqb_spec (length d) (length A)) as [Hlen|Hlen]; cycle 1.
    { inversion Hrun; subst h' r.
      split; [split; [done|]; split; [apply upd_refl|done]|].
      intros [HnP _]. rewrite (HdA HnP) in Hlen. done. }
    unfold bind in Hrun at 1. unfold isinstance_dict in Hrun at 1.
    assert (is_dict hc v = is_dict h0 v) as Hisd.
    { destruct v as [| | | | |lv]; try done.
      apply val_ok_ref in Hvok. eapply upd_is_dict; [done..|].
      unfold lr. lia. }
    rewrite Hisd in Hrun.
    destruct (is_dict h0 v) eqn:Hdv.
    + rewrite (bind_ok _ _ _ _ _ (run_py_contains _ _ _ k Hlr)) in Hrun.
      destruct (contains hc (VRef lr) k) eqn:Hc.
      * by eapply loop_then.
      * eapply loop_else; try done. by rewrite Hdv.
    + unfold bind in Hrun at 1. simpl in Hrun.
      eapply loop_else; try done. by rewrite Hdv.
Qed.
End merge_loop.

Lemma merge_body_spec rec good a b h h' r :
  merge_sound rec → merge_total good rec → good_mono good →
  wf_heap h = true → val_ok (length h) a = true → val_ok (length h) b = true →
  merge_body rec a b h = (h', r) →
  wf_heap h' = true ∧ upd (shared h a b) nowhere h h' ∧
  (∀ v, r = Ok v → merge_result rec a b h h' v) ∧
  (merge_good good h a b → ∃ v, r = Ok v).
Proof.
  intros Hsound Htotal Hmono Hwf Ha Hb Hrun. unfold merge_body in Hrun.
  apply bind_inv in Hrun as [(e & Hcopy & ->)|(b' & h1 & Hcopy & Hrun)];
    apply py_copy_inv in Hcopy
      as [(-> & e' & He & Htup)|(lb & ob & -> & Hlb & Hnt & -> & Hb')];
    try done.
  { (* [b] has no [copy] *)
    split_and!; [done|apply upd_refl|done|].
    intros (la & A & lb & ob & -> & -> & Hla & Hlb & Hg).
    destruct (Htup _ _ eq_refl Hlb) as [xs ->]. destruct Hg as [_ []]. }
  inversion Hb'; subst b'. clear Hb'.
  assert (wf_heap (h ++ [ob]) = true) as Hwf1.
  { apply wf_heap_alloc; [done|]. eapply obj_ok_mono; [|by eapply wf_heap_lookup].
    lia. }
  apply bind_inv in Hrun as [(e & Hits & ->)|(A & h1 & Hits & Hrun)];
    pose proof Hits as Hits'; apply py_items_inv in Hits as [-> HA].
  { (* [a] has no [items] *)
    split_and!; [done|apply upd_alloc|done|].
    intros (la & A & lb' & ob' & -> & _ & Hla & _).
    erewrite run_py_items in Hits' by by apply lookup_app_l_Some.
    done. }
  destruct (HA A eq_refl) as (la & -> & Hla1).
  apply val_ok_ref in Ha as Hlalt.
  assert (h !! la = Some (ODict A)) as Hla by by rewrite lookup_app_l in Hla1.
  assert ((h ++ [ob]) !! length h = Some ob) as Hlr
    by by rewrite lookup_app_r, Nat.sub_diag by lia.
  destruct (merge_loop_spec rec good Hsound Htotal Hmono h la lb A ob Hwf Hla Hlb
              A (h ++ [ob]) ob h' r) as [(Hwf' & Hupd' & Hres) Hgood]; try done.
  { by eapply wf_heap_NoDup. }
  { apply upd_alloc. }
  { unfold copy_inv. destruct ob as [B|xs|xs]; [by eauto|done|].
    by destruct (Hnt xs). }
  assert (length h < length h') as Hlt.
  { destruct Hupd' as [Hlen _]. rewrite length_app in Hlen. simpl in Hlen. lia. }
  split_and!; [done| | |].
  - split; [lia|]. intros l o Hl.
    destruct Hupd' as [_ Hupd'].
    destruct (Hupd' l o) as [?|[?|<-]]; [by apply lookup_app_l_Some|auto..|].
    apply lookup_lt_Some in Hl. lia.
  - intros v Hv. destruct (Hres v Hv) as [-> Hit]. split; [done|].
    split; [done|]. exists la, A, lb, ob. split_and!; try done.
    destruct ob as [B|xs|xs].
    + destruct Hit as (Rc & R & HRc & HR & Hit). rewrite Hlr in HRc.
      inversion HRc; subst Rc. eauto.
    + destruct Hit as [-> ->]. done.
    + by destruct (Hnt xs).
  - intros (la' & A' & lb' & ob' & [= <-] & [= <-] & Hla' & Hlb' & Hg).
    apply Hgood. by simplify_eq.
Qed.

(** ** The merge, at every recursion depth *)

Lemma merge_total_none rec : merge_total (λ _ _ _, False) rec.
Proof. by intros a b h _ _ _ []. Qed.

Lemma good_mono_none : good_mono (λ _ _ _, False).
Proof. by intros h h' a b _ _ _ _ []. Qed.

Lemma merge_sound_fuel n : merge_sound (merge_a_into_b n).
Proof.
  induction n as [|n IH]; intros a b h h' r Hwf Ha Hb Hrun.
  - inversion Hrun; subst h' r. split_and!; [done|apply upd_refl|done].
  - simpl in Hrun.
    destruct (merge_body_spec _ _ _ _ _ _ _ IH (merge_total_none _)
                good_mono_none Hwf Ha Hb Hrun) as (Hwf' & Hupd & Hres & _).
    split_and!; [done..|]. intros v Hv.
    by destruct (Hres v Hv) as (-> & ? & _).
Qed.

(** What a merge that went into the recursion returns. *)
Lemma merge_spec n a b h h' r :
  wf_heap h = true → val_ok (length h) a = true → val_ok (length h) b = true →
  merge_a_into_b (S n) a b h = (h', r) →
  wf_heap h' = true ∧ upd (shared h a b) nowhere h h' ∧
  ∀ v, r = Ok v → merge_result (merge_a_into_b n) a b h h' v.
Proof.
  intros Hwf Ha Hb Hrun. simpl in Hrun.
  destruct (merge_body_spec _ _ _ _ _ _ _ (merge_sound_fuel n)
              (merge_total_none _) good_mono_none Hwf Ha Hb Hrun)
    as (Hwf' & Hupd & Hres & _).
  done.
Qed.

(** ** When a merge returns *)

Lemma mergeable_inv n seen h a b :
  mergeable (S n) seen h a b = true →
  ∃ la lb A ob,
    a = VRef la ∧ b = VRef lb ∧ h !! la = Some (ODict A) ∧ h !! lb = Some ob ∧
    match ob with
    | ODict B =>
        ∀ k v, (k, v) ∈ A → is_dict h v = true → dict_has k B = true →
          ∃ lv bk, v = VRef lv ∧ dict_get k B = Some bk ∧
                   (lv ∉ la :: seen) ∧ mergeable n (la :: seen) h v bk = true
    | OList _ => A = []
    | OTuple _ => False
    end.
Proof.
  simpl. destruct a as [| | | | |la]; try done.
  destruct b as [| | | | |lb]; try done.
  destruct (h !! la) as [[A| |]|] eqn:Hla; try done.
  destruct (h !! lb) as [[B|xs|xs]|] eqn:Hlb; try done.
  - intros Hall. exists la, lb, A, (ODict B). split_and!; try done.
    intros k v Hin Hd HB. rewrite forallb_forall in Hall.
    specialize (Hall (k, v)). simpl in Hall. rewrite Hd, HB in Hall. simpl in Hall.
    apply list_elem_of_In in Hin. specialize (Hall Hin).
    destruct v as [| | | | |lv]; try done.
    destruct (dict_get k B) as [bk|]; [|done].
    apply andb_true_iff in Hall as [Hseen Hm]. exists lv, bk.
    split_and!; try done. apply negb_true_iff in Hseen.
    intros Hlv. apply not_true_iff_false in Hseen. apply Hseen.
    apply (existsb_exists (Nat.eqb lv) (la :: seen)). exists lv.
    split; [by apply list_elem_of_In|]. apply Nat.eqb_refl.
  - intros HA. exists la, lb, A, (OList xs). split_and!; try done.
    by destruct A.
Qed.

Lemma mergeable_intro n seen h la lb A ob :
  h !! la = Some (ODict A) → h !! lb = Some ob →
  match ob with
  | ODict B =>
      ∀ k v, (k, v) ∈ A → is_dict h v = true → dict_has k B = true →
        ∃ lv bk, v = VRef lv ∧ dict_get k B = Some bk ∧
                 (lv ∉ la :: seen) ∧ mergeable n (la :: seen) h v bk = true
  | OList _ => A = []
  | OTuple _ => False
  end →
  mergeable (S n) seen h (VRef la) (VRef lb) = true.
Proof.
  intros Hla Hlb H. simpl. rewrite Hla, Hlb. destruct ob as [B|xs|xs]; [| |done].
  - apply forallb_forall. intros [k v] Hin. simpl.
    destruct (is_dict h v && dict_has k B) eqn:Hc; [|done].
    apply andb_true_iff in Hc as [Hd HB].
    destruct (H k v) as (lv & bk & -> & -> & Hseen & Hm); [by apply list_elem_of_In|done..|].
    rewrite Hm, andb_true_r. apply negb_true_iff, not_true_iff_false.
    intros (x & Hx & Heq)%(existsb_exists (Nat.eqb lv) (la :: seen)).
    apply Nat.eqb_eq in Heq as <-.
    by apply Hseen, list_elem_of_In.
  - by subst A.
Qed.

Lemma contains_dict h l d k :
  h !! l = Some (ODict d) → contains h (VRef l) k = dict_has k d.
Proof. intros Hl. simpl. by rewrite Hl. Qed.

(** A mergeable pair keeps clear of the dictionaries being iterated. *)
Lemma mergeable_shared h a b l :
  shared h a b l →
  ∀ n seen, mergeable n seen h a b = true →
  ∃ la, a = VRef la ∧ (l ∉ la :: seen).
Proof.
  induction 1 as [la d k lv b Hla Hin Hd Hc|la d k lv lb d' bk l Hla Hin Hd Hlb Hbk Hsh IH];
    intros [|n] seen Hm; try done;
    apply mergeable_inv in Hm
      as (la' & lb' & A & ob & Ha & Hb & HA & Hob & Hm);
    simplify_eq.
  - eexists. split; [done|]. destruct ob as [B|xs|xs]; [| |done].
    + erewrite contains_dict in Hc by done.
      by destruct (Hm k (VRef lv) Hin Hd Hc) as (? & ? & [= <-] & _ & ? & _).
    + subst d. by apply elem_of_nil in Hin.
  - eexists. split; [done|].
    destruct (Hm k (VRef lv) Hin Hd) as (? & ? & [= <-] & Hbk' & ? & Hm').
    { apply dict_has_true. eauto. }
    simplify_eq. destruct (IH _ _ Hm') as (? & [= <-] & Hl).
    intros Hl'. apply Hl. by right.
Qed.

Lemma upd_dict_sub P Q h h' l d :
  upd P Q h h' → ¬ Q l → h !! l = Some (ODict d) →
  ∃ d', h' !! l = Some (ODict d') ∧ (∀ x, x ∈ d' → x ∈ d) ∧
        ∀ k v, dict_get k d' = Some v → dict_get k d = Some v.
Proof.
  intros Hupd HQ Hl.
  destruct (upd_old _ _ _ _ _ _ Hupd Hl HQ) as [?|(d0 & [= <-] & ?)].
  - exists d. by split_and!.
  - eexists. split_and!; [done| |].
    + intros x. apply elem_of_dict_del.
    + intros k v. apply dict_get_del_Some.
Qed.

Lemma mergeable_upd n : good_mono (λ h a b, ∃ seen, mergeable n seen h a b = true).
Proof.
  intros h h' a b Hwf Ha Hb Hupd [seen Hm]. exists seen.
  revert seen a b Ha Hb Hm. induction n as [|n IH]; intros seen a b Ha Hb Hm; [done|].
  apply mergeable_inv in Hm as (la & lb & A & ob & -> & -> & HA & Hob & Hm).
  apply val_ok_ref in Ha as Hla. apply val_ok_ref in Hb as Hlb.
  assert (¬ length h ≤ la) as Hla' by lia.
  assert (¬ length h ≤ lb) as Hlb' by lia.
  destruct (upd_dict_sub _ _ _ _ _ _ Hupd Hla' HA)
    as (A' & HA' & HsubA & _).
  destruct ob as [B|xs|xs]; [| |done].
  - destruct (upd_dict_sub _ _ _ _ _ _ Hupd Hlb' Hob)
      as (B' & HB' & _ & HgetB).
    eapply mergeable_intro; [done..|]. intros k v Hin Hdv HB.
    apply HsubA in Hin.
    pose proof (wf_heap_val _ _ _ _ _ Hwf HA Hin) as Hvok.
    assert (is_dict h v = true) as Hdv0.
    { destruct v as [| | | | |lv]; try done. apply val_ok_ref in Hvok.
      erewrite <-upd_is_dict; [done..|simpl; lia]. }
    apply dict_has_true in HB as [x Hx]. pose proof (HgetB _ _ Hx) as Hx0.
    destruct (Hm k v Hin Hdv0) as (lv & bk & -> & Hbk & Hseen & Hm').
    { apply dict_has_true. eauto. }
    rewrite Hx0 in Hbk. inversion Hbk; subst x.
    exists lv, bk. split_and!; try done.
    apply IH; [done| |done]. eapply wf_heap_val; [done..|].
    by apply dict_get_elem.
  - destruct (upd_old _ _ _ _ _ _ Hupd Hob Hlb')
      as [Hob'|(? & [=] & _)].
    eapply mergeable_intro; [done..|]. simpl. subst A.
    destruct A' as [|x A']; [done|]. exfalso. eapply elem_of_nil, HsubA. left.
Qed.

Lemma merge_total_fuel n :
  merge_total (λ h a b, ∃ seen, mergeable n seen h a b = true) (merge_a_into_b n).
Proof.
  induction n as [|n IH]; intros a b h Hwf Ha Hb [seen Hm]; [done|].
  destruct (merge_a_into_b (S n) a b h) as [h' r] eqn:Hrun. simpl in Hrun.
  destruct (merge_body_spec _ _ _ _ _ _ _ (merge_sound_fuel n) IH (mergeable_upd n)
              Hwf Ha Hb Hrun) as (_ & _ & _ & Hgood).
  destruct Hgood as [v ->]; [|by eauto].
  pose proof Hm as Hm0.
  apply mergeable_inv in Hm as (la & lb & A & ob & -> & -> & HA & Hob & Hm).
  exists la, A, lb, ob. split_and!; try done. split.
  - intros Hsh. destruct (mergeable_shared _ _ _ _ Hsh _ _ Hm0) as (? & [= <-] & Hl).
    apply Hl. left.
  - destruct ob as [B|xs|xs]; [|done..].
    intros k v bk Hin Hd Hbk.
    destruct (Hm k v Hin Hd) as (lv & bk' & -> & Hbk' & _ & Hm').
    { apply dict_has_true. eauto. }
    simplify_eq. eauto.
Qed.

Lemma mergeable_fuel n m seen h a b :
  n ≤ m → mergeable n seen h a b = true → mergeable m seen h a b = true.
Proof.
  revert m seen a b. induction n as [|n IH]; intros m seen a b Hle Hm; [done|].
  destruct m as [|m]; [lia|].
  apply mergeable_inv in Hm as (la & lb & A & ob & -> & -> & HA & Hob & Hm).
  eapply mergeable_intro; [done..|]. destruct ob as [B|xs|xs]; try done.
  intros k v Hin Hd HB.
  destruct (Hm k v Hin Hd HB) as (lv & bk & -> & Hbk & Hseen & Hm').
  exists lv, bk. split_and!; try done. apply IH; [lia|done].
Qed.
(** ** A merge that does not descend *)

Lemma is_dict_app h new v :
  val_ok (length h) v = true → is_dict (h ++ new) v = is_dict h v.
Proof.
  destruct v as [| | | | |l]; try done. intros Hl%val_ok_ref.
  simpl. by rewrite lookup_app_l.
Qed.

Lemma insert_last {A} (l : list A) x y : <[length l:=y]> (l ++ [x]) = l ++ [y].
Proof. induction l as [|a l IH]; simpl; [done|]. by rewrite IH. Qed.

Lemma lookup_last {A} (l : list A) x : (l ++ [x]) !! length l = Some x.
Proof. rewrite lookup_app_r by done. by rewrite Nat.sub_diag. Qed.

Lemma merge_loop_update rec h la A :
  h !! la = Some (ODict A) →
  ∀ its Rc,
    NoDup (keys its) →
    (∀ k v, (k, v) ∈ its → val_ok (length h) v = true) →
    (∀ k v, (k, v) ∈ its → is_dict h v = true → dict_has k Rc = false) →
    merge_loop rec (VRef la) (VRef (length h)) (length A) its (h ++ [ODict Rc])
    = (h ++ [ODict (dict_update its Rc)], Ok (VRef (length h))).
Proof.
  intros Hla. induction its as [|[k v] its IH]; intros Rc Hnd Hok Hno.
  - rewrite merge_loop_nil. unfold bind.
    rewrite (run_dict_iter_check _ la A); [|by apply lookup_app_l_Some].
    by rewrite Nat.eqb_refl.
  - rewrite merge_loop_cons. unfold bind at 1.
    rewrite (run_dict_iter_check _ la A); [|by apply lookup_app_l_Some].
    rewrite Nat.eqb_refl.
    assert (val_ok (length h) v = true) as Hv by (apply (Hok k); left).
    unfold bind at 1. unfold isinstance_dict at 1.
    rewrite (is_dict_app h [ODict Rc] v Hv).
    assert ((inb <- (if is_dict h v then py_contains (VRef (length h)) k
                     else ret false) ;;
             (if inb then
                py_pop_default v "_delete_" ;;;
                bk <- py_getitem (VRef (length h)) k ;;
                r <- rec v bk ;;
                py_setitem (VRef (length h)) k r
              else py_setitem (VRef (length h)) k v) ;;;
             merge_loop rec (VRef la) (VRef (length h)) (length A) its)
              (h ++ [ODict Rc])
            = merge_loop rec (VRef la) (VRef (length h)) (length A) its
                (h ++ [ODict (dict_set k v Rc)])) as ->.
    { assert ((if is_dict h v then py_contains (VRef (length h)) k else ret false)
                (h ++ [ODict Rc]) = (h ++ [ODict Rc], Ok false)) as Hin.
      { destruct (is_dict h v) eqn:Hd; [|done].
        rewrite (run_py_contains _ _ _ k (lookup_last h (ODict Rc))). simpl.
        rewrite lookup_last. f_equal. f_equal. apply (Hno k v); [left|done]. }
      rewrite (bind_ok _ _ _ _ _ Hin).
      rewrite (bind_ok _ _ _ _ _
                 (run_py_setitem_dict _ _ _ k v (lookup_last h (ODict Rc)))).
      by rewrite insert_last. }
    apply NoDup_cons in Hnd as [Hk Hnd].
    rewrite IH; [done|done| |].
    + intros k' v' Hin. apply (Hok k'). by right.
    + intros k' v' Hin Hd. rewrite dict_has_set.
      rewrite (Hno k' v'); [|by right|done]. rewrite orb_false_r.
      apply String.eqb_neq. intros ->. apply Hk.
      apply list_elem_of_fmap. by exists (k, v').
Qed.

(** A merge with no nested mapping to descend into. *)
Lemma merge_update_run n h la lb A B :
  wf_heap h = true →
  h !! la = Some (ODict A) → h !! lb = Some (ODict B) →
  (∀ k v, (k, v) ∈ A → is_dict h v = true → dict_has k B = false) →
  merge_a_into_b (S n) (VRef la) (VRef lb) h
  = (h ++ [ODict (dict_update A B)], Ok (VRef (length h))).
Proof.
  intros Hwf Hla Hlb Hno. simpl. unfold merge_body.
  rewrite (bind_ok _ _ _ _ _ (run_py_copy_dict _ _ _ Hlb)).
  rewrite (bind_ok _ _ _ _ _
             (run_py_items _ _ _ (lookup_app_l_Some _ _ _ _ Hla))).
  pose proof (wf_heap_lookup _ _ _ Hwf Hla) as [Hvals Hnd]%obj_ok_dict.
  by apply merge_loop_update.
Qed.

Lemma dict_update_cons {A} k (v : A) l d :
  dict_update ((k, v) :: l) d = dict_update l (dict_set k v d).
Proof. done. Qed.

Lemma filter_not_in_snoc (ks kb : list string) k :
  k ∉ ks →
  filter (λ x, x ∉ kb ++ [k]) ks = filter (λ x, x ∉ kb) ks.
Proof.
  intros Hk. induction ks as [|x ks IH]; [done|].
  apply not_elem_of_cons in Hk as [Hne Hk].
  destruct (decide (x ∈ kb)) as [Hin|Hin].
  - rewrite !filter_cons_False; [by apply IH| |].
    + intros H. by apply H.
    + intros H. apply H. apply elem_of_app. by left.
  - rewrite !filter_cons_True; [by rewrite IH|done|].
    intros [?|?%list_elem_of_singleton]%elem_of_app; [done|]. by subst.
Qed.

Lemma keys_dict_update {A} (l d : list (string * A)) :
  NoDup (keys l) →
  keys (dict_update l d) = keys d ++ filter (λ k, k ∉ keys d) (keys l).
Proof.
  revert d. induction l as [|[k v] l IH]; intros d Hnd.
  - simpl. by rewrite app_nil_r.
  - apply NoDup_cons in Hnd as [Hk Hnd].
    rewrite dict_update_cons, IH by done. rewrite keys_set.
    change (keys ((k, v) :: l)) with (k :: keys l).
    destruct (dict_has k d) eqn:Hhas.
    + apply dict_has_keys in Hhas. rewrite filter_cons_False; [done|].
      intros H. by apply H.
    + assert (k ∉ keys d) as Hnk.
      { intros Hin%dict_has_keys. congruence. }
      rewrite filter_cons_True by done.
      rewrite filter_not_in_snoc by done. by rewrite <-app_assoc.
Qed.

Lemma dict_get_update {A} (l d : list (string * A)) k :
  NoDup (keys l) →
  dict_get k (dict_update l d)
  = match dict_get k l with Some v => Some v | None => dict_get k d end.
Proof.
  revert d. induction l as [|[k' v'] l IH]; intros d Hnd; [done|].
  apply NoDup_cons in Hnd as [Hk Hnd].
  rewrite dict_update_cons, IH by done. simpl.
  destruct (String.eqb_spec k k') as [->|Hne].
  - assert (dict_get k' l = None) as -> by by apply dict_get_None_keys.
    apply dict_get_set_eq.
  - by rewrite dict_get_set_ne.
Qed.

Lemma dict_update_same {A} (l d : list (string * A)) :
  (∀ k v, (k, v) ∈ l → dict_get k d = Some v) → dict_update l d = d.
Proof.
  induction l as [|[k v] l IH]; intros H; [done|].
  rewrite dict_update_cons, dict_set_same by (apply H; left).
  apply IH. intros k' v' Hin. apply H. by right.
Qed.

Lemma dict_update_twice {A} (l d : list (string * A)) :
  NoDup (keys l) → dict_update l (dict_update l d) = dict_update l d.
Proof.
  intros Hnd. apply dict_update_same. intros k v Hin.
  rewrite dict_get_update by done.
  by rewrite (dict_get_NoDup _ _ _ Hnd Hin).
Qed.

Lemma obj_ok_update n (l d : list (string * val)) :
  obj_ok n (ODict d) = true → (∀ k v, (k, v) ∈ l → val_ok n v = true) →
  obj_ok n (ODict (dict_update l d)) = true.
Proof.
  revert d. induction l as [|[k v] l IH]; intros d Hd Hl; [done|].
  rewrite dict_update_cons. apply IH.
  - apply obj_ok_set; [done|]. apply (Hl k). left.
  - intros k' v' Hin. apply (Hl k'). by right.
Qed.

(** The items of the overlay that come before the first descent are
    assigned to the copy one after the other. *)
Lemma merge_loop_skip rec h la A rest :
  h !! la = Some (ODict A) →
  ∀ pre Rc,
    NoDup (keys pre) →
    (∀ k v, (k, v) ∈ pre → val_ok (length h) v = true) →
    (∀ k v, (k, v) ∈ pre → is_dict h v = true → dict_has k Rc = false) →
    merge_loop rec (VRef la) (VRef (length h)) (length A) (pre ++ rest)
      (h ++ [ODict Rc])
    = merge_loop rec (VRef la) (VRef (length h)) (length A) rest
        (h ++ [ODict (dict_update pre Rc)]).
Proof.
  intros Hla. induction pre as [|[k v] pre IH]; intros Rc Hnd Hok Hno; [done|].
  change (((k, v) :: pre) ++ rest) with ((k, v) :: (pre ++ rest)).
  rewrite merge_loop_cons. unfold bind at 1.
  rewrite (run_dict_iter_check _ la A); [|by apply lookup_app_l_Some].
  rewrite Nat.eqb_refl.
  assert (val_ok (length h) v = true) as Hv by (apply (Hok k); left).
  unfold bind at 1. unfold isinstance_dict at 1.
  rewrite (is_dict_app h [ODict Rc] v Hv).
  assert ((inb <- (if is_dict h v then py_contains (VRef (length h)) k
                   else ret false) ;;
           (if inb then
              py_pop_default v "_delete_" ;;;
              bk <- py_getitem (VRef (length h)) k ;;
              r <- rec v bk ;;
              py_setitem (VRef (length h)) k r
            else py_setitem (VRef (length h)) k v) ;;;
           merge_loop rec (VRef la) (VRef (length h)) (length A) (pre ++ rest))
            (h ++ [ODict Rc])
          = merge_loop rec (VRef la) (VRef (length h)) (length A) (pre ++ rest)
              (h ++ [ODict (dict_set k v Rc)])) as ->.
  { assert ((if is_dict h v then py_contains (VRef (length h)) k else ret false)
              (h ++ [ODict Rc]) = (h ++ [ODict Rc], Ok false)) as Hin.
    { destruct (is_dict h v) eqn:Hd; [|done].
      rewrite (run_py_contains _ _ _ k (lookup_last h (ODict Rc))). simpl.
      rewrite lookup_last. f_equal. f_equal. apply (Hno k v); [left|done]. }
    rewrite (bind_ok _ _ _ _ _ Hin).
    rewrite (bind_ok _ _ _ _ _
               (run_py_setitem_dict _ _ _ k v (lookup_last h (ODict Rc)))).
    by rewrite insert_last. }
  apply NoDup_cons in Hnd as [Hk Hnd].
  rewrite IH; [done|done| |].
  - intros k' v' Hin. apply (Hok k'). by right.
  - intros k' v' Hin Hd. rewrite dict_has_set.
    rewrite (Hno k' v'); [|by right|done]. rewrite orb_false_r.
    apply String.eqb_neq. intros ->. apply Hk.
    apply list_elem_of_fmap. by exists (k, v').
Qed.

(** The first descent of a merge, into a scalar: the copy of the base has
    been made and updated with the items before, the key [_delete_] has
    been removed from the nested mapping, and the recursive call raises an
    attribute error at the scalar's [copy]. *)
Lemma merge_first_descent_scalar n h la lb pre k lv d post B s :
  wf_heap h = true →
  h !! la = Some (ODict (pre ++ (k, VRef lv) :: post)) →
  h !! lb = Some (ODict B) →
  (∀ k' v', (k', v') ∈ pre → is_dict h v' = true → dict_has k' B = false) →
  h !! lv = Some (ODict d) →
  dict_get k B = Some s → is_ref s = false →
  merge_a_into_b (S (S n)) (VRef la) (VRef lb) h
  = (<[lv:=ODict (dict_del "_delete_" d)]> (h ++ [ODict (dict_update pre B)]),
     Raise AttributeError).
Proof.
  intros Hwf Hla Hlb Hno Hlv Hk Hs.
  set (A := pre ++ (k, VRef lv) :: post) in *.
  pose proof (wf_heap_lookup _ _ _ Hwf Hla) as [Hvals Hnd]%obj_ok_dict.
  assert (NoDup (keys pre) ∧ k ∉ keys pre) as [Hndpre Hkpre].
  { unfold A, keys in Hnd. rewrite fmap_app in Hnd.
    apply NoDup_app in Hnd as (H1 & H2 & H3). split; [done|].
    intros Hin. apply (H2 _ Hin). simpl. left. }
  assert (lv < length h) as Hlvlt by by eapply lookup_lt_Some.
  change (merge_a_into_b (S (S n)) (VRef la) (VRef lb))
    with (merge_body (merge_a_into_b (S n)) (VRef la) (VRef lb)).
  unfold merge_body.
  rewrite (bind_ok _ _ _ _ _ (run_py_copy_dict _ _ _ Hlb)).
  rewrite (bind_ok _ _ _ _ _
             (run_py_items _ _ _ (lookup_app_l_Some _ _ _ _ Hla))).
  unfold A at 2.
  rewrite (merge_loop_skip _ h la A _ Hla pre B Hndpre); [| |done]; cycle 1.
  { intros k' v' Hin. apply (Hvals k' v'). unfold A. apply elem_of_app. by left. }
  set (Rc := dict_update pre B).
  assert (dict_get k Rc = Some s) as HkRc.
  { unfold Rc. rewrite dict_get_update by done.
    assert (dict_get k pre = None) as -> by by apply dict_get_None_keys.
    done. }
  rewrite merge_loop_cons. unfold bind at 1.
  rewrite (run_dict_iter_check _ la A); [|by apply lookup_app_l_Some].
  rewrite Nat.eqb_refl.
  unfold bind at 1. unfold isinstance_dict at 1.
  assert (is_dict (h ++ [ODict Rc]) (VRef lv) = true) as ->.
  { simpl. by rewrite (lookup_app_l_Some _ _ _ _ Hlv). }
  unfold bind at 1.
  rewrite (run_py_contains _ _ _ k (lookup_last h (ODict Rc))). simpl contains.
  rewrite lookup_last.
  assert (dict_has k Rc = true) as -> by (apply dict_has_true; eauto).
  unfold bind at 1. unfold bind at 1.
  rewrite (run_py_pop_default _ _ _ "_delete_" (lookup_app_l_Some _ _ _ _ Hlv)).
  unfold bind at 1.
  assert (<[lv:=ODict (dict_del "_delete_" d)]> (h ++ [ODict Rc]) !! length h
          = Some (ODict Rc)) as HRc.
  { rewrite list_lookup_insert_ne by lia. apply lookup_last. }
  rewrite (run_py_getitem_dict _ _ _ k HRc), HkRc.
  unfold bind at 1.
  assert (∀ h0, merge_a_into_b (S n) (VRef lv) s h0 = (h0, Raise AttributeError))
    as ->; [|done].
  intros h0. simpl. unfold merge_body, bind, py_copy. by destruct s.
Qed.

(** ** What the specification says about the merge *)

(** Merging into a scalar raises at once. *)
Lemma merge_into_scalar n v s h :
  is_ref s = false → ∃ e, merge_a_into_b n v s h = (h, Raise e).
Proof.
  intros Hs. destruct n as [|n]; [by eexists|]. simpl.
  unfold merge_body, bind, py_copy. destruct s; try done; by eexists.
Qed.

Lemma is_dict_lookup h l d : h !! l = Some (ODict d) → is_dict h (VRef l) = true.
Proof. intros Hl. simpl. by rewrite Hl. Qed.

Lemma val_ok_dict h v : is_dict h v = true → val_ok (length h) v = true.
Proof.
  intros (l & d & -> & Hl)%is_dict_Some. apply val_ok_ref.
  by eapply lookup_lt_Some.
Qed.

(** The items of the result of a merge of two dictionaries. *)
Lemma merge_dicts n h la lb A B h' r :
  wf_heap h = true →
  h !! la = Some (ODict A) → h !! lb = Some (ODict B) →
  merge_a_into_b (S n) (VRef la) (VRef lb) h = (h', Ok r) →
  wf_heap h' = true ∧ r = VRef (length h) ∧ length h < length h' ∧
  ∃ R, h' !! length h = Some (ODict R) ∧
       loop_items (merge_a_into_b n) h la lb A B R (h ++ [ODict B]) h'.
Proof.
  intros Hwf HA HB Hrun.
  assert (val_ok (length h) (VRef la) = true) as Ha
    by by eapply val_ok_dict, is_dict_lookup.
  assert (val_ok (length h) (VRef lb) = true) as Hb
    by by eapply val_ok_dict, is_dict_lookup.
  destruct (merge_spec n _ _ _ _ _ Hwf Ha Hb Hrun) as (Hwf' & _ & Hres).
  destruct (Hres r eq_refl) as (-> & Hlt & la' & A' & lb' & ob & Ha' & Hb' & HA' & HB' & Hit).
  simplify_eq. destruct Hit as (R & HR & Hit). eauto 10.
Qed.

(** An entry of the result that came from a recursive merge. *)
Lemma merged_entry n h la lb A B R h' k v bk :
  wf_heap h = true →
  h !! la = Some (ODict A) → h !! lb = Some (ODict B) →
  loop_items (merge_a_into_b n) h la lb A B R (h ++ [ODict B]) h' →
  dict_get k A = Some v → is_dict h v = true → dict_get k B = Some bk →
  ∃ lv d h1 h2 lk,
    v = VRef lv ∧ h !! lv = Some (ODict d) ∧
    wf_heap h1 = true ∧
    upd (shared h (VRef la) (VRef lb)) (eq (length h)) h h1 ∧
    h1 !! lv = Some (ODict (dict_del "_delete_" d)) ∧
    merge_a_into_b n v bk h1 = (h2, Ok (VRef lk)) ∧
    length h < lk ∧ lk = length h1 ∧
    upd anywhere (eq (length h)) h1 h' ∧
    dict_get k R = Some (VRef lk) ∧ h' !! lk = h2 !! lk.
Proof.
  intros Hwf HA HB (_ & _ & H3) Hk Hd Hbk.
  destruct (H3 k v bk Hk Hd Hbk)
    as (h1 & h2 & lv & d1 & rk & Hu1 & Hwf1 & -> & Hlv1 & Hdel & Hrec & HR & Hu2).
  apply is_dict_Some in Hd as (? & d & [= <-] & Hlv).
  assert (upd (shared h (VRef la) (VRef lb)) (eq (length h)) h h1) as Hu01.
  { eapply upd_trans; [apply upd_alloc|done]. }
  assert (length h < length h1) as Hlen1.
  { destruct Hu1 as [Hlen _]. rewrite length_app in Hlen. simpl in Hlen. lia. }
  assert (lv < length h) as Hlvlt by by eapply lookup_lt_Some.
  assert (val_ok (length h) bk = true) as Hbkok.
  { apply (wf_heap_val h lb B k bk Hwf HB). by apply dict_get_elem. }
  assert (val_ok (length h1) (VRef lv) = true) as Hv1 by (apply val_ok_ref; lia).
  assert (val_ok (length h1) bk = true) as Hbk1
    by (eapply val_ok_mono; [|done]; lia).
  destruct (merge_sound_fuel n (VRef lv) bk h1 h2 (Ok rk) Hwf1 Hv1 Hbk1 Hrec)
    as (Hwf2 & Hu12 & Hres).
  destruct (Hres rk eq_refl) as [-> Hlt2].
  exists lv, d, h1, h2, (length h1). split_and!; try done.
  - destruct (upd_old _ _ _ _ _ _ Hu01 Hlv) as [Heq|(? & [= <-] & Heq)]; [lia| |done].
    rewrite Hlv1 in Heq. inversion Heq; subst d1.
    by rewrite dict_del_absent.
  - eapply upd_trans.
    + eapply upd_mono; [| |exact Hu12]; [done|by intros ? []].
    + eapply upd_mono; [| |exact Hu2]; done.
  - apply lookup_lt_is_Some_2 in Hlt2 as [o Ho]. rewrite Ho.
    eapply upd_keep; [done..| |lia]. intros HP%shared_lt. lia.
Qed.

(** An entry of the result that came from a recursive merge, with the
    stores before and after the recursive call. *)
Lemma merged_entry_stores n h la lb A B R h' k v bk :
  wf_heap h = true →
  h !! la = Some (ODict A) → h !! lb = Some (ODict B) →
  loop_items (merge_a_into_b n) h la lb A B R (h ++ [ODict B]) h' →
  dict_get k A = Some v → is_dict h v = true → dict_get k B = Some bk →
  ∃ lv d h1 h2,
    v = VRef lv ∧ h !! lv = Some (ODict d) ∧
    wf_heap h1 = true ∧ length h < length h1 ∧
    upd (shared h (VRef la) (VRef lb)) nowhere h h1 ∧
    h1 !! lv = Some (ODict (dict_del "_delete_" d)) ∧
    merge_a_into_b n v bk h1 = (h2, Ok (VRef (length h1))) ∧
    dict_get k R = Some (VRef (length h1)) ∧
    upd (shared h (VRef la) (VRef lb)) (eq (length h)) h2 h'.
Proof.
  intros Hwf HA HB (_ & _ & H3) Hk Hd Hbk.
  destruct (H3 k v bk Hk Hd Hbk)
    as (h1 & h2 & lv & d1 & rk & Hu1 & Hwf1 & -> & Hlv1 & Hdel & Hrec & HR & Hu2).
  apply is_dict_Some in Hd as (? & d & [= <-] & Hlv).
  assert (upd (shared h (VRef la) (VRef lb)) (eq (length h)) h h1) as Hu01.
  { eapply upd_trans; [apply upd_alloc|done]. }
  assert (length h < length h1) as Hlen1.
  { destruct Hu1 as [Hlen _]. rewrite length_app in Hlen. simpl in Hlen. lia. }
  assert (lv < length h) as Hlvlt by by eapply lookup_lt_Some.
  assert (val_ok (length h) bk = true) as Hbkok.
  { apply (wf_heap_val h lb B k bk Hwf HB). by apply dict_get_elem. }
  assert (val_ok (length h1) (VRef lv) = true) as Hv1 by (apply val_ok_ref; lia).
  assert (val_ok (length h1) bk = true) as Hbk1
    by (eapply val_ok_mono; [|done]; lia).
  destruct (merge_sound_fuel n (VRef lv) bk h1 h2 (Ok rk) Hwf1 Hv1 Hbk1 Hrec)
    as (_ & _ & Hres).
  destruct (Hres rk eq_refl) as [-> _].
  exists lv, d, h1, h2. split_and!; try done.
  - split; [lia|]. intros l o Hl.
    destruct Hu01 as [_ Hobj].
    destruct (Hobj l o Hl) as [?|[?|<-]]; [by left|by right; left|].
    apply lookup_lt_Some in Hl. lia.
  - destruct (upd_old _ _ _ _ _ _ Hu01 Hlv) as [Heq|(? & [= <-] & Heq)]; [lia| |done].
    rewrite Hlv1 in Heq. inversion Heq; subst d1.
    by rewrite dict_del_absent.
Qed.

(** C1 (amended).  Whenever the merge of a mapping [a] (the overlay) into
    a mapping [b] (the base) returns, the result is a new mapping [R] in
    which: every key present only in [b] holds what it holds in [b]; every
    key of [a] whose value is not a mapping, or that [b] lacks, holds
    [a]'s value itself (the overlay wins); and every key [k] that both
    have and whose value [v] in [a] is a mapping holds the result of the
    recursive merge of [v] into [b]'s value at [k].  That merge is made
    after the key [_delete_] was removed from [v], in a store [h1] that is
    the one the merge started in but for new objects (the copy of [b]
    among them) and for [_delete_] keys removed from the nested mappings
    of [a] that the merge visits; what it returns is a new object, and the
    objects it makes are in the final store as it left them.  The objects
    of the store the merge started in are in the final store as they were,
    but for those [_delete_] keys. *)
Theorem merge_a_into_b_items n h la lb A B h' r :
  wf_heap h = true →
  h !! la = Some (ODict A) → h !! lb = Some (ODict B) →
  merge_a_into_b (S n) (VRef la) (VRef lb) h = (h', Ok r) →
  r = VRef (length h) ∧
  ∃ R, h' !! length h = Some (ODict R) ∧
    (∀ k, dict_get k A = None → dict_get k R = dict_get k B) ∧
    (∀ k v, dict_get k A = Some v →
       is_dict h v && dict_has k B = false → dict_get k R = Some v) ∧
    (∀ k v bk, dict_get k A = Some v →
       is_dict h v = true → dict_get k B = Some bk →
       ∃ lv d h1 h2,
         v = VRef lv ∧ h !! lv = Some (ODict d) ∧
         wf_heap h1 = true ∧ length h < length h1 ∧
         upd (shared h (VRef la) (VRef lb)) nowhere h h1 ∧
         h1 !! lv = Some (ODict (dict_del "_delete_" d)) ∧
         merge_a_into_b n v bk h1 = (h2, Ok (VRef (length h1))) ∧
         dict_get k R = Some (VRef (length h1)) ∧
         upd (shared h (VRef la) (VRef lb)) (eq (length h)) h2 h') ∧
    wf_heap h' = true ∧
    upd (shared h (VRef la) (VRef lb)) nowhere h h'.
Proof.
  intros Hwf HA HB Hrun.
  assert (val_ok (length h) (VRef la) = true) as Ha
    by by eapply val_ok_dict, is_dict_lookup.
  assert (val_ok (length h) (VRef lb) = true) as Hb
    by by eapply val_ok_dict, is_dict_lookup.
  destruct (merge_sound_fuel (S n) _ _ _ _ _ Hwf Ha Hb Hrun) as (_ & Hupd & _).
  destruct (merge_dicts _ _ _ _ _ _ _ _ Hwf HA HB Hrun)
    as (Hwf' & -> & Hlt & R & HR & Hit).
  split; [done|]. exists R. split; [done|].
  pose proof Hit as (H1 & H2 & _). split_and!; [done..| |done|done].
  intros k v bk Hk Hd Hbk.
  exact (merged_entry_stores _ _ _ _ _ _ _ _ _ _ _ Hwf HA HB Hit Hk Hd Hbk).
Qed.

Lemma merge_a_into_b_items_witness :
  (wf_heap ex_store = true ∧
   ex_store !! 1 = Some (ODict [("k", VRef 0)]) ∧
   ex_store !! 3 = Some (ODict [("k", VRef 2)]) ∧
   merge_a_into_b 2 (VRef 1) (VRef 3) ex_store = (ex_store_merged, Ok (VRef 4))) ∧
  ∃ R lk,
    ex_store_merged !! 4 = Some (ODict R) ∧
    dict_get "k" R = Some (VRef lk) ∧
    ex_store_merged !! lk = Some (ODict [("p", VInt 1); ("q", VInt 2)]).
Proof.
  assert (wf_heap ex_store = true) as H1 by reflexivity.
  assert (ex_store !! 1 = Some (ODict [("k", VRef 0)])) as H2 by reflexivity.
  assert (ex_store !! 3 = Some (ODict [("k", VRef 2)])) as H3 by reflexivity.
  assert (merge_a_into_b 2 (VRef 1) (VRef 3) ex_store
          = (ex_store_merged, Ok (VRef 4))) as H4 by reflexivity.
  split; [by split_and!|].
  destruct (merge_a_into_b_items 1 ex_store 1 3 _ _ _ _ H1 H2 H3 H4)
    as (_ & R & HR & _ & _ & Hk & _).
  destruct (Hk "k" (VRef 0) (VRef 2) eq_refl eq_refl eq_refl)
    as (lv & d & h1 & h2 & Hv & Hlv & Hwf1 & Hlen & Hu1 & Hlv1 & Hrec & HRk & Hu2).
  inversion Hv; subst lv. clear Hv.
  assert (d = [("_delete_", VBool true); ("q", VInt 2)]) as ->.
  { assert (ex_store !! 0 = Some (ODict [("_delete_", VBool true); ("q", VInt 2)]))
      as H0 by reflexivity.
    rewrite H0 in Hlv. by inversion Hlv. }
  assert (h1 !! 2 = Some (ODict [("p", VInt 1)])) as Hb1.
  { assert (ex_store !! 2 = Some (ODict [("p", VInt 1)])) as H0 by reflexivity.
    destruct (upd_old _ _ _ _ _ _ Hu1 H0) as [Heq|(d' & Hd' & Heq)];
      [by intros []|exact Heq|].
    inversion Hd'; subst d'. exact Heq. }
  assert (h2 = h1 ++ [ODict [("p", VInt 1); ("q", VInt 2)]]) as ->.
  { rewrite (merge_update_run 0 h1 0 2 _ _ Hwf1 Hlv1 Hb1) in Hrec.
    - by inversion Hrec.
    - intros k v Hin Hd. apply elem_of_cons in Hin as [Hin|Hin].
      + by inversion Hin; subst.
      + by apply elem_of_nil in Hin. }
  exists R, (length h1). split; [exact HR|]. split; [exact HRk|].
  eapply upd_keep; [exact Hu2|apply lookup_last| |].
  - intros Hsh%shared_lt. simpl in Hsh, Hlen. lia.
  - simpl in Hlen. simpl. lia.
Defined.

(** C1, as stated, fails: for the overlay [{"k": {"_delete_": True, "q": 2}}]
    and the base [{"k": {"p": 1}}] the specification's merge keeps the key
    [_delete_] of the overlay's nested mapping, the code's does not. *)
Lemma merge_a_into_b_items_counterexample :
  merge_value 3
    (TDict [("k", TDict [("_delete_", TBool true); ("q", TInt 2)])])
    (TDict [("k", TDict [("p", TInt 1)])])
  ≠ Some (TDict (spec_merge
                   [("k", TDict [("_delete_", TBool true); ("q", TInt 2)])]
                   [("k", TDict [("p", TInt 1)])])).
Proof. vm_compute. discriminate. Qed.

(** C5 (amended).  A merge of [a] into [b], whether it returns or raises,
    leaves every object that was in the store as it was, except the
    mappings nested in [a] that it visits (those at a key that [b] has
    too, at any depth), from which it removes the key [_delete_]; and what
    it returns is a new object. *)
Theorem merge_a_into_b_frame n h a b h' r :
  wf_heap h = true → val_ok (length h) a = true → val_ok (length h) b = true →
  merge_a_into_b n a b h = (h', r) →
  (∀ l o, h !! l = Some o →
     h' !! l = Some o
     ∨ (shared h a b l ∧
        ∃ d, o = ODict d ∧ dict_has "_delete_" d = true ∧
             h' !! l = Some (ODict (dict_del "_delete_" d)))) ∧
  (∀ v, r = Ok v → v = VRef (length h) ∧ h !! length h = None ∧
                   is_Some (h' !! length h)).
Proof.
  intros Hwf Ha Hb Hrun.
  destruct (merge_sound_fuel n a b h h' r Hwf Ha Hb Hrun) as (_ & [_ Hupd] & Hres).
  split.
  - intros l o Hl. destruct (Hupd l o Hl) as [?|[(Hsh & d & -> & Hd)|[]]]; [by left|].
    destruct (dict_has "_delete_" d) eqn:Hdel.
    + right. eauto 6.
    + left. by rewrite dict_del_absent in Hd.
  - intros v Hv. destruct (Hres v Hv) as [-> Hlt]. split_and!; [done| |].
    + by apply lookup_ge_None.
    + by apply lookup_lt_is_Some_2.
Qed.

Lemma merge_a_into_b_frame_witness :
  (wf_heap ex_store = true ∧
   val_ok (length ex_store) (VRef 1) = true ∧
   val_ok (length ex_store) (VRef 3) = true ∧
   merge_a_into_b 2 (VRef 1) (VRef 3) ex_store = (ex_store_merged, Ok (VRef 4))) ∧
  ex_store_merged !! 2 = ex_store !! 2.
Proof.
  assert (wf_heap ex_store = true) as H1 by reflexivity.
  assert (val_ok (length ex_store) (VRef 1) = true) as H2 by reflexivity.
  assert (val_ok (length ex_store) (VRef 3) = true) as H3 by reflexivity.
  assert (merge_a_into_b 2 (VRef 1) (VRef 3) ex_store
          = (ex_store_merged, Ok (VRef 4))) as H4 by reflexivity.
  split; [by split_and!|].
  destruct (merge_a_into_b_frame 2 ex_store _ _ _ _ H1 H2 H3 H4) as [Hframe _].
  destruct (Hframe 2 (ODict [("p", VInt 1)]) eq_refl) as [Heq|(_ & d & Hd & Hdel & _)].
  - exact Heq.
  - inversion Hd; subst d. discriminate Hdel.
Defined.

(** C5, as stated, fails: merging the overlay [{"k": {"_delete_": True}}]
    into the base [{"k": {}}] leaves the overlay as [{"k": {}}]. *)
Lemma merge_a_into_b_frame_counterexample :
  overlay_after 3 (TDict [("k", TDict [("_delete_", TBool true)])])
                  (TDict [("k", TDict [])])
  = Some (TDict [("k", TDict [])])
  ∧ overlay_after 3 (TDict [("k", TDict [("_delete_", TBool true)])])
                    (TDict [("k", TDict [])])
    ≠ Some (TDict [("k", TDict [("_delete_", TBool true)])]).
Proof. split; [reflexivity|]. vm_compute. discriminate. Qed.

(** C6 (amended).  The merge has error conditions.  It returns, given
    recursion depth enough, for every pair that is [mergeable]: wherever it
    descends (the overlay holds a mapping at a key that the base has too)
    it finds a mapping on both sides (or an empty mapping over a list), and
    never a mapping that it is still iterating over.  When the overlay
    holds a nested mapping at a key at which the base holds a scalar, the
    merge does not return: it raises; and when that key is the first at
    which the merge descends (the items of the overlay before it hold no
    mapping at a key of the base), what it raises, with a recursion depth
    of two or more, is an attribute error: a scalar has no [copy]. *)
Theorem merge_a_into_b_returns n h a b :
  wf_heap h = true → val_ok (length h) a = true → val_ok (length h) b = true →
  (mergeable n [] h a b = true →
   ∀ m, n ≤ m → ∃ h' r, merge_a_into_b m a b h = (h', Ok r)) ∧
  (∀ la lb A B k v s,
     a = VRef la → b = VRef lb →
     h !! la = Some (ODict A) → h !! lb = Some (ODict B) →
     dict_get k A = Some v → is_dict h v = true →
     dict_get k B = Some s → is_ref s = false →
     (∃ h' e, merge_a_into_b n a b h = (h', Raise e)) ∧
     (∀ pre post,
        A = pre ++ (k, v) :: post →
        (∀ k' v', (k', v') ∈ pre → is_dict h v' = true → dict_has k' B = false) →
        ∀ m, ∃ h', merge_a_into_b (S (S m)) a b h = (h', Raise AttributeError))).
Proof.
  intros Hwf Ha Hb. split.
  - intros Hm m Hle. eapply (merge_total_fuel m); [done..|].
    exists []. by eapply mergeable_fuel.
  - intros la lb A B k v s -> -> HA HB Hk Hd Hs Hsc. split.
    + destruct (merge_a_into_b n (VRef la) (VRef lb) h) as [h' [r|e]] eqn:Hrun;
        [|by eauto].
      exfalso. destruct n as [|n]; [done|].
      destruct (merge_dicts _ _ _ _ _ _ _ _ Hwf HA HB Hrun)
        as (_ & _ & _ & R & _ & Hit).
      destruct (merged_entry _ _ _ _ _ _ _ _ _ _ _ Hwf HA HB Hit Hk Hd Hs)
        as (lv & d & h1 & h2 & lk & -> & _ & _ & _ & _ & Hrec & _).
      destruct (merge_into_scalar n (VRef lv) s h1 Hsc) as [e He]. congruence.
    + intros pre post -> Hpre m.
      apply is_dict_Some in Hd as (lv & d & -> & Hlv). eexists.
      by apply (merge_first_descent_scalar m h la lb pre k lv d post B s).
Qed.

Lemma merge_a_into_b_returns_witness :
  (wf_heap ex_store = true ∧
   val_ok (length ex_store) (VRef 1) = true ∧
   val_ok (length ex_store) (VRef 3) = true ∧
   mergeable 2 [] ex_store (VRef 1) (VRef 3) = true ∧ 2 ≤ 5) ∧
  (∃ h' r, merge_a_into_b 5 (VRef 1) (VRef 3) ex_store = (h', Ok r)) ∧
  (∃ h', merge_a_into_b 2 (VRef 1) (VRef 2) ex_store_scalar
         = (h', Raise AttributeError)).
Proof.
  assert (wf_heap ex_store = true) as H1 by reflexivity.
  assert (val_ok (length ex_store) (VRef 1) = true) as H2 by reflexivity.
  assert (val_ok (length ex_store) (VRef 3) = true) as H3 by reflexivity.
  assert (mergeable 2 [] ex_store (VRef 1) (VRef 3) = true) as H4 by reflexivity.
  assert (2 ≤ 5) as H5 by lia.
  split; [by split_and!|]. split.
  - exact (proj1 (merge_a_into_b_returns 2 ex_store _ _ H1 H2 H3) H4 5 H5).
  - assert (wf_heap ex_store_scalar = true) as G1 by reflexivity.
    assert (val_ok (length ex_store_scalar) (VRef 1) = true) as G2 by reflexivity.
    assert (val_ok (length ex_store_scalar) (VRef 2) = true) as G3 by reflexivity.
    destruct (proj2 (merge_a_into_b_returns 2 ex_store_scalar _ _ G1 G2 G3)
                1 2 [("k", VRef 0)] [("k", VInt 1)] "k" (VRef 0) (VInt 1)
                eq_refl eq_refl eq_refl eq_refl eq_refl eq_refl eq_refl eq_refl)
      as [_ Hattr].
    apply (Hattr [] [] eq_refl).
    intros k' v' Hin. by apply elem_of_nil in Hin.
Defined.

(** C6, as stated, fails: merging the overlay [{"k": {}}] into the base
    [{"k": 1}] raises an attribute error. *)
Lemma merge_a_into_b_returns_counterexample :
  merge_deep 3 (TDict [("k", TDict [])]) (TDict [("k", TInt 1)])
  = Raise AttributeError.
Proof. reflexivity. Qed.

(** An earlier descent that raises comes first: merging
    [{"j": {"a": 1}, "k": {}}] into [{"j": ["a"], "k": 1}] raises a type
    error, from the assignment [b["a"] = 1] to the copy of the list. *)
Example merge_raises_type_error :
  merge_deep 3
    (TDict [("j", TDict [("a", TInt 1)]); ("k", TDict [])])
    (TDict [("j", TList [TStr "a"]); ("k", TInt 1)])
  = Raise TypeError.
Proof. reflexivity. Qed.




(** ** Strings *)

Lemma substring_0_length s : String.substring 0 (String.length s) s = s.
Proof. induction s as [|c s IH]; simpl; [done|]. by rewrite IH. Qed.

Lemma rfind_split c s i :
  rfind c s = Some i →
  s = str_take i s +:+ String c (str_drop (S i) s) ∧
  rfind c (str_drop (S i) s) = None.
Proof.
  unfold str_take, str_drop. revert i.
  induction s as [|x s IH]; intros i; simpl; [done|].
  destruct (rfind c s) as [j|] eqn:Hj.
  - intros [= <-]. destruct (IH j eq_refl) as [Heq Hnone]. simpl.
    split; [|done]. rewrite Heq at 1. reflexivity.
  - destruct (Ascii.eqb_spec x c) as [->|]; [|done]. intros [= <-].
    simpl. rewrite Nat.sub_0_r.
    destruct s as [|y s]; simpl; [done|].
    rewrite substring_0_length. done.
Qed.

Lemma substring_of_char c s :
  substring_of (String c "") s = true ↔ is_Some (rfind c s).
Proof.
  induction s as [|x s IH]; simpl.
  - split; [done|]. by intros [? ?].
  - destruct (rfind c s) as [j|].
    + split; [by eauto|]. intros _. apply orb_true_iff. right. apply IH. eauto.
    + destruct (Ascii.eqb_spec x c) as [->|Hne].
      * split; [by eauto|]. intros _. destruct (ascii_dec c c); [|done].
        by destruct s.
      * split; [|by intros [? ?]]. intros H. apply orb_true_iff in H as [H|H].
        -- destruct (ascii_dec c x); [congruence|done].
        -- by apply IH in H as [? ?].
Qed.

(** ** The normalizer *)

(** Induction on deep values, with the parts of a container covered. *)
Lemma tree_rect' (P : tree → Prop) :
  P TNone → (∀ b, P (TBool b)) → (∀ z, P (TInt z)) → (∀ f, P (TFloat f)) →
  (∀ s, P (TStr s)) →
  (∀ xs, Forall P xs → P (TList xs)) →
  (∀ xs, Forall P xs → P (TTuple xs)) →
  (∀ kvs, Forall (λ kv, P kv.2) kvs → P (TDict kvs)) →
  ∀ t, P t.
Proof.
  intros HN HB HI HF HS HL HT HD.
  fix IH 1.
  intros [|b|z|f|s|xs|xs|kvs];
    [apply HN|apply HB|apply HI|apply HF|apply HS|..].
  - apply HL. induction xs as [|x xs IHxs]; constructor; [apply IH|exact IHxs].
  - apply HT. induction xs as [|x xs IHxs]; constructor; [apply IH|exact IHxs].
  - apply HD. induction kvs as [|[k v] kvs IHkvs]; constructor; [apply IH|exact IHkvs].
Qed.

(** The split of a string type name: at its last dot, or with an empty
    module path when it has no dot. *)
Lemma split_type_str s :
  ∃ module_path class_name,
    split_type (TStr s) = Ok (TStr module_path, TStr class_name) ∧
    substring_of "." class_name = false ∧
    (if substring_of "." s then s = module_path +:+ "." +:+ class_name
     else module_path = "" ∧ class_name = s).
Proof.
  unfold split_type, dot_in. destruct (substring_of "." s) eqn:Hdot.
  - apply substring_of_char in Hdot as Hidx. destruct Hidx as [idx Hidx].
    rewrite Hidx. destruct (rfind_split _ _ _ Hidx) as [Heq Hnone].
    eexists _, _. split_and!; [done| |done].
    apply not_true_iff_false. intros [? H]%substring_of_char. congruence.
  - eexists _, _. by split_and!.
Qed.

Lemma fold_dict_set_fresh {A} (l acc : list (string * A)) :
  NoDup (keys (acc ++ l)) →
  fold_left (λ r kv, dict_set kv.1 kv.2 r) l acc = acc ++ l.
Proof.
  revert acc. induction l as [|[k v] l IH]; intros acc Hnd; simpl.
  - by rewrite app_nil_r.
  - assert (dict_set k v acc = acc ++ [(k, v)]) as ->.
    { unfold keys in Hnd. rewrite fmap_app, fmap_cons in Hnd.
      apply NoDup_app in Hnd as (_ & Hdisj & _).
      assert (k ∉ keys acc) as Hk.
      { intros Hin. apply (Hdisj k Hin). left. }
      clear -Hk. induction acc as [|[k' v'] acc IH]; simpl; [done|].
      destruct (String.eqb_spec k k') as [->|Hne].
      - exfalso. apply Hk. left.
      - f_equal. apply IH. intros Hin. apply Hk. by right. }
    rewrite IH; [by rewrite <-app_assoc|]. by rewrite <-app_assoc.
Qed.

(** The loop that builds [kwargs]: the outcome is the dictionary made of
    the converted items, those with the key ["type"] left out when
    [skip_type]. *)
Lemma convert_items_spec skip kvs acc kw :
  convert_items convert_instance_config skip kvs acc = Ok kw ↔
  ∃ kvs',
    Forall2 converts
      (filter (λ kv, ¬ (skip = true ∧ kv.1 = "type")) kvs) kvs' ∧
    kw = fold_left (λ r kv, dict_set kv.1 kv.2 r) kvs' acc.
Proof.
  revert acc. induction kvs as [|[k v] kvs IH]; intros acc; simpl.
  - split.
    + intros [= <-]. exists []. split; [constructor|done].
    + intros (kvs' & H & ->). by inversion H.
  - destruct (skip && String.eqb k "type") eqn:Hskip.
    + apply andb_true_iff in Hskip as [-> ->%String.eqb_eq].
      rewrite filter_cons_False by (simpl; tauto). apply IH.
    + rewrite filter_cons_True; cycle 1.
      { simpl. intros [-> ->]. by rewrite String.eqb_refl in Hskip. }
      destruct (convert_instance_config v) as [v'|e] eqn:Hv; simpl.
      * rewrite IH. split.
        -- intros (kvs' & H & ->). exists ((k, v') :: kvs').
           split; [|done]. by constructor.
        -- intros (kvs' & H & ->). inversion H as [|? [k' v''] ? ? [Hk Hv'] H']; subst.
           simpl in *. subst k'. rewrite Hv in Hv'. inversion Hv'; subst v''.
           eauto.
      * split; [done|]. intros (kvs' & H & _).
        inversion H as [|? ? ? ? [_ Hv'] _]; subst. simpl in Hv'. congruence.
Qed.

Lemma Forall2_converts_keys kvs kvs' :
  Forall2 converts kvs kvs' → keys kvs' = keys kvs.
Proof.
  induction 1 as [|[k v] [k' v'] ? ? [Hk _] _ IH]; [done|].
  unfold keys in *. csimpl. simpl in Hk. by rewrite Hk, IH.
Qed.

Lemma convert_items_NoDup skip kvs kw :
  NoDup (keys kvs) →
  convert_items convert_instance_config skip kvs [] = Ok kw ↔
  Forall2 converts (filter (λ kv, ¬ (skip = true ∧ kv.1 = "type")) kvs) kw.
Proof.
  intros Hnd. rewrite convert_items_spec.
  assert (∀ kvs', Forall2 converts
            (filter (λ kv, ¬ (skip = true ∧ kv.1 = "type")) kvs) kvs' →
          fold_left (λ r kv, dict_set kv.1 kv.2 r) kvs' [] = kvs') as Hfold.
  { intros kvs' H. rewrite fold_dict_set_fresh; [done|]. simpl.
    rewrite (Forall2_converts_keys _ _ H). unfold keys.
    eapply sublist_NoDup; [exact Hnd|]. apply fmap_sublist, sublist_filter. }
  split.
  - intros (kvs' & H & ->). by rewrite Hfold.
  - intros H. exists kw. by rewrite Hfold.
Qed.

Lemma convert_elems_spec xs ys :
  convert_elems convert_instance_config xs = Ok ys ↔
  Forall2 (λ x y, convert_instance_config x = Ok y) xs ys.
Proof.
  revert ys. induction xs as [|x xs IH]; intros ys; simpl.
  - split; [intros [= <-]; constructor|]. by inversion 1.
  - destruct (convert_instance_config x) as [y|e] eqn:Hx; simpl.
    + destruct (convert_elems convert_instance_config xs) as [ys'|e] eqn:Hxs; simpl.
      * split.
        -- intros [= <-]. constructor; [done|]. by apply IH.
        -- inversion 1 as [|? y' ? ys'' Hy Hys]; subst.
           apply IH in Hys. congruence.
      * split; [done|]. inversion 1 as [|? y' ? ys'' Hy Hys]; subst.
        apply IH in Hys. congruence.
    + split; [done|]. inversion 1; subst. congruence.
Qed.

Lemma filter_not_type (kvs : list (string * tree)) :
  filter (λ kv, ¬ (true = true ∧ kv.1 = "type")) kvs
  = filter (λ kv, kv.1 ≠ "type") kvs.
Proof. apply list_filter_iff. intros kv. tauto. Qed.

Lemma filter_all (kvs : list (string * tree)) :
  filter (λ kv, ¬ (false = true ∧ kv.1 = "type")) kvs = kvs.
Proof.
  induction kvs as [|kv kvs IH]; [done|].
  rewrite filter_cons_True by (intros [? _]; done). by rewrite IH.
Qed.

(** C4.  A mapping with a string under ["type"] becomes the descriptor
    [{class, module_path, kwargs}]: the string is split at its last dot
    (empty module path when there is none) and [kwargs] holds every other
    item, in order, with its value normalized.  A mapping without ["type"]
    keeps its keys, every value normalized.  Lists and tuples are rebuilt
    element by element, in order, a tuple staying a tuple.  Every other
    value is returned as it is. *)
Theorem convert_instance_config_cases :
  (∀ kvs s, NoDup (keys kvs) → dict_get "type" kvs = Some (TStr s) →
     ∃ module_path class_name,
       substring_of "." class_name = false ∧
       (if substring_of "." s then s = module_path +:+ "." +:+ class_name
        else module_path = "" ∧ class_name = s) ∧
       ∀ y, convert_instance_config (TDict kvs) = Ok y ↔
            ∃ kwargs,
              Forall2 converts (filter (λ kv, kv.1 ≠ "type") kvs) kwargs ∧
              y = TDict [("class", TStr class_name);
                         ("module_path", TStr module_path);
                         ("kwargs", TDict kwargs)]) ∧
  (∀ kvs, NoDup (keys kvs) → dict_get "type" kvs = None →
     ∀ y, convert_instance_config (TDict kvs) = Ok y ↔
          ∃ kvs', Forall2 converts kvs kvs' ∧ y = TDict kvs') ∧
  (∀ xs y, convert_instance_config (TList xs) = Ok y ↔
           ∃ xs', Forall2 (λ x x', convert_instance_config x = Ok x') xs xs' ∧
                  y = TList xs') ∧
  (∀ xs y, convert_instance_config (TTuple xs) = Ok y ↔
           ∃ xs', Forall2 (λ x x', convert_instance_config x = Ok x') xs xs' ∧
                  y = TTuple xs') ∧
  (∀ t, is_scalar t = true → convert_instance_config t = Ok t).
Proof.
  split_and!.
  - intros kvs s Hnd Htype.
    destruct (split_type_str s) as (mp & cls & Hsplit & Hcls & Hs).
    exists mp, cls. split_and!; [done..|]. intros y. simpl.
    rewrite Htype, Hsplit. simpl.
    destruct (convert_items convert_instance_config true kvs []) as [kw|e] eqn:Hkw;
      simpl.
    + apply convert_items_NoDup in Hkw; [|done]. rewrite filter_not_type in Hkw.
      split.
      * intros [= <-]. eauto.
      * intros (kw' & Hkw' & ->). do 4 f_equal.
        rewrite <-filter_not_type in Hkw, Hkw'.
        apply (convert_items_NoDup true) in Hkw, Hkw'; try done. congruence.
    + split; [done|]. intros (kw' & Hkw' & _). rewrite <-filter_not_type in Hkw'.
      apply (convert_items_NoDup true) in Hkw'; [|done]. congruence.
  - intros kvs Hnd Htype y. simpl. rewrite Htype.
    destruct (convert_items convert_instance_config false kvs []) as [kw|e] eqn:Hkw;
      simpl.
    + apply convert_items_NoDup in Hkw; [|done]. rewrite filter_all in Hkw.
      split.
      * intros [= <-]. eauto.
      * intros (kw' & Hkw' & ->). f_equal.
        rewrite <-(filter_all kvs) in Hkw, Hkw'.
        apply (convert_items_NoDup false) in Hkw, Hkw'; try done. congruence.
    + split; [done|]. intros (kw' & Hkw' & _). rewrite <-(filter_all kvs) in Hkw'.
      apply (convert_items_NoDup false) in Hkw'; [|done]. congruence.
  - intros xs y. simpl.
    destruct (convert_elems convert_instance_config xs) as [ys|e] eqn:Hys; simpl.
    + apply convert_elems_spec in Hys. split.
      * intros [= <-]. eauto.
      * intros (ys' & Hys' & ->). f_equal.
        apply convert_elems_spec in Hys, Hys'. congruence.
    + split; [done|]. intros (ys' & Hys' & _).
      apply convert_elems_spec in Hys'. congruence.
  - intros xs y. simpl.
    destruct (convert_elems convert_instance_config xs) as [ys|e] eqn:Hys; simpl.
    + apply convert_elems_spec in Hys. split.
      * intros [= <-]. eauto.
      * intros (ys' & Hys' & ->). f_equal.
        apply convert_elems_spec in Hys, Hys'. congruence.
    + split; [done|]. intros (ys' & Hys' & _).
      apply convert_elems_spec in Hys'. congruence.
  - by intros [].
Qed.

Lemma convert_instance_config_cases_witness :
  (NoDup (keys [("type", TStr "pkg.mod.ClassName"); ("a", TInt 1)]) ∧
   dict_get "type" [("type", TStr "pkg.mod.ClassName"); ("a", TInt 1)]
   = Some (TStr "pkg.mod.ClassName")) ∧
  ∃ module_path class_name,
    substring_of "." class_name = false ∧
    "pkg.mod.ClassName" = module_path +:+ "." +:+ class_name.
Proof.
  assert (NoDup (keys [("type", TStr "pkg.mod.ClassName"); ("a", TInt 1)])) as H1
    by (apply distinct_NoDup; reflexivity).
  split; [split; [exact H1|reflexivity]|].
  destruct (proj1 convert_instance_config_cases _ "pkg.mod.ClassName" H1 eq_refl)
    as (mp & cls & Hcls & Hs & _).
  exists mp, cls. split; [exact Hcls|exact Hs].
Defined.

Lemma str_typed_dict kvs :
  str_typed (TDict kvs) = true ↔
  Forall (λ kv, (kv.1 = "type" → ∃ s, kv.2 = TStr s) ∧ str_typed kv.2 = true) kvs.
Proof.
  simpl. induction kvs as [|[k v] kvs IH].
  - split; [constructor|done].
  - rewrite Forall_cons, <-IH, !andb_true_iff. simpl.
    destruct (String.eqb_spec k "type") as [->|Hne].
    + destruct v; split; try (by intros [[[=] _] _]); try (by intros [[[? [=]] _] _]);
        try (intros [[_ ?] ?]; split; [split|]; by eauto);
        try (intros [[H _] _]; by destruct (H eq_refl)).
    + split; [intros [[_ ?] ?]; split; [split|]; done|].
      intros [[_ ?] ?]. done.
Qed.

Lemma type_free_dict kvs :
  type_free (TDict kvs) = true ↔
  NoDup (keys kvs) ∧ Forall (λ kv, kv.1 ≠ "type" ∧ type_free kv.2 = true) kvs.
Proof.
  simpl. rewrite andb_true_iff, distinct_NoDup. apply and_iff_compat_l.
  induction kvs as [|[k v] kvs IH].
  - split; [constructor|done].
  - rewrite Forall_cons, <-IH, !andb_true_iff, negb_true_iff. simpl.
    destruct (String.eqb_spec k "type") as [->|Hne]; split.
    + by intros [[[=] _] _].
    + by intros [[[] _] _].
    + intros [[_ ?] ?]. done.
    + intros [[_ ?] ?]. done.
Qed.

Lemma forallb_Forall {A} (f : A → bool) xs :
  forallb f xs = true ↔ Forall (λ x, f x = true) xs.
Proof.
  rewrite forallb_forall, Forall_forall. split; intros H x Hx; apply H.
  - by apply list_elem_of_In.
  - by apply list_elem_of_In.
Qed.

Lemma elem_of_fold_dict_set {A} (l acc : list (string * A)) x :
  x ∈ fold_left (λ r kv, dict_set kv.1 kv.2 r) l acc → x ∈ acc ∨ x ∈ l.
Proof.
  revert acc. induction l as [|[k v] l IH]; intros acc; simpl; [by auto|].
  intros [[->|?]%elem_of_dict_set|?]%IH; [right; left|by auto|right; by right].
Qed.

Lemma NoDup_fold_dict_set {A} (l acc : list (string * A)) :
  NoDup (keys acc) → NoDup (keys (fold_left (λ r kv, dict_set kv.1 kv.2 r) l acc)).
Proof.
  revert acc. induction l as [|[k v] l IH]; intros acc Hnd; simpl; [done|].
  by apply IH, NoDup_keys_set.
Qed.

(** A value without ["type"] keys is a fixed point of the normalizer. *)
Lemma convert_type_free y :
  type_free y = true → convert_instance_config y = Ok y.
Proof.
  induction y as [| | | | |xs IH|xs IH|kvs IH] using tree_rect'; try done.
  - simpl. intros Hxs%forallb_Forall.
    assert (convert_elems convert_instance_config xs = Ok xs) as ->; [|done].
    apply convert_elems_spec. induction xs as [|x xs IHxs]; [constructor|].
    apply Forall_cons in IH as [? ?]. apply Forall_cons in Hxs as [? ?].
    constructor; auto.
  - simpl. intros Hxs%forallb_Forall.
    assert (convert_elems convert_instance_config xs = Ok xs) as ->; [|done].
    apply convert_elems_spec. induction xs as [|x xs IHxs]; [constructor|].
    apply Forall_cons in IH as [? ?]. apply Forall_cons in Hxs as [? ?].
    constructor; auto.
  - intros [Hnd Hkvs]%type_free_dict. simpl.
    assert (dict_get "type" kvs = None) as ->.
    { apply dict_get_None_keys. intros ([k v] & Hk & Hin)%list_elem_of_fmap.
      rewrite Forall_forall in Hkvs. destruct (Hkvs _ Hin) as [Hne _].
      simpl in *. congruence. }
    assert (convert_items convert_instance_config false kvs [] = Ok kvs) as ->;
      [|done].
    apply convert_items_NoDup; [done|]. rewrite filter_all.
    clear Hnd. induction kvs as [|[k v] kvs IHkvs]; [constructor|].
    apply Forall_cons in IH as [? ?]. apply Forall_cons in Hkvs as [[_ ?] ?].
    constructor; [split; simpl; auto|auto].
Qed.

Lemma converts_exists kvs :
  Forall (λ kv, str_typed kv.2 = true →
                ∃ y, convert_instance_config kv.2 = Ok y ∧ type_free y = true) kvs →
  Forall (λ kv, str_typed kv.2 = true) kvs →
  ∃ kvs', Forall2 converts kvs kvs' ∧
          Forall (λ kv, type_free kv.2 = true) kvs'.
Proof.
  induction kvs as [|[k v] kvs IH]; intros HIH Hst.
  - exists []. split; constructor.
  - apply Forall_cons in HIH as [Hv HIH]. apply Forall_cons in Hst as [Hsv Hst].
    destruct (Hv Hsv) as (y & Hy & Hfree).
    destruct (IH HIH Hst) as (kvs' & H2 & Hfree').
    exists ((k, y) :: kvs'). split; constructor; try done.
Qed.

(** The normalizer returns on every value whose ["type"] keys hold
    strings, and what it returns has no ["type"] key. *)
Lemma convert_str_typed x :
  str_typed x = true →
  ∃ y, convert_instance_config x = Ok y ∧ type_free y = true.
Proof.
  induction x as [| | | | |xs IH|xs IH|kvs IH] using tree_rect';
    try (by intros _; eexists).
  - simpl. intros Hxs%forallb_Forall.
    assert (∃ ys, convert_elems convert_instance_config xs = Ok ys ∧
                  forallb type_free ys = true) as (ys & -> & Hys);
      [|by eexists].
    induction xs as [|x xs IHxs]; [by exists []|].
    apply Forall_cons in IH as [Hx IH]. apply Forall_cons in Hxs as [Hsx Hxs].
    destruct (Hx Hsx) as (y & Hy & Hfree).
    destruct (IHxs IH Hxs) as (ys & Hys & Hfree').
    exists (y :: ys). simpl. rewrite Hy, Hys. simpl. by rewrite Hfree, Hfree'.
  - simpl. intros Hxs%forallb_Forall.
    assert (∃ ys, convert_elems convert_instance_config xs = Ok ys ∧
                  forallb type_free ys = true) as (ys & -> & Hys);
      [|by eexists].
    induction xs as [|x xs IHxs]; [by exists []|].
    apply Forall_cons in IH as [Hx IH]. apply Forall_cons in Hxs as [Hsx Hxs].
    destruct (Hx Hsx) as (y & Hy & Hfree).
    destruct (IHxs IH Hxs) as (ys & Hys & Hfree').
    exists (y :: ys). simpl. rewrite Hy, Hys. simpl. by rewrite Hfree, Hfree'.
  - intros Hst%str_typed_dict.
    assert (∀ skip, (skip = false → dict_get "type" kvs = None) →
      ∃ kw, convert_items convert_instance_config skip kvs [] = Ok kw ∧
            type_free (TDict kw) = true) as Hitems.
    { intros skip Hskip.
      destruct (converts_exists
                  (filter (λ kv, ¬ (skip = true ∧ kv.1 = "type")) kvs))
        as (kvs' & H2 & Hfree).
      { apply Forall_forall. intros kv [_ Hin]%list_elem_of_filter.
        rewrite Forall_forall in IH. by apply IH. }
      { apply Forall_forall. intros kv [_ Hin]%list_elem_of_filter.
        rewrite Forall_forall in Hst. by apply Hst. }
      exists (fold_left (λ r kv, dict_set kv.1 kv.2 r) kvs' []). split.
      { apply convert_items_spec. eauto. }
      apply type_free_dict. split; [apply NoDup_fold_dict_set; constructor|].
      apply Forall_forall. intros [k v] [Hin|Hin]%elem_of_fold_dict_set;
        [by apply elem_of_nil in Hin|].
      rewrite Forall_forall in Hfree. split; [|by apply (Hfree _ Hin)].
      simpl. intros ->.
      assert ("type" ∈ keys kvs') as Hk
        by (apply list_elem_of_fmap; by exists ("type", v)).
      rewrite (Forall2_converts_keys _ _ H2) in Hk.
      apply list_elem_of_fmap in Hk as ([k' v'] & Hk' & [Hkeep Hin']%list_elem_of_filter).
      simpl in *. subst k'. destruct skip.
      - by apply Hkeep.
      - specialize (Hskip eq_refl). apply dict_get_None_keys in Hskip.
        apply Hskip. apply list_elem_of_fmap. by exists ("type", v'). }
    simpl. destruct (dict_get "type" kvs) as [tn|] eqn:Htype.
    + assert (∃ s, tn = TStr s) as [s ->].
      { rewrite Forall_forall in Hst.
        destruct (Hst _ (dict_get_elem _ _ _ Htype)) as [Hs _]. by apply Hs. }
      destruct (split_type_str s) as (mp & cls & -> & _). simpl.
      destruct (Hitems true) as (kw & -> & Hkw); [done|]. simpl.
      eexists. split; [done|]. apply type_free_dict. split.
      * apply distinct_NoDup. reflexivity.
      * by repeat constructor.
    + destruct (Hitems false) as (kw & -> & Hkw); [done|]. simpl. eauto.
Qed.

(** C10 (amended).  On every value in which each ["type"] key holds a
    string, the normalizer returns a value in which no mapping has the key
    ["type"], and applying it to that value returns the same value. *)
Theorem convert_instance_config_idempotent x :
  str_typed x = true →
  ∃ y, convert_instance_config x = Ok y ∧ type_free y = true ∧
       convert_instance_config y = Ok y.
Proof.
  intros (y & Hy & Hfree)%convert_str_typed. exists y.
  split_and!; [done..|]. by apply convert_type_free.
Qed.

Lemma convert_instance_config_idempotent_witness :
  str_typed (TDict [("type", TStr "pkg.mod.ClassName"); ("a", TInt 1);
                    ("b", TDict [("type", TStr "X"); ("c", TInt 2)])]) = true ∧
  ∃ y, convert_instance_config
         (TDict [("type", TStr "pkg.mod.ClassName"); ("a", TInt 1);
                 ("b", TDict [("type", TStr "X"); ("c", TInt 2)])]) = Ok y ∧
       type_free y = true ∧ convert_instance_config y = Ok y.
Proof.
  split; [reflexivity|].
  apply (convert_instance_config_idempotent
           (TDict [("type", TStr "pkg.mod.ClassName"); ("a", TInt 1);
                   ("b", TDict [("type", TStr "X"); ("c", TInt 2)])])).
  reflexivity.
Defined.

(** C10, as stated, fails: for [{"type": {"type": "X"}}] the output holds
    the inner mapping, with its ["type"] key, under ["class"], and a
    second application turns that mapping into a descriptor. *)
Lemma convert_instance_config_idempotent_counterexample :
  convert_instance_config (TDict [("type", TDict [("type", TStr "X")])])
  = Ok (TDict [("class", TDict [("type", TStr "X")]);
               ("module_path", TStr ""); ("kwargs", TDict [])])
  ∧ type_free (TDict [("class", TDict [("type", TStr "X")]);
                      ("module_path", TStr ""); ("kwargs", TDict [])]) = false
  ∧ convert_instance_config
      (TDict [("class", TDict [("type", TStr "X")]);
              ("module_path", TStr ""); ("kwargs", TDict [])])
    ≠ Ok (TDict [("class", TDict [("type", TStr "X")]);
                 ("module_path", TStr ""); ("kwargs", TDict [])]).
Proof. split_and!; [reflexivity..|]. vm_compute. discriminate. Qed.


(** ** The merge keeps away from the objects below a mark *)

Lemma above_alloc n0 h o :
  above n0 h → (∀ v, v ∈ refs o → vabove n0 v) → above n0 (h ++ [o]).
Proof.
  intros Hab Ho l o' v Hl Hle Hv.
  apply lookup_app_Some in Hl as [Hl|[_ Hl]]; [by eapply Hab|].
  apply list_lookup_singleton_Some in Hl as [_ <-]. by apply Ho.
Qed.

Lemma above_insert n0 (h : list obj) l o :
  above n0 h → (n0 ≤ l → ∀ v, v ∈ refs o → vabove n0 v) → above n0 (<[l:=o]> h).
Proof.
  intros Hab Ho l' o' v Hl Hle Hv. destruct (decide (l = l')) as [->|Hne].
  - destruct (decide (l' < length h)).
    + rewrite list_lookup_insert_eq in Hl by done. simplify_eq. by apply Ho.
    + rewrite list_insert_ge in Hl by lia. by eapply Hab.
  - rewrite list_lookup_insert_ne in Hl by done. by eapply Hab.
Qed.

Lemma above_lookup n0 h l o v :
  above n0 h → vabove n0 (VRef l) → h !! l = Some o → v ∈ refs o → vabove n0 v.
Proof. intros Hab Hl Ho Hv. by eapply Hab. Qed.

Lemma refs_dict_set k v d x :
  x ∈ refs (ODict (dict_set k v d)) → x = v ∨ x ∈ refs (ODict d).
Proof.
  simpl. intros ([k' x'] & -> & Hin)%list_elem_of_fmap.
  apply elem_of_dict_set in Hin as [[= -> ->]|Hin]; [by left|].
  right. apply list_elem_of_fmap. by exists (k', x').
Qed.

Lemma refs_dict_del k d x :
  x ∈ refs (ODict (dict_del k d)) → x ∈ refs (ODict d).
Proof.
  simpl. intros ([k' x'] & -> & Hin)%list_elem_of_fmap.
  apply elem_of_dict_del in Hin. apply list_elem_of_fmap. by exists (k', x').
Qed.

Lemma refs_dict_get k d v : dict_get k d = Some v → v ∈ refs (ODict d).
Proof.
  intros Hin%dict_get_elem. simpl. apply list_elem_of_fmap. by exists (k, v).
Qed.

Lemma py_setitem_above n0 b k v h h' r :
  above n0 h → vabove n0 v → py_setitem b k v h = (h', r) →
  above n0 h' ∧ length h' = length h.
Proof.
  intros Hab Hv. unfold py_setitem, bind, deref, store, raise.
  destruct b as [| | | | |l]; try (by intros [= <- _]).
  destruct (h !! l) as [[d|xs|xs]|] eqn:Hl; intros [= <- _]; try done.
  split; [|by rewrite length_insert]. apply above_insert; [done|].
  intros Hle x [->|Hx]%refs_dict_set; [done|]. by eapply Hab.
Qed.

Lemma py_pop_default_above n0 v k h h' r :
  above n0 h → py_pop_default v k h = (h', r) →
  above n0 h' ∧ length h' = length h.
Proof.
  intros Hab. unfold py_pop_default, bind, deref, store, raise.
  destruct v as [| | | | |l]; try (by intros [= <- _]).
  destruct (h !! l) as [[d|xs|xs]|] eqn:Hl; intros [= <- _]; try done.
  split; [|by rewrite length_insert]. apply above_insert; [done|].
  intros Hle x Hx%refs_dict_del. by eapply Hab.
Qed.

Lemma py_getitem_above n0 b k h h' r :
  above n0 h → vabove n0 b → py_getitem b k h = (h', r) →
  h' = h ∧ ∀ v, r = Ok v → vabove n0 v.
Proof.
  intros Hab Hb. unfold py_getitem, bind, deref, ret, raise.
  destruct b as [| | | | |l]; try (by intros [= <- <-]).
  destruct (h !! l) as [[d|xs|xs]|] eqn:Hl; try (by intros [= <- <-]).
  destruct (dict_get k d) as [v|] eqn:Hk; intros [= <- <-]; [|done].
  split; [done|]. intros ? [= <-]. eapply Hab; [done..|].
  by eapply refs_dict_get.
Qed.

Lemma py_contains_heap b k h h' r : py_contains b k h = (h', r) → h' = h.
Proof.
  unfold py_contains, bind, deref, ret, raise.
  destruct b as [| | | | |l]; try (by intros [= <- _]).
  destruct (h !! l) as [[d|xs|xs]|]; by intros [= <- _].
Qed.

Lemma merge_loop_above n0 rec a lr size0 :
  (∀ a b h h' r,
     n0 ≤ length h → above n0 h → vabove n0 a → vabove n0 b →
     rec a b h = (h', r) →
     above n0 h' ∧ length h ≤ length h' ∧ ∀ v, r = Ok v → vabove n0 v) →
  n0 ≤ lr →
  ∀ its h h' r,
    (∀ kv, kv ∈ its → vabove n0 kv.2) →
    n0 ≤ length h → above n0 h →
    merge_loop rec a (VRef lr) size0 its h = (h', r) →
    above n0 h' ∧ length h ≤ length h' ∧ ∀ v, r = Ok v → v = VRef lr.
Proof.
  intros Hrec Hlr. induction its as [|[k v] its IH]; intros h h' r Hits Hlen Hab Hrun.
  - rewrite merge_loop_nil in Hrun.
    apply bind_inv in Hrun as [(e & Hc & ->)|([] & h1 & Hc & Hrun)];
      apply dict_iter_check_heap in Hc as ->; [done|].
    inversion Hrun; subst. split_and!; [done..|]. by intros ? [= <-].
  - rewrite merge_loop_cons in Hrun.
    pose proof (Hits (k, v) (list_elem_of_here _ _)) as Hv. simpl in Hv.
    assert (∀ kv, kv ∈ its → vabove n0 kv.2) as Hits'
      by (intros kv Hkv; apply Hits; by right).
    apply bind_inv in Hrun as [(e & Hc & ->)|([] & h1 & Hc & Hrun)];
      apply dict_iter_check_heap in Hc as ->; [done|].
    unfold bind in Hrun at 1. unfold isinstance_dict in Hrun at 1.
    apply bind_inv in Hrun as [(e & Hc & ->)|(inb & h1 & Hc & Hrun)].
    { destruct (is_dict h v); [|done]. by apply py_contains_heap in Hc as ->. }
    assert (h1 = h) as ->.
    { destruct (is_dict h v); [by apply py_contains_heap in Hc|].
      by inversion Hc. }
    clear Hc.
    apply bind_inv in Hrun as [(e & Hbody & ->)|([] & h2 & Hbody & Hrun)].
    + (* the body raised *)
      destruct inb.
      * apply bind_inv in Hbody as [(e' & Hpop & _)|([] & h2 & Hpop & Hbody)];
          apply py_pop_default_above with (n0:=n0) in Hpop as [Hab2 Hlen2];
          try done; [split_and!; [done|lia|done]|].
        apply bind_inv in Hbody as [(e' & Hget & _)|(bk & h3 & Hget & Hbody)];
          apply py_getitem_above with (n0:=n0) in Hget as [-> Hbk];
          try done; [split_and!; [done|lia|done]|].
        apply bind_inv in Hbody as [(e' & Hr & _)|(rk & h4 & Hr & Hbody)];
          apply Hrec in Hr as (Hab4 & Hlen4 & Hrk); try done; try lia;
          try (by apply Hbk); [split_and!; [done|lia|done]|].
        apply py_setitem_above with (n0:=n0) in Hbody as [Hab5 Hlen5];
          [|done|by apply Hrk].
        split_and!; [done|lia|done].
      * apply py_setitem_above with (n0:=n0) in Hbody as [Hab5 Hlen5]; [|done..].
        split_and!; [done|lia|done].
    + (* the body returned *)
      assert (above n0 h2 ∧ length h ≤ length h2) as [Hab2 Hlen2].
      { destruct inb.
        - apply bind_inv in Hbody as [(e' & Hpop & [=])|([] & h3 & Hpop & Hbody)].
          apply py_pop_default_above with (n0:=n0) in Hpop as [Hab3 Hlen3]; [|done].
          apply bind_inv in Hbody as [(e' & Hget & [=])|(bk & h4 & Hget & Hbody)].
          apply py_getitem_above with (n0:=n0) in Hget as [-> Hbk]; [|done..].
          apply bind_inv in Hbody as [(e' & Hr & [=])|(rk & h5 & Hr & Hbody)].
          apply Hrec in Hr as (Hab5 & Hlen5 & Hrk); [|lia|done..|by apply Hbk].
          apply py_setitem_above with (n0:=n0) in Hbody as [Hab6 Hlen6];
            [|done|by apply Hrk].
          split; [done|lia].
        - apply py_setitem_above with (n0:=n0) in Hbody as [Hab5 Hlen5]; [|done..].
          split; [done|lia]. }
      destruct (IH h2 h' r Hits') as (? & ? & ?); [lia|done..|].
      split_and!; [done|lia|done].
Qed.

Lemma merge_above n0 n a b h h' r :
  n0 ≤ length h → above n0 h → vabove n0 a → vabove n0 b →
  merge_a_into_b n a b h = (h', r) →
  above n0 h' ∧ length h ≤ length h' ∧ ∀ v, r = Ok v → vabove n0 v.
Proof.
  revert a b h h' r. induction n as [|n IH]; intros a b h h' r Hlen Hab Ha Hb Hrun.
  - inversion Hrun; subst. by split_and!.
  - simpl in Hrun. unfold merge_body in Hrun.
    apply bind_inv in Hrun as [(e & Hcopy & ->)|(b' & h1 & Hcopy & Hrun)].
    { apply py_copy_inv in Hcopy
        as [(-> & _)|(lb & ob & -> & Hlb & _ & -> & Hb')]; [|done].
      by split_and!. }
    apply py_copy_inv in Hcopy
      as [(_ & e & He & _)|(lb & ob & -> & Hlb & _ & -> & Hb')]; [done|].
    inversion Hb'; subst b'. clear Hb'.
    assert (above n0 (h ++ [ob])) as Hab1.
    { apply above_alloc; [done|]. intros v Hv. by eapply Hab. }
    assert (length h ≤ length (h ++ [ob])) as Hlen1
      by (rewrite length_app; lia).
    apply bind_inv in Hrun as [(e & Hits & ->)|(A & h1 & Hits & Hrun)];
      apply py_items_inv in Hits as [-> HA]; [by split_and!|].
    destruct (HA A eq_refl) as (la & -> & Hla).
    destruct (merge_loop_above n0 (merge_a_into_b n) (VRef la) (length h)
                (length A) IH Hlen A (h ++ [ob]) h' r) as (? & ? & Hres);
      [|lia|done..|].
    { intros [k v] Hin. simpl. eapply Hab1; [done..|].
      simpl. apply list_elem_of_fmap. by exists (k, v). }
    split_and!; [done|lia|]. intros v Hv. by rewrite (Hres v Hv).
Qed.

Lemma shared_above n0 h a b l :
  above n0 h → vabove n0 a → shared h a b l → n0 ≤ l.
Proof.
  intros Hab Ha Hsh.
  induction Hsh as [la d k lv b Hla Hin Hd Hc|la d k lv lb d' bk l Hla Hin Hd Hlb Hbk Hsh IH].
  - eapply (Hab la _ (VRef lv)); [done..|].
    simpl. apply list_elem_of_fmap. by exists (k, VRef lv).
  - apply IH. eapply (Hab la _ (VRef lv)); [done..|].
    simpl. apply list_elem_of_fmap. by exists (k, VRef lv).
Qed.

(** A merge of two values above the mark keeps the invariant of the
    loader and leaves the objects below the mark alone. *)
Lemma merge_inv n0 n a b h h' r :
  inv n0 h → val_ok (length h) a = true → val_ok (length h) b = true →
  vabove n0 a → vabove n0 b →
  merge_a_into_b n a b h = (h', r) →
  inv n0 h' ∧ frame n0 h h' ∧
  ∀ v, r = Ok v → val_ok (length h') v = true ∧ vabove n0 v.
Proof.
  intros (Hlen & Hwf & Hab) Ha Hb Hva Hvb Hrun.
  destruct (merge_sound_fuel n a b h h' r Hwf Ha Hb Hrun) as (Hwf' & [Hlen' Hupd] & Hres).
  destruct (merge_above n0 n a b h h' r Hlen Hab Hva Hvb Hrun) as (Hab' & _ & Hres').
  split_and!.
  - split_and!; [lia|done..].
  - split; [done|]. intros l Hl.
    destruct (h !! l) as [o|] eqn:Ho.
    + destruct (Hupd l o Ho) as [?|[[Hsh _]|[]]]; [done|].
      apply (shared_above n0) in Hsh; [lia|done..].
    + exfalso. apply lookup_ge_None in Ho. lia.
  - intros v Hv. destruct (Hres v Hv) as [-> Hlt]. split; [|by apply Hres'].
    by apply val_ok_ref.
Qed.

(** ** Evaluating literals *)

Lemma extends_inv h h' :
  extends h h' ↔ inv (length h) h' ∧ frame (length h) h h'.
Proof.
  split.
  - intros (Hwf & [new ->] & Hab). unfold inv, frame. rewrite length_app.
    split_and!; [lia|done..|lia|].
    intros l Hl. by rewrite lookup_app_l.
  - intros [(Hlen & Hwf & Hab) [_ Hfr]]. split_and!; [done| |done].
    exists (drop (length h) h'). rewrite <-(take_drop (length h) h') at 1.
    f_equal. apply list_eq. intros i.
    destruct (decide (i < length h)) as [Hi|Hi].
    + rewrite lookup_take_lt by done. by apply Hfr.
    + rewrite lookup_take_ge by lia. symmetry. apply lookup_ge_None. lia.
Qed.

Lemma inv_refl h : wf_heap h = true → inv (length h) h.
Proof.
  intros Hwf. split_and!; [done..|]. intros l o v Hl Hle.
  apply lookup_lt_Some in Hl. lia.
Qed.

Lemma frame_refl n0 h : frame n0 h h.
Proof. by split. Qed.

Lemma frame_trans n0 h1 h2 h3 : frame n0 h1 h2 → frame n0 h2 h3 → frame n0 h1 h3.
Proof.
  intros [? H1] [? H2]. split; [lia|]. intros l Hl.
  by rewrite H2, H1.
Qed.

Lemma extends_refl h : wf_heap h = true → extends h h.
Proof. intros Hwf. apply extends_inv. split; [by apply inv_refl|apply frame_refl]. Qed.

Lemma vabove_mono n0 n1 v : n0 ≤ n1 → vabove n1 v → vabove n0 v.
Proof. destruct v; simpl; try done. lia. Qed.

(** The invariant of an outer computation survives an inner one that
    started later. *)
Lemma inv_extends n0 h h' : inv n0 h → extends h h' → inv n0 h' ∧ frame n0 h h'.
Proof.
  intros (Hlen & Hwf & Hab) (Hwf' & [new ->] & Hab').
  unfold inv, frame. rewrite length_app. split_and!; [lia|done| |lia|].
  - intros l o v Hl Hle Hv. destruct (decide (l < length h)) as [Hlt|Hge].
    + rewrite lookup_app_l in Hl by done. by eapply Hab.
    + eapply vabove_mono; [exact Hlen|]. eapply Hab'; [done|lia|done].
  - intros l Hl. rewrite lookup_app_l; [done|lia].
Qed.

Lemma extends_trans h1 h2 h3 : extends h1 h2 → extends h2 h3 → extends h1 h3.
Proof.
  intros [Hi1 Hf1]%extends_inv H23. apply extends_inv.
  destruct (inv_extends _ _ _ Hi1 H23) as [Hi3 Hf3].
  split; [done|by eapply frame_trans].
Qed.

Lemma extends_length h h' : extends h h' → length h ≤ length h'.
Proof. intros (_ & [new ->] & _). rewrite length_app. lia. Qed.

Lemma extends_wf h h' : extends h h' → wf_heap h' = true.
Proof. by intros (? & _). Qed.

Lemma inv_alloc n0 h o :
  inv n0 h → obj_ok (S (length h)) o = true → (∀ v, v ∈ refs o → vabove n0 v) →
  inv n0 (h ++ [o]) ∧ frame n0 h (h ++ [o]).
Proof.
  intros (Hlen & Hwf & Hab) Hok Ho. unfold inv, frame. rewrite length_app.
  split_and!; [lia|by apply wf_heap_alloc|by apply above_alloc|lia|].
  intros l Hl. rewrite lookup_app_l; [done|lia].
Qed.

Lemma inv_insert n0 h l o :
  inv n0 h → n0 ≤ l → obj_ok (length h) o = true →
  (∀ v, v ∈ refs o → vabove n0 v) →
  inv n0 (<[l:=o]> h) ∧ frame n0 h (<[l:=o]> h).
Proof.
  intros (Hlen & Hwf & Hab) Hl Hok Ho. unfold inv, frame. rewrite length_insert.
  split_and!; [lia|by apply wf_heap_insert|by apply above_insert|lia|].
  intros l' Hl'. rewrite list_lookup_insert_ne; [done|lia].
Qed.

Lemma build_TList xs :
  build (TList xs) = (vs <- build_elems xs ;; alloc (OList vs)).
Proof.
  reflexivity.
Qed.

Lemma build_TTuple xs :
  build (TTuple xs) = (vs <- build_elems xs ;; alloc (OTuple vs)).
Proof.
  reflexivity.
Qed.

Lemma build_TDict kvs :
  build (TDict kvs) = (d <- build_items kvs ;; alloc (ODict (dict_of_items d))).
Proof.
  reflexivity.
Qed.

Lemma new_val_mono n0 n0' n n' v :
  n0' ≤ n0 → n ≤ n' → new_val n0 n v → new_val n0' n' v.
Proof.
  intros ? ? [? ?]. split; [by eapply val_ok_mono|by eapply vabove_mono].
Qed.

Lemma build_elems_spec xs :
  Forall (λ x, builds (build x) new_val) xs →
  builds (build_elems xs) (λ n0 n vs, Forall (new_val n0 n) vs).
Proof.
  induction 1 as [|x xs Hx _ IH]; intros h Hwf.
  - exists h, []. split_and!; [done|by apply extends_refl|constructor].
  - destruct (Hx h Hwf) as (h1 & v & Hv & He1 & Hv1).
    destruct (IH h1 (extends_wf _ _ He1)) as (h2 & vs & Hvs & He2 & Hvs2).
    exists h2, (v :: vs). simpl. erewrite bind_ok by exact Hv.
    erewrite bind_ok by exact Hvs. split_and!; [done|by eapply extends_trans|].
    apply extends_length in He1, He2. constructor.
    + eapply new_val_mono; [| |exact Hv1]; lia.
    + eapply Forall_impl; [exact Hvs2|]. intros v'. apply new_val_mono; lia.
Qed.

Lemma build_items_spec kvs :
  Forall (λ kv, builds (build kv.2) new_val) kvs →
  builds (build_items kvs)
    (λ n0 n d, keys d = keys kvs ∧ Forall (λ kv, new_val n0 n kv.2) d).
Proof.
  induction 1 as [|[k x] kvs Hx _ IH]; intros h Hwf.
  - exists h, []. split_and!; [done|by apply extends_refl|done|constructor].
  - destruct (Hx h Hwf) as (h1 & v & Hv & He1 & Hv1).
    destruct (IH h1 (extends_wf _ _ He1)) as (h2 & d & Hd & He2 & Hk & Hd2).
    exists h2, ((k, v) :: d). simpl. erewrite bind_ok by exact Hv.
    erewrite bind_ok by exact Hd.
    split_and!; [done|by eapply extends_trans|by rewrite <-Hk|].
    apply extends_length in He1, He2. constructor.
    + eapply new_val_mono; [| |exact Hv1]; lia.
    + eapply Forall_impl; [exact Hd2|]. intros v'. apply new_val_mono; lia.
Qed.

Lemma extends_alloc h h' o :
  extends h h' → obj_ok (S (length h')) o = true →
  (∀ v, v ∈ refs o → vabove (length h) v) →
  extends h (h' ++ [o]) ∧ new_val (length h) (length (h' ++ [o])) (VRef (length h')).
Proof.
  intros [Hi Hf]%extends_inv Hok Ho.
  destruct (inv_alloc _ _ _ Hi Hok Ho) as [Hi' Hf']. split.
  - apply extends_inv. split; [done|by eapply frame_trans].
  - split; [apply val_ok_ref; rewrite length_app; simpl; lia|].
    simpl. by destruct Hf.
Qed.

Lemma forallb_val_ok_intro (n0 n : nat) vs :
  Forall (new_val n0 n) vs → forallb (val_ok (S n)) vs = true.
Proof.
  intros H. apply forallb_forall. intros v Hv%list_elem_of_In.
  rewrite Forall_forall in H. destruct (H v Hv) as [? _].
  eapply val_ok_mono; [|done]. lia.
Qed.

Lemma build_spec t : builds (build t) new_val.
Proof.
  induction t as [| | | | |xs IH|xs IH|kvs IH] using tree_rect';
    try (intros h Hwf; eexists h, _; split_and!;
         [done|by apply extends_refl|done]).
  - intros h Hwf. destruct (build_elems_spec xs IH h Hwf) as (h1 & vs & Hvs & He & Hok).
    rewrite build_TList. erewrite bind_ok by exact Hvs.
    destruct (extends_alloc h h1 (OList vs) He) as [He' Hv'].
    { simpl. by eapply forallb_val_ok_intro. }
    { intros v Hv. rewrite Forall_forall in Hok. by apply Hok. }
    by eexists _, _.
  - intros h Hwf. destruct (build_elems_spec xs IH h Hwf) as (h1 & vs & Hvs & He & Hok).
    rewrite build_TTuple. erewrite bind_ok by exact Hvs.
    destruct (extends_alloc h h1 (OTuple vs) He) as [He' Hv'].
    { simpl. by eapply forallb_val_ok_intro. }
    { intros v Hv. rewrite Forall_forall in Hok. by apply Hok. }
    by eexists _, _.
  - intros h Hwf.
    destruct (build_items_spec kvs IH h Hwf) as (h1 & d & Hd & He & _ & Hok).
    rewrite build_TDict. erewrite bind_ok by exact Hd.
    rewrite Forall_forall in Hok.
    destruct (extends_alloc h h1 (ODict (dict_of_items d)) He) as [He' Hv'].
    { apply obj_ok_dict. split; [|apply NoDup_fold_dict_set; constructor].
      intros k v [Hin|Hin]%elem_of_fold_dict_set; [by apply elem_of_nil in Hin|].
      destruct (Hok _ Hin) as [? _]. eapply val_ok_mono; [|done]. lia. }
    { intros v ([k v'] & -> & [Hin|Hin]%elem_of_fold_dict_set)%list_elem_of_fmap;
        [by apply elem_of_nil in Hin|].
      by apply (Hok _ Hin). }
    by eexists _, _.
Qed.

(** ** The loader: errors and the interpreter state *)

Lemma prefix_append p s : String.prefix p (p +:+ s) = true.
Proof.
  induction p as [|c p IH]; simpl; [by destruct s|].
  destruct (ascii_dec c c); [exact IH|done].
Qed.

Lemma substring_of_append_r p a s : substring_of p s = true → substring_of p (a +:+ s) = true.
Proof.
  intros Hs. induction a as [|c a IH]; [done|].
  simpl. rewrite IH. apply orb_true_r.
Qed.

Lemma substring_of_middle p a b : substring_of p (a +:+ p +:+ b) = true.
Proof.
  apply substring_of_append_r. pose proof (prefix_append p b) as Hp.
  destruct (p +:+ b); cbn [substring_of]; by rewrite Hp.
Qed.

Lemma not_found_msg_names filename :
  substring_of filename (not_found_msg filename) = true.
Proof.
  unfold not_found_msg.
  replace ("file " +:+ dquote +:+ filename +:+ dquote +:+ " does not exist")
    with (("file " +:+ dquote) +:+ filename +:+ (dquote +:+ " does not exist"))
    by reflexivity.
  apply substring_of_middle.
Qed.

Lemma parse_backtest_config_S abspath files tmp_dir tmp_module n path :
  parse_backtest_config abspath files tmp_dir tmp_module (S n) path
  = (let abs_path := abspath path in
     check_file_exist files abs_path ;;;
     if negb (existsb (String.eqb (splitext_ext abs_path)) supported_ext) then
       raise (IOError unsupported_msg)
     else
       config <- load_file files tmp_dir tmp_module abs_path ;;
       has_base <- lift (py_contains config "_base_") ;;
       if has_base then
         base_file_name <- lift (py_pop config "_base_") ;;
         isl <- lift (isinstance_list base_file_name) ;;
         bases <- (if isl then lift (py_list_elems base_file_name)
                   else ret [base_file_name]) ;;
         merge_bases (parse_backtest_config abspath files tmp_dir tmp_module n)
           n (dirname abs_path) bases config
       else ret config).
Proof. reflexivity. Qed.

Lemma supported_ext_false ext :
  ext ∉ supported_ext → existsb (String.eqb ext) supported_ext = false.
Proof.
  intros Hext. apply not_true_iff_false.
  intros (x & Hx & Heq%String.eqb_eq)%existsb_exists.
  apply Hext. rewrite Heq. by apply list_elem_of_In.
Qed.

Lemma supported_ext_true ext :
  ext ∈ supported_ext → existsb (String.eqb ext) supported_ext = true.
Proof.
  intros Hext. apply existsb_exists. exists ext.
  split; [by apply list_elem_of_In|apply String.eqb_refl].
Qed.

(** C8 (amended).  Loading a path whose absolute path is not a file raises
    [FileNotFoundError] with a message that contains the absolute path;
    loading an existing file whose extension is none of [.py], [.json],
    [.yaml], [.yml] raises [IOError] with one fixed message.  In both
    cases nothing else has happened. *)
Theorem parse_backtest_config_errors abspath files tmp_dir tmp_module n path w :
  (files (abspath path) = None →
   parse_backtest_config abspath files tmp_dir tmp_module (S n) path w
   = (w, Raise (FileNotFoundError (not_found_msg (abspath path))))
   ∧ substring_of (abspath path) (not_found_msg (abspath path)) = true)
  ∧ (is_Some (files (abspath path)) →
     splitext_ext (abspath path) ∉ supported_ext →
     parse_backtest_config abspath files tmp_dir tmp_module (S n) path w
     = (w, Raise (IOError unsupported_msg))).
Proof.
  split.
  - intros Hf. split; [|apply not_found_msg_names].
    rewrite parse_backtest_config_S. unfold check_file_exist, bind.
    by rewrite Hf.
  - intros [f Hf] Hext. rewrite parse_backtest_config_S.
    unfold check_file_exist, bind. rewrite Hf.
    by rewrite (supported_ext_false _ Hext).
Qed.

Lemma parse_backtest_config_errors_witness :
  (parse_backtest_config ex_abspath ex_files ex_tmp_dir ex_tmp_module 3
     "missing.yaml" ex_world
   = (ex_world, Raise (FileNotFoundError (not_found_msg "/cfg/missing.yaml")))
   ∧ substring_of "/cfg/missing.yaml" (not_found_msg "/cfg/missing.yaml") = true)
  ∧ parse_backtest_config ex_abspath ex_files ex_tmp_dir ex_tmp_module 3
      "n.txt" ex_world
    = (ex_world, Raise (IOError unsupported_msg)).
Proof.
  split.
  - apply (parse_backtest_config_errors ex_abspath ex_files ex_tmp_dir
             ex_tmp_module 2 "missing.yaml" ex_world).
    reflexivity.
  - apply (parse_backtest_config_errors ex_abspath ex_files ex_tmp_dir
             ex_tmp_module 2 "n.txt" ex_world).
    + by exists ex_file_a.
    + vm_compute. intros H. repeat (apply elem_of_cons in H as [H|H]; [discriminate H|]).
      by apply elem_of_nil in H.
Defined.

(** C8, as stated, fails in its second half: the message of the error
    raised for the existing file [/cfg/n.txt] does not contain the
    extension [.txt]. *)
Lemma parse_backtest_config_errors_counterexample :
  splitext_ext (ex_abspath "n.txt") = ".txt"
  ∧ ∃ msg,
      parse_backtest_config ex_abspath ex_files ex_tmp_dir ex_tmp_module 3
        "n.txt" ex_world
      = (ex_world, Raise (IOError msg))
      ∧ substring_of ".txt" msg = false.
Proof. split; [reflexivity|]. by exists unsupported_msg. Qed.

Lemma lift_inv {A} (m : M heap A) w w' r :
  lift m w = (w', r) →
  ∃ h', m (w_heap w) = (h', r)
        ∧ w' = World h' (sys_path w) (sys_modules w) (tmp_seq w).
Proof.
  unfold lift. destruct (m (w_heap w)) as [h' r'] eqn:E.
  intros [= <- <-]. by exists h'.
Qed.

Lemma lift_run {A} (m : M heap A) w h' r :
  m (w_heap w) = (h', r) →
  lift m w = (World h' (sys_path w) (sys_modules w) (tmp_seq w), r).
Proof. unfold lift. by intros ->. Qed.

Lemma filter_fresh_module name (ms : list string) :
  name ∉ ms → filter (λ m, m ≠ name) (name :: ms) = ms.
Proof.
  intros Hn. rewrite filter_cons_False by (intros H; by apply H).
  induction ms as [|m ms IH]; [done|].
  apply not_elem_of_cons in Hn as [Hne Hn].
  rewrite filter_cons_True by done. by rewrite IH.
Qed.

(** C9.  What loading a module does to [sys.path] and [sys.modules].  When
    the import returns (and the module's name is new), both are afterwards
    as they were before.  When the import raises, the exception leaves the
    function at once: [sys.path.pop(0)] is not run, and the temporary
    directory stays the first entry of [sys.path]. *)
Theorem load_file_sys_state files tmp_dir tmp_module abs_path f w :
  endswith abs_path ".py" = true → files abs_path = Some f →
  match as_module f with
  | inl e =>
      load_file files tmp_dir tmp_module abs_path w
      = (World (w_heap w) (tmp_dir (tmp_seq w) :: sys_path w) (sys_modules w)
           (S (tmp_seq w)), Raise e)
  | inr _ =>
      wf_heap (w_heap w) = true → tmp_module (tmp_seq w) ∉ sys_modules w →
      ∃ w' config,
        load_file files tmp_dir tmp_module abs_path w = (w', Ok config)
        ∧ sys_path w' = sys_path w ∧ sys_modules w' = sys_modules w
  end.
Proof.
  intros Hpy Hf. unfold load_file. rewrite Hpy.
  unfold import_module. rewrite Hf. simpl.
  destruct (as_module f) as [e|bindings]; [done|].
  intros Hwf Hnew.
  assert (builds (build_items bindings)
            (λ n0 n d, keys d = keys bindings ∧ Forall (λ kv, new_val n0 n kv.2) d))
    as Hb.
  { apply build_items_spec, Forall_forall. intros kv _. apply build_spec. }
  destruct (Hb (w_heap w) Hwf) as (h1 & d & Hd & _).
  unfold bind, sys_path_insert0, sys_path_pop0, del_sys_module, lift, new_dict,
    alloc, ret. simpl. rewrite Hd. simpl.
  rewrite String.eqb_refl. simpl. eexists _, _. split; [done|]. simpl.
  split; [done|]. by rewrite filter_fresh_module.
Qed.

Lemma load_file_sys_state_witness :
  load_file ex_files ex_tmp_dir ex_tmp_module "/cfg/bad.py" ex_world
  = (World [] ["/tmp/tmp0"; "/usr/lib/python3"] ["sys"; "os"] 1,
     Raise (OtherError "ZeroDivisionError"))
  ∧ sys_path
      (parse_backtest_config ex_abspath ex_files ex_tmp_dir ex_tmp_module 3
         "bad.py" ex_world).1
    = "/tmp/tmp0" :: sys_path ex_world.
Proof.
  split; [|reflexivity].
  apply (load_file_sys_state ex_files ex_tmp_dir ex_tmp_module "/cfg/bad.py"
           ex_file_raising ex_world); reflexivity.
Defined.

(** ** The loader keeps to its own objects *)

Lemma new_val_extends h h' v :
  extends h h' → val_ok (length h) v = true → val_ok (length h') v = true.
Proof. intros He%extends_length. by apply val_ok_mono. Qed.

Lemma inv_wf n0 h : inv n0 h → wf_heap h = true.
Proof. by intros (_ & ? & _). Qed.

Lemma inv_refs n0 h l o v :
  inv n0 h → n0 ≤ l → h !! l = Some o → v ∈ refs o → new_val n0 (length h) v.
Proof.
  intros (_ & Hwf & Hab) Hle Hl Hv. split; [|by eapply Hab].
  pose proof (wf_heap_lookup _ _ _ Hwf Hl) as Hok.
  destruct o as [d|xs|xs]; simpl in *.
  - apply andb_true_iff in Hok as [Hok _]. rewrite forallb_forall in Hok.
    by apply Hok, list_elem_of_In.
  - rewrite forallb_forall in Hok. by apply Hok, list_elem_of_In.
  - rewrite forallb_forall in Hok. by apply Hok, list_elem_of_In.
Qed.

Lemma load_file_sound files tmp_dir tmp_module abs_path w w' r :
  wf_heap (w_heap w) = true →
  load_file files tmp_dir tmp_module abs_path w = (w', r) →
  extends (w_heap w) (w_heap w') ∧
  ∀ v, r = Ok v → new_val (length (w_heap w)) (length (w_heap w')) v.
Proof.
  intros Hwf. unfold load_file.
  destruct (endswith abs_path ".py").
  - unfold import_module. destruct (files abs_path) as [f|]; simpl.
    + destruct (as_module f) as [e|bindings].
      * intros [= <- <-]. simpl. split; [by apply extends_refl|done].
      * assert (builds (build_items bindings)
                  (λ n0 n d, keys d = keys bindings
                             ∧ Forall (λ kv, new_val n0 n kv.2) d)) as Hb.
        { apply build_items_spec, Forall_forall. intros kv _. apply build_spec. }
        destruct (Hb (w_heap w) Hwf) as (h1 & d & Hd & He & _ & Hok).
        unfold bind, sys_path_insert0, sys_path_pop0, del_sys_module, lift,
          new_dict, alloc, ret. simpl. rewrite Hd. simpl.
        rewrite String.eqb_refl. simpl. intros [= <- <-]. simpl.
        rewrite Forall_forall in Hok.
        destruct (extends_alloc (w_heap w) h1
                    (ODict (dict_of_items
                              (filter (λ kv, negb (startswith kv.1 "__")) d))) He)
          as [He' Hv'].
        { apply obj_ok_dict. split; [|apply NoDup_fold_dict_set; constructor].
          intros k v [Hin|Hin]%elem_of_fold_dict_set;
            [by apply elem_of_nil in Hin|].
          apply list_elem_of_filter in Hin as [_ Hin].
          destruct (Hok _ Hin) as [? _]. eapply val_ok_mono; [|done]. lia. }
        { intros v ([k v'] & -> & [Hin|Hin]%elem_of_fold_dict_set)%list_elem_of_fmap;
            [by apply elem_of_nil in Hin|].
          apply list_elem_of_filter in Hin as [_ Hin]. by apply (Hok _ Hin). }
        split; [done|]. by intros ? [= <-].
    + intros [= <- <-]. simpl. split; [by apply extends_refl|done].
  - unfold yaml_safe_load, bind. simpl.
    destruct (files abs_path) as [f|]; simpl.
    + destruct (as_yaml f) as [e|t].
      * intros [= <- <-]. simpl. split; [by apply extends_refl|done].
      * destruct (build_spec t (w_heap w) Hwf) as (h1 & v & Hv & He & Hok).
        unfold lift. simpl. rewrite Hv. intros [= <- <-]. simpl.
        split; [done|]. by intros ? [= <-].
    + intros [= <- <-]. simpl. split; [by apply extends_refl|done].
Qed.

Lemma py_pop_inv config k h h' r :
  py_pop config k h = (h', r) →
  (h' = h ∧ ∃ e, r = Raise e)
  ∨ ∃ l d v, config = VRef l ∧ h !! l = Some (ODict d) ∧ dict_get k d = Some v
             ∧ h' = <[l:=ODict (dict_del k d)]> h ∧ r = Ok v.
Proof.
  unfold py_pop, bind, deref, store, ret, raise.
  destruct config as [| | | | |l]; try (intros [= <- <-]; left; by eauto).
  destruct (h !! l) as [[d|xs|xs]|] eqn:Hl;
    try (intros [= <- <-]; left; by eauto).
  destruct (dict_get k d) as [v|] eqn:Hk; intros [= <- <-];
    [|left; by eauto].
  right. by exists l, d, v.
Qed.

Lemma py_list_elems_inv v h h' r :
  py_list_elems v h = (h', r) →
  h' = h ∧ ∀ xs, r = Ok xs → ∃ l, v = VRef l ∧ h !! l = Some (OList xs).
Proof.
  unfold py_list_elems, bind, deref, ret, raise.
  destruct v as [| | | | |l]; try by intros [= <- <-].
  destruct (h !! l) as [[d|xs|xs]|] eqn:Hl; intros [= <- <-]; try done.
  split; [done|]. intros ? [= <-]. by exists l.
Qed.

Lemma inv_pop n0 h l d k :
  inv n0 h → n0 ≤ l → h !! l = Some (ODict d) →
  inv n0 (<[l:=ODict (dict_del k d)]> h)
  ∧ frame n0 h (<[l:=ODict (dict_del k d)]> h).
Proof.
  intros Hi Hle Hl. apply inv_insert; [done..| |].
  - apply obj_ok_del. eapply wf_heap_lookup; [by eapply inv_wf|done].
  - intros v ([k' v'] & -> & Hin%elem_of_dict_del)%list_elem_of_fmap.
    eapply (inv_refs n0 h l (ODict d)); [done..|].
    simpl. apply list_elem_of_fmap. by exists (k', v').
Qed.

Lemma loader_post_raise n0 w e : inv n0 (w_heap w) → loader_post n0 w w (Raise e).
Proof. intros Hi. split_and!; [done|apply frame_refl|done]. Qed.

Lemma loader_post_trans n0 w1 w2 w3 r0 r :
  loader_post n0 w1 w2 r0 → loader_post n0 w2 w3 r → loader_post n0 w1 w3 r.
Proof.
  intros (_ & Hf1 & _) (Hi & Hf2 & Hr). split_and!; [done| |done].
  by eapply frame_trans.
Qed.

Lemma merge_bases_sound parse n dir n0 bases :
  (∀ path w w' r,
     wf_heap (w_heap w) = true → parse path w = (w', r) →
     extends (w_heap w) (w_heap w') ∧
     ∀ v, r = Ok v → new_val (length (w_heap w)) (length (w_heap w')) v) →
  ∀ config w w' r,
    inv n0 (w_heap w) → new_val n0 (length (w_heap w)) config →
    merge_bases parse n dir bases config w = (w', r) →
    loader_post n0 w w' r.
Proof.
  intros Hparse. induction bases as [|f bases IH]; intros config w w' r Hi Hc Hrun.
  - inversion Hrun; subst. split_and!; [done|apply frame_refl|].
    by intros ? [= <-].
  - simpl in Hrun.
    apply bind_inv in Hrun as [(e & Hj & ->)|(p & w1 & Hj & Hrun)].
    { destruct f; inversion Hj; subst; by apply loader_post_raise. }
    assert (w1 = w) as -> by (destruct f; by inversion Hj). clear Hj.
    apply bind_inv in Hrun as [(e & Hp & ->)|(base & w2 & Hp & Hrun)];
      apply Hparse in Hp as [He Hb]; try (by eapply inv_wf);
      destruct (inv_extends _ _ _ Hi He) as [Hi2 Hf2];
      [by split_and!|].
    assert (new_val n0 (length (w_heap w2)) base) as Hb2.
    { eapply new_val_mono; [| |by apply Hb]; [by destruct Hi|done]. }
    assert (new_val n0 (length (w_heap w2)) config) as Hc2.
    { eapply new_val_mono; [| |exact Hc]; [done|by apply extends_length]. }
    apply bind_inv in Hrun as [(e & Hm & ->)|(c' & w3 & Hm & Hrun)];
      apply lift_inv in Hm as (h3 & Hm & ->);
      destruct Hc2 as [Hc2 Hc2'], Hb2 as [Hb2 Hb2'];
      destruct (merge_inv n0 n config base _ _ _ Hi2 Hc2 Hb2 Hc2' Hb2' Hm)
        as (Hi3 & Hf3 & Hr3).
    { split_and!; [done|by eapply frame_trans|done]. }
    destruct (Hr3 c' eq_refl) as [Hc3 Hc3'].
    apply IH in Hrun; [|done|by split].
    destruct Hrun as (Hi4 & Hf4 & Hr4). split_and!; [done| |done].
    eapply frame_trans; [exact Hf2|]. by eapply frame_trans.
Qed.

Lemma parse_sound abspath files tmp_dir tmp_module n :
  ∀ path w w' r,
    wf_heap (w_heap w) = true →
    parse_backtest_config abspath files tmp_dir tmp_module n path w = (w', r) →
    extends (w_heap w) (w_heap w') ∧
    ∀ v, r = Ok v → new_val (length (w_heap w)) (length (w_heap w')) v.
Proof.
  induction n as [|n IH]; intros path w w' r Hwf Hrun.
  { inversion Hrun; subst. split; [by apply extends_refl|done]. }
  rewrite parse_backtest_config_S in Hrun. cbv zeta in Hrun.
  set (n0 := length (w_heap w)).
  cut (loader_post n0 w w' r).
  { intros (Hi & Hf & Hr). split; [|done]. apply extends_inv. by split. }
  pose proof (inv_refl _ Hwf) as Hi. fold n0 in Hi.
  apply bind_inv in Hrun as [(e & Hc & ->)|([] & w1 & Hc & Hrun)];
    unfold check_file_exist in Hc; destruct (files (abspath path)) as [f|];
    try done; [inversion Hc; subst w'; by apply loader_post_raise|].
  assert (w1 = w) as -> by by inversion Hc.
  clear Hc.
  destruct (negb (existsb (String.eqb (splitext_ext (abspath path))) supported_ext)).
  { inversion Hrun; subst. by apply loader_post_raise. }
  apply bind_inv in Hrun as [(e & Hl & ->)|(config & w2 & Hl & Hrun)];
    apply load_file_sound in Hl as [He Hc]; try done;
    destruct (inv_extends _ _ _ Hi He) as [Hi2 Hf2]; [by split_and!|].
  specialize (Hc config eq_refl). fold n0 in Hc.
  apply bind_inv in Hrun as [(e & Hin & ->)|(has_base & w3 & Hin & Hrun)];
    apply lift_inv in Hin as (h3 & Hin & ->);
    apply py_contains_heap in Hin as ->; [by split_and!|].
  destruct has_base; cycle 1.
  { inversion Hrun; subst. split_and!; [done..|]. by intros ? [= <-]. }
  apply bind_inv in Hrun as [(e & Hpop & ->)|(bv & w4 & Hpop & Hrun)];
    apply lift_inv in Hpop as (h4 & Hpop & ->);
    apply py_pop_inv in Hpop
      as [(-> & e' & He')|(l & d & v & -> & Hld & Hk & -> & Hv)];
    try done.
  simpl in Hld, Hrun.
  inversion Hv; subst v. clear Hv.
  destruct Hc as [Hcok Hle]. simpl in Hle.
  destruct (inv_pop n0 _ l d "_base_" Hi2 Hle Hld) as [Hi4 Hf4].
  assert (new_val n0 (length (w_heap w2)) bv) as Hbv.
  { eapply (inv_refs n0 _ l (ODict d)); [done..|]. by eapply refs_dict_get. }
  set (h4 := <[l:=ODict (dict_del "_base_" d)]> (w_heap w2)) in *.
  assert (length h4 = length (w_heap w2)) as Hlen4 by apply length_insert.
  apply bind_inv in Hrun as [(e & Hisl & ->)|(isl & w5 & Hisl & Hrun)];
    [by inversion Hisl|].
  assert (w5 = World h4 (sys_path w2) (sys_modules w2) (tmp_seq w2)) as ->
    by by inversion Hisl.
  assert (isl = is_list h4 bv) as -> by by inversion Hisl.
  clear Hisl.
  assert (loader_post n0 w (World h4 (sys_path w2) (sys_modules w2) (tmp_seq w2))
            (Ok bv)) as Hpost4.
  { split_and!; [done|by eapply frame_trans|]. intros ? [= <-]. simpl.
    by rewrite Hlen4. }
  eapply loader_post_trans; [exact Hpost4|].
  apply bind_inv in Hrun as [(e & Hb & ->)|(bases & w6 & Hb & Hrun)].
  { destruct (is_list h4 bv); [|by inversion Hb].
    apply lift_inv in Hb as (h6 & Hb & ->).
    apply py_list_elems_inv in Hb as [-> _]. by apply loader_post_raise. }
  assert (w6 = World h4 (sys_path w2) (sys_modules w2) (tmp_seq w2)) as ->.
  { destruct (is_list h4 bv); [|by inversion Hb].
    apply lift_inv in Hb as (h6 & Hb & ->).
    by apply py_list_elems_inv in Hb as [-> _]. }
  eapply (merge_bases_sound _ n _ n0 bases IH); [done| |exact Hrun].
  simpl. rewrite Hlen4. done.
Qed.
(** ** Base files *)

Lemma is_dict_insert_dict h l d d' v :
  h !! l = Some (ODict d) → is_dict (<[l:=ODict d']> h) v = is_dict h v.
Proof.
  intros Hl. destruct v as [| | | | |l']; try done. simpl.
  destruct (decide (l = l')) as [<-|Hne].
  - rewrite list_lookup_insert_eq by by eapply lookup_lt_Some. by rewrite Hl.
  - by rewrite list_lookup_insert_ne.
Qed.

Lemma is_list_insert_dict h l d d' v :
  h !! l = Some (ODict d) → is_list (<[l:=ODict d']> h) v = is_list h v.
Proof.
  intros Hl. destruct v as [| | | | |l']; try done. simpl.
  destruct (decide (l = l')) as [<-|Hne].
  - rewrite list_lookup_insert_eq by by eapply lookup_lt_Some. by rewrite Hl.
  - by rewrite list_lookup_insert_ne.
Qed.




Lemma load_file_run_S abspath files tmp_dir tmp_module n path w :
  is_Some (files (abspath path)) →
  splitext_ext (abspath path) ∈ supported_ext →
  parse_backtest_config abspath files tmp_dir tmp_module (S n) path w
  = (config <- load_file files tmp_dir tmp_module (abspath path) ;;
     has_base <- lift (py_contains config "_base_") ;;
     if has_base then
       base_file_name <- lift (py_pop config "_base_") ;;
       isl <- lift (isinstance_list base_file_name) ;;
       bases <- (if isl then lift (py_list_elems base_file_name)
                 else ret [base_file_name]) ;;
       merge_bases (parse_backtest_config abspath files tmp_dir tmp_module n)
         n (dirname (abspath path)) bases config
     else ret config) w.
Proof.
  intros [f Hf] Hext. rewrite parse_backtest_config_S. cbv zeta.
  unfold check_file_exist. rewrite Hf.
  unfold bind at 1. unfold ret at 1.
  by rewrite (supported_ext_true _ Hext).
Qed.

(** ** The directory of a file *)











(** ** The precedence of the overlay *)


















(** The load of a file whose mapping has the key [_base_], after the
    file has been read. *)
Lemma parse_with_base abspath files tmp_dir tmp_module n path w w1 l d bv :
  is_Some (files (abspath path)) →
  splitext_ext (abspath path) ∈ supported_ext →
  load_file files tmp_dir tmp_module (abspath path) w = (w1, Ok (VRef l)) →
  w_heap w1 !! l = Some (ODict d) →
  dict_get "_base_" d = Some bv →
  parse_backtest_config abspath files tmp_dir tmp_module (S n) path w
  = merge_bases (parse_backtest_config abspath files tmp_dir tmp_module n) n
      (dirname (abspath path))
      match bv with
      | VRef lb =>
          match w_heap w1 !! lb with Some (OList fs) => fs | _ => [bv] end
      | _ => [bv]
      end
      (VRef l)
      (World (<[l:=ODict (dict_del "_base_" d)]> (w_heap w1))
         (sys_path w1) (sys_modules w1) (tmp_seq w1)).
Proof.
  intros Hf Hext Hload Hl Hbase. rewrite load_file_run_S by done.
  erewrite bind_ok by exact Hload.
  erewrite bind_ok; cycle 1.
  { apply lift_run. unfold py_contains, bind, deref. rewrite Hl. reflexivity. }
  assert (dict_has "_base_" d = true) as -> by (apply dict_has_true; eauto).
  erewrite bind_ok; cycle 1.
  { apply lift_run. simpl. unfold py_pop, bind, deref, store, ret.
    rewrite Hl, Hbase. reflexivity. }
  erewrite bind_ok; cycle 1.
  { apply lift_run. reflexivity. }
  simpl. rewrite (is_list_insert_dict _ _ _ _ _ Hl).
  destruct bv as [| | | | |lb]; try reflexivity.
  simpl. destruct (w_heap w1 !! lb) as [[db|fs|fs]|] eqn:Hlb; try reflexivity.
  assert (l ≠ lb) as Hne by (intros ->; congruence).
  erewrite bind_ok; cycle 1.
  { apply lift_run. simpl. unfold py_list_elems, bind, deref.
    rewrite list_lookup_insert_ne by done. rewrite Hlb. reflexivity. }
  reflexivity.
Qed.



(** ** Lists to tuples *)

Lemma entry_conv_refl h h' v : entry_conv h h' v v.
Proof. by left. Qed.

Lemma conv_refl h : conv h h.
Proof.
  split; [done|]. intros l [d|xs|xs] Hl; [|done..].
  exists d. split_and!; [done..|]. intros k v Hk. exists v. split; [done|by left].
Qed.

Lemma conv_alloc h o : conv h (h ++ [o]).
Proof.
  split; [rewrite length_app; lia|]. intros l [d|xs|xs] Hl.
  - exists d. split_and!; [by apply lookup_app_l_Some|done|].
    intros k v Hk. exists v. split; [done|by left].
  - by apply lookup_app_l_Some.
  - by apply lookup_app_l_Some.
Qed.

(** Under [conv] an object keeps its kind. *)
Lemma conv_is_list h h' v :
  conv h h' → val_ok (length h) v = true → is_list h' v = is_list h v.
Proof.
  intros [_ Hc] Hv. destruct v as [| | | | |l]; try done.
  apply val_ok_ref, lookup_lt_is_Some_2 in Hv as [o Hl]. simpl. rewrite Hl.
  specialize (Hc l o Hl). destruct o as [d|xs|xs].
  - destruct Hc as (d' & -> & _). done.
  - by rewrite Hc.
  - by rewrite Hc.
Qed.

Lemma conv_is_dict h h' v :
  conv h h' → val_ok (length h) v = true → is_dict h' v = is_dict h v.
Proof.
  intros [_ Hc] Hv. destruct v as [| | | | |l]; try done.
  apply val_ok_ref, lookup_lt_is_Some_2 in Hv as [o Hl]. simpl. rewrite Hl.
  specialize (Hc l o Hl). destruct o as [d|xs|xs].
  - destruct Hc as (d' & -> & _). done.
  - by rewrite Hc.
  - by rewrite Hc.
Qed.

Lemma conv_list h h' l xs :
  conv h h' → l < length h → h' !! l = Some (OList xs) → h !! l = Some (OList xs).
Proof.
  intros [_ Hc] [o Hl]%lookup_lt_is_Some_2 Hl'. specialize (Hc l o Hl).
  destruct o as [d|ys|ys]; [|congruence..].
  destruct Hc as (d' & Hd' & _). congruence.
Qed.

Lemma conv_trans h1 h2 h3 :
  wf_heap h1 = true → conv h1 h2 → conv h2 h3 → conv h1 h3.
Proof.
  intros Hwf [Hlen1 H1] [Hlen2 H2]. split; [lia|]. intros l o Hl.
  pose proof (H1 l o Hl) as Ho. destruct o as [d|xs|xs].
  - destruct Ho as (d2 & Hl2 & Hk2 & He2).
    destruct (H2 l _ Hl2) as (d3 & Hl3 & Hk3 & He3).
    exists d3. split_and!; [done|congruence|].
    intros k v Hk. destruct (He2 k v Hk) as (v2 & Hv2 & Hc2).
    destruct (He3 k v2 Hv2) as (v3 & Hv3 & Hc3).
    exists v3. split; [done|].
    destruct Hc2 as [->|(l' & lt & xs & -> & Hl' & -> & Hlt & Ht)].
    + destruct Hc3 as [->|(l' & lt & xs & -> & Hl' & -> & Hlt & Ht)]; [by left|].
      right. exists l', lt, xs. split_and!; [done| |done|lia|done].
      eapply conv_list; [by split| |done].
      apply val_ok_ref. eapply wf_heap_val; [done..|]. by apply dict_get_elem.
    + destruct Hc3 as [->|(l'' & lt' & ys & [= <-] & Hl'' & _)].
      * right. exists l', lt, xs. split_and!; [done..|].
        by apply (H2 lt (OTuple xs)).
      * congruence.
  - by apply (H2 l (OList xs)).
  - by apply (H2 l (OTuple xs)).
Qed.

(** Objects that stay as they are satisfy [conv]. *)
Lemma conv_same h h' :
  length h ≤ length h' → (∀ l o, h !! l = Some o → h' !! l = Some o) → conv h h'.
Proof.
  intros Hlen H. split; [done|]. intros l [d|xs|xs] Hl; [|by apply H..].
  exists d. split_and!; [by apply H|done|].
  intros k v Hk. exists v. split; [done|by left].
Qed.

Lemma lookup_keys_NoDup {A} (d : items A) k v :
  NoDup (keys d) → (k, v) ∈ d ↔ dict_get k d = Some v.
Proof.
  intros Hnd. split; [by apply dict_get_NoDup|apply dict_get_elem].
Qed.

Lemma tupled_conv n h h' v :
  wf_heap h = true → conv h h' → val_ok (length h) v = true →
  tupled n h v = true → tupled n h' v = true.
Proof.
  intros Hwf Hconv. revert v. induction n as [|n IH]; intros v Hv; [done|].
  destruct v as [| | | | |l]; try done. simpl.
  destruct (h !! l) as [[d|xs|xs]|] eqn:Hl; try done.
  destruct Hconv as [Hlen Hc].
  destruct (Hc l _ Hl) as (d' & -> & Hkeys & Hent).
  pose proof (wf_heap_lookup _ _ _ Hwf Hl) as [Hvals Hnd]%obj_ok_dict.
  rewrite !forallb_forall. intros Hall [k x'] Hin%list_elem_of_In.
  assert (k ∈ keys d) as Hk.
  { rewrite <-Hkeys. apply list_elem_of_fmap. by exists (k, x'). }
  apply dict_has_keys, dict_has_true in Hk as [x Hx].
  destruct (Hent k x Hx) as (x'' & Hx'' & Hcx).
  assert (x'' = x') as ->.
  { apply dict_get_NoDup in Hin; [congruence|]. by rewrite Hkeys. }
  pose proof (dict_get_elem _ _ _ Hx) as Hxin.
  specialize (Hall (k, x) (proj1 (list_elem_of_In _ _) Hxin)). simpl in *.
  assert (val_ok (length h) x = true) as Hxok by eauto.
  destruct Hcx as [->|(lx & lt & xs & -> & Hlx & -> & Hlt & Ht)].
  - rewrite (conv_is_list h h') by (done || by split).
    rewrite (conv_is_dict h h') by (done || by split).
    apply andb_true_iff in Hall as [-> Hall]. simpl.
    destruct (is_dict h x); [|done]. simpl in *. by apply IH.
  - simpl. by rewrite Ht.
Qed.

Lemma keys_set_has {A} k (v : A) d : dict_has k d = true → keys (dict_set k v d) = keys d.
Proof. intros H. by rewrite keys_set, H. Qed.

(** Replacing the list at a key by a new tuple of its elements. *)
Lemma conv_set_tuple h lc d k l xs :
  h !! lc = Some (ODict d) → dict_get k d = Some (VRef l) →
  h !! l = Some (OList xs) →
  conv h (<[lc:=ODict (dict_set k (VRef (length h)) d)]> (h ++ [OTuple xs])).
Proof.
  intros Hlc Hk Hl.
  assert (lc < length h) as Hlt by by eapply lookup_lt_Some.
  split; [rewrite length_insert, length_app; lia|].
  intros l' o Hl'. destruct (decide (lc = l')) as [<-|Hne].
  - rewrite Hlc in Hl'. inversion Hl'; subst o.
    exists (dict_set k (VRef (length h)) d). split_and!.
    + apply list_lookup_insert_eq. rewrite length_app. lia.
    + apply keys_set_has, dict_has_true. eauto.
    + intros k' v Hk'. destruct (decide (k' = k)) as [->|Hnk].
      * rewrite dict_get_set_eq. eexists. split; [done|].
        right. exists l, (length h), xs.
        split_and!; [congruence|done|done|done|].
        rewrite list_lookup_insert_ne by lia.
        rewrite lookup_app_r by done. by rewrite Nat.sub_diag.
      * rewrite dict_get_set_ne by done. exists v. split; [done|by left].
  - assert ((<[lc:=ODict (dict_set k (VRef (length h)) d)]> (h ++ [OTuple xs]))
              !! l' = Some o) as Hl''.
    { rewrite list_lookup_insert_ne by done. by apply lookup_app_l_Some. }
    destruct o as [d0|ys|ys]; [|done..].
    exists d0. split_and!; [done..|].
    intros k' v Hk'. exists v. split; [done|by left].
Qed.

Lemma wf_heap_set_tuple h lc d k l xs :
  wf_heap h = true →
  h !! lc = Some (ODict d) → h !! l = Some (OList xs) →
  wf_heap (<[lc:=ODict (dict_set k (VRef (length h)) d)]> (h ++ [OTuple xs])) = true.
Proof.
  intros Hwf Hlc Hl. apply wf_heap_insert.
  - apply wf_heap_alloc; [done|].
    eapply obj_ok_mono; [|by apply (wf_heap_lookup h l (OList xs))]. lia.
  - rewrite length_app. simpl. apply obj_ok_set.
    + eapply obj_ok_mono; [|by apply (wf_heap_lookup h lc (ODict d))]. lia.
    + apply val_ok_ref. lia.
Qed.

Lemma convert_loop_cons rec config k rest :
  convert_loop rec config (k :: rest)
  = (v <- py_getitem config k ;;
     isl <- isinstance_list v ;;
     (if isl then
        t <- py_tuple v ;;
        py_setitem config k t
      else
        isd <- isinstance_dict v ;;
        if isd then
          c <- rec v ;;
          py_setitem config k c
        else ret tt) ;;;
     convert_loop rec config rest).
Proof. reflexivity. Qed.

Lemma is_list_Some h v :
  is_list h v = true ↔ ∃ l xs, v = VRef l ∧ h !! l = Some (OList xs).
Proof.
  split.
  - destruct v as [| | | | |l]; simpl; try done.
    destruct (h !! l) as [[d|xs|xs]|] eqn:E; try done. eauto.
  - intros (l & xs & -> & Hl). simpl. by rewrite Hl.
Qed.

Section convert_loop.
Variable rec : val → M heap val.
Variable n : nat.
Hypothesis Hrec : convert_sound rec n.

Lemma convert_step lc k h h' r :
  wf_heap h = true → is_dict h (VRef lc) = true →
  (v <- py_getitem (VRef lc) k ;;
   isl <- isinstance_list v ;;
   if isl then
     t <- py_tuple v ;;
     py_setitem (VRef lc) k t
   else
     isd <- isinstance_dict v ;;
     if isd then
       c <- rec v ;;
       py_setitem (VRef lc) k c
     else ret tt) h = (h', r) →
  wf_heap h' = true ∧ conv h h' ∧ (r = Ok tt → converted_at n h' lc k).
Proof.
  intros Hwf (? & d & [= <-] & Hlc)%is_dict_Some Hrun.
  unfold bind in Hrun at 1. rewrite (run_py_getitem_dict h lc d k Hlc) in Hrun.
  destruct (dict_get k d) as [v|] eqn:Hk; cycle 1.
  { inversion Hrun; subst. split_and!; [done|apply conv_refl|done]. }
  assert (val_ok (length h) v = true) as Hv.
  { eapply wf_heap_val; [done..|]. by apply dict_get_elem. }
  unfold bind in Hrun at 1. unfold isinstance_list in Hrun at 1.
  destruct (is_list h v) eqn:Hisl.
  - (* a list: [config[k] = tuple(v)] *)
    apply is_list_Some in Hisl as (l & xs & -> & Hl).
    unfold py_tuple, bind at 1 2, deref, alloc in Hrun. rewrite Hl in Hrun.
    assert ((h ++ [OTuple xs]) !! lc = Some (ODict d)) as Hlc1
      by by apply lookup_app_l_Some.
    rewrite (run_py_setitem_dict _ _ _ k (VRef (length h)) Hlc1) in Hrun.
    inversion Hrun; subst h' r. clear Hrun.
    split_and!; [by eapply wf_heap_set_tuple|by eapply conv_set_tuple|].
    intros _. exists (dict_set k (VRef (length h)) d), (VRef (length h)).
    assert (lc < length h) as Hlt by by eapply lookup_lt_Some.
    assert ((<[lc:=ODict (dict_set k (VRef (length h)) d)]> (h ++ [OTuple xs]))
              !! length h = Some (OTuple xs)) as Ht.
    { rewrite list_lookup_insert_ne by lia.
      rewrite lookup_app_r by done. by rewrite Nat.sub_diag. }
    split_and!.
    + apply list_lookup_insert_eq. rewrite length_app. lia.
    + apply dict_get_set_eq.
    + simpl. by rewrite Ht.
    + simpl. by rewrite Ht.
  - unfold bind in Hrun at 1. unfold isinstance_dict in Hrun at 1.
    destruct (is_dict h v) eqn:Hisd.
    + (* a mapping: [config[k] = rec(v)] *)
      apply bind_inv in Hrun as [(e & Hr & ->)|(c & h1 & Hr & Hrun)];
        destruct (Hrec v h _ _ Hwf Hv Hr) as (Hwf1 & Hc1 & Hres); [done|].
      destruct (Hres c eq_refl) as [-> Ht].
      destruct Hc1 as [Hlen1 Hobj1].
      destruct (Hobj1 lc _ Hlc) as (d1 & Hlc1 & Hkeys1 & Hent1).
      destruct (Hent1 k v Hk) as (v1 & Hk1 & Hcv).
      assert (v1 = v) as ->.
      { destruct Hcv as [->|(l & lt & xs & -> & Hl & _)]; [done|].
        simpl in Hisl. by rewrite Hl in Hisl. }
      rewrite (run_py_setitem_dict _ _ _ k v Hlc1) in Hrun.
      rewrite (dict_set_same _ _ _ Hk1) in Hrun.
      rewrite list_insert_id in Hrun by done.
      inversion Hrun; subst h' r. clear Hrun.
      split_and!; [done|by split|]. intros _. exists d1, v.
      split_and!; [done..| |done].
      rewrite (conv_is_list h h1); [done|by split|done].
    + (* anything else stays *)
      inversion Hrun; subst h' r. clear Hrun.
      split_and!; [done|apply conv_refl|]. intros _. exists d, v.
      split_and!; [done..|congruence].
Qed.

Lemma converted_at_conv lc k h h' :
  wf_heap h = true → conv h h' → converted_at n h lc k → converted_at n h' lc k.
Proof.
  intros Hwf Hconv (d & x & Hlc & Hk & Hl & Hd).
  assert (val_ok (length h) x = true) as Hx.
  { eapply wf_heap_val; [done..|]. by apply dict_get_elem. }
  pose proof Hconv as [_ Hobj].
  destruct (Hobj lc _ Hlc) as (d' & Hlc' & _ & Hent).
  destruct (Hent k x Hk) as (x' & Hk' & Hcx).
  assert (x' = x) as ->.
  { destruct Hcx as [->|(l & lt & xs & -> & Hlx & _)]; [done|].
    simpl in Hl. by rewrite Hlx in Hl. }
  exists d', x. split_and!; [done..| |].
  - by rewrite (conv_is_list h h').
  - rewrite (conv_is_dict h h') by done. intros Hisd.
    apply (tupled_conv n h h'); auto.
Qed.

Lemma convert_loop_spec lc ks :
  ∀ h h' r,
    wf_heap h = true → is_dict h (VRef lc) = true →
    convert_loop rec (VRef lc) ks h = (h', r) →
    wf_heap h' = true ∧ conv h h' ∧
    (r = Ok tt → ∀ k, k ∈ ks → converted_at n h' lc k).
Proof.
  induction ks as [|k ks IH]; intros h h' r Hwf Hd Hrun.
  - inversion Hrun; subst. split_and!; [done|apply conv_refl|].
    intros _ k Hk. by apply elem_of_nil in Hk.
  - rewrite convert_loop_cons in Hrun.
    assert ((step <- (v <- py_getitem (VRef lc) k ;;
                      isl <- isinstance_list v ;;
                      if isl then
                        t <- py_tuple v ;;
                        py_setitem (VRef lc) k t
                      else
                        isd <- isinstance_dict v ;;
                        if isd then
                          c <- rec v ;;
                          py_setitem (VRef lc) k c
                        else ret tt) ;;
             convert_loop rec (VRef lc) ks) h = (h', r)) as Hrun'.
    { rewrite <-Hrun. unfold bind.
      destruct (py_getitem (VRef lc) k h) as [h1 [v|e]]; [|done].
      destruct (isinstance_list v h1) as [h2 [isl|e]]; done. }
    clear Hrun.
    apply bind_inv in Hrun' as [(e & Hs & ->)|([] & h1 & Hs & Hrun)];
      apply convert_step in Hs as (Hwf1 & Hc1 & Hat); try done.
    assert (is_dict h1 (VRef lc) = true) as Hd1.
    { rewrite (conv_is_dict h h1); [done..|]. by apply val_ok_dict. }
    destruct (IH _ _ _ Hwf1 Hd1 Hrun) as (Hwf' & Hc' & Hks).
    split_and!; [done|by eapply conv_trans|].
    intros Hr k' [->|Hin]%elem_of_cons; [|by apply Hks].
    eapply converted_at_conv; [exact Hwf1|done|by apply Hat].
Qed.

End convert_loop.

Lemma convert_sound_fuel n : convert_sound (_convert_all_list_to_tuple n) n.
Proof.
  induction n as [|n IH]; intros config h h' r Hwf Hc Hrun.
  { inversion Hrun; subst. split_and!; [done|apply conv_refl|done]. }
  simpl in Hrun.
  apply bind_inv in Hrun as [(e & Hits & ->)|(its & h1 & Hits & Hrun)];
    apply py_items_inv in Hits as [-> Hits];
    [split_and!; [done|apply conv_refl|done]|].
  destruct (Hits its eq_refl) as (lc & -> & Hlc).
  apply bind_inv in Hrun as [(e & Hloop & ->)|([] & h2 & Hloop & Hrun)];
    apply (convert_loop_spec _ n IH) in Hloop as (Hwf' & Hconv & Hks);
    try (by eapply is_dict_lookup); try done.
  inversion Hrun; subst h' r. clear Hrun.
  split_and!; [done..|]. intros ? [= <-]. split; [done|].
  destruct Hconv as [_ Hobj].
  destruct (Hobj lc _ Hlc) as (d' & Hlc' & Hkeys & _).
  simpl. rewrite Hlc'. apply forallb_forall. intros [k x] Hin%list_elem_of_In.
  assert (k ∈ keys its) as Hk.
  { rewrite <-Hkeys. apply list_elem_of_fmap. by exists (k, x). }
  destruct (Hks eq_refl k Hk) as (d'' & x' & Hlc'' & Hx' & Hl & Hd).
  assert (d'' = d') as -> by congruence.
  assert (x' = x) as ->.
  { pose proof (wf_heap_lookup _ _ _ Hwf' Hlc') as [_ Hnd]%obj_ok_dict.
    apply dict_get_NoDup in Hin; [congruence|done]. }
  simpl. rewrite Hl. simpl. destruct (is_dict h2 x); [|done]. by apply Hd.
Qed.

(** ** When the conversion returns *)

Lemma nest_ok_conv n h h' v :
  wf_heap h = true → conv h h' → val_ok (length h) v = true →
  nest_ok n h v = true → nest_ok n h' v = true.
Proof.
  intros Hwf Hconv. revert v. induction n as [|n IH]; intros v Hv; [done|].
  destruct v as [| | | | |l]; try done. simpl.
  destruct (h !! l) as [[d|xs|xs]|] eqn:Hl; try done.
  pose proof Hconv as [Hlen Hc].
  destruct (Hc l _ Hl) as (d' & -> & Hkeys & Hent).
  pose proof (wf_heap_lookup _ _ _ Hwf Hl) as [Hvals Hnd]%obj_ok_dict.
  rewrite !forallb_forall. intros Hall [k x'] Hin%list_elem_of_In.
  assert (k ∈ keys d) as Hk.
  { rewrite <-Hkeys. apply list_elem_of_fmap. by exists (k, x'). }
  apply dict_has_keys, dict_has_true in Hk as [x Hx].
  destruct (Hent k x Hx) as (x'' & Hx'' & Hcx).
  assert (x'' = x') as ->.
  { apply dict_get_NoDup in Hin; [congruence|]. by rewrite Hkeys. }
  pose proof (dict_get_elem _ _ _ Hx) as Hxin.
  specialize (Hall (k, x) (proj1 (list_elem_of_In _ _) Hxin)). simpl in *.
  assert (val_ok (length h) x = true) as Hxok by eauto.
  destruct Hcx as [->|(lx & lt & xs & -> & Hlx & -> & Hlt & Ht)].
  - rewrite (conv_is_dict h h') by done.
    destruct (is_dict h x); [|done]. simpl in *. by apply IH.
  - simpl. by rewrite Ht.
Qed.

Lemma nested_nest_ok n seen h v : nested n seen h v = true → nest_ok n h v = true.
Proof.
  revert seen v. induction n as [|n IH]; intros seen v; [done|].
  destruct v as [| | | | |l]; try done. simpl.
  intros [_ H]%andb_true_iff. destruct (h !! l) as [[d|xs|xs]|]; try done.
  rewrite forallb_forall in H. apply forallb_forall. intros kv Hin.
  specialize (H kv Hin). destruct (is_dict h kv.2); [|done].
  simpl in *. by eapply IH.
Qed.

(** A walk that avoids [lc] does not see what [lc] holds. *)
Lemma nested_insert n seen h lc d d' v :
  h !! lc = Some (ODict d) → lc ∈ seen →
  nested n seen h v = true → nested n seen (<[lc:=ODict d']> h) v = true.
Proof.
  intros Hlc. revert seen v. induction n as [|n IH]; intros seen v Hseen; [done|].
  destruct v as [| | | | |l]; try done. simpl.
  intros [Hl H]%andb_true_iff. rewrite Hl. simpl.
  assert (l ≠ lc) as Hne.
  { intros ->. apply negb_true_iff, not_true_iff_false in Hl. apply Hl.
    apply existsb_exists. exists lc.
    split; [by apply list_elem_of_In|apply Nat.eqb_refl]. }
  rewrite list_lookup_insert_ne by done.
  destruct (h !! l) as [[dl|xs|xs]|]; try done.
  rewrite forallb_forall in H. apply forallb_forall. intros kv Hin.
  specialize (H kv Hin). rewrite (is_dict_insert_dict _ _ _ _ _ Hlc).
  destruct (is_dict h kv.2); [|done]. simpl in *. apply IH; [by right|done].
Qed.

(** Objects that stay as they are keep their nesting. *)
Lemma nested_same n seen h h' v :
  wf_heap h = true → (∀ l o, h !! l = Some o → h' !! l = Some o) →
  val_ok (length h) v = true →
  nested n seen h v = true → nested n seen h' v = true.
Proof.
  intros Hwf Hsame. revert seen v. induction n as [|n IH]; intros seen v Hv; [done|].
  destruct v as [| | | | |l]; try done. simpl.
  intros [Hl H]%andb_true_iff. rewrite Hl. simpl.
  destruct (h !! l) as [[d|xs|xs]|] eqn:Hld; try done.
  rewrite (Hsame _ _ Hld).
  rewrite forallb_forall in H. apply forallb_forall. intros [k x] Hin.
  specialize (H _ Hin). simpl in *.
  assert (val_ok (length h) x = true) as Hx.
  { eapply wf_heap_val; [done..|]. by apply list_elem_of_In. }
  assert (is_dict h' x = is_dict h x) as ->.
  { destruct x as [| | | | |lx]; try done. simpl.
    apply val_ok_ref, lookup_lt_is_Some_2 in Hx as [o Ho].
    by rewrite Ho, (Hsame _ _ Ho). }
  destruct (is_dict h x); [|done]. simpl in *. by apply IH.
Qed.

Section convert_loop_total.
Variable rec : val → M heap val.
Variable n : nat.
Hypothesis Hrec : convert_sound rec n.
Hypothesis Htot : convert_total rec n.

Lemma loop_ready_conv h h' lc ks :
  wf_heap h = true → conv h h' → loop_ready n h lc ks → loop_ready n h' lc ks.
Proof.
  intros Hwf Hconv (d & Hlc & Hks).
  pose proof Hconv as [_ Hobj].
  destruct (Hobj lc _ Hlc) as (d' & Hlc' & _ & Hent).
  exists d'. split; [done|]. intros k Hk.
  destruct (Hks k Hk) as (v & Hv & Hn).
  destruct (Hent k v Hv) as (v' & Hv' & Hcv). exists v'. split; [done|].
  assert (val_ok (length h) v = true) as Hvok.
  { eapply wf_heap_val; [done..|]. by apply dict_get_elem. }
  destruct Hcv as [->|(l & lt & xs & -> & Hl & -> & _ & Ht)].
  - rewrite (conv_is_dict h h') by done. intros Hd.
    apply (nest_ok_conv n h h'); auto.
  - simpl. by rewrite Ht.
Qed.

Lemma convert_step_total lc k ks h :
  wf_heap h = true → loop_ready n h lc (k :: ks) →
  ∃ h',
    (v <- py_getitem (VRef lc) k ;;
     isl <- isinstance_list v ;;
     if isl then
       t <- py_tuple v ;;
       py_setitem (VRef lc) k t
     else
       isd <- isinstance_dict v ;;
       if isd then
         c <- rec v ;;
         py_setitem (VRef lc) k c
       else ret tt) h = (h', Ok tt).
Proof.
  intros Hwf (d & Hlc & Hks).
  destruct (Hks k (list_elem_of_here _ _)) as (v & Hk & Hn).
  assert (val_ok (length h) v = true) as Hv.
  { eapply wf_heap_val; [done..|]. by apply dict_get_elem. }
  unfold bind at 1. rewrite (run_py_getitem_dict _ _ _ _ Hlc), Hk.
  unfold bind at 1. unfold isinstance_list at 1.
  destruct (is_list h v) eqn:Hisl.
  - apply is_list_Some in Hisl as (l & xs & -> & Hl).
    unfold py_tuple, bind at 1 2, deref, alloc. rewrite Hl.
    assert ((h ++ [OTuple xs]) !! lc = Some (ODict d)) as Hlc1
      by by apply lookup_app_l_Some.
    rewrite (run_py_setitem_dict _ _ _ k (VRef (length h)) Hlc1). by eexists.
  - unfold bind at 1. unfold isinstance_dict at 1.
    destruct (is_dict h v) eqn:Hisd; [|by eexists].
    destruct (Htot v h Hwf (Hn eq_refl)) as [h1 Hr].
    rewrite (bind_ok _ _ _ _ _ Hr).
    destruct (Hrec v h _ _ Hwf Hv Hr) as (_ & [_ Hobj] & _).
    destruct (Hobj lc _ Hlc) as (d1 & Hlc1 & _).
    rewrite (run_py_setitem_dict _ _ _ k v Hlc1). by eexists.
Qed.

Lemma convert_loop_total lc ks :
  ∀ h, wf_heap h = true → loop_ready n h lc ks →
       ∃ h', convert_loop rec (VRef lc) ks h = (h', Ok tt).
Proof.
  induction ks as [|k ks IH]; intros h Hwf Hready; [by eexists|].
  destruct (convert_step_total lc k ks h Hwf Hready) as [h1 Hstep].
  assert (is_dict h (VRef lc) = true) as Hd.
  { destruct Hready as (d & Hlc & _). by eapply is_dict_lookup. }
  destruct (convert_step rec n Hrec lc k h h1 (Ok tt) Hwf Hd Hstep)
    as (Hwf1 & Hc1 & _).
  assert (loop_ready n h1 lc ks) as Hready1.
  { eapply loop_ready_conv; [exact Hwf|done|].
    destruct Hready as (d & Hlc & Hks). exists d. split; [done|].
    intros k' Hk'. apply Hks. by right. }
  destruct (IH h1 Hwf1 Hready1) as [h' Hloop]. exists h'.
  rewrite convert_loop_cons, <-Hloop.
  assert (∀ (step : M heap unit) s,
            step h = (s, Ok tt) →
            (step ;;; convert_loop rec (VRef lc) ks) h
            = convert_loop rec (VRef lc) ks s) as Hseq.
  { intros step s Hs. by rewrite (bind_ok _ _ _ _ _ Hs). }
  rewrite <-(Hseq _ _ Hstep). unfold bind.
  destruct (py_getitem (VRef lc) k h) as [h2 [v|e]]; [|done].
  destruct (isinstance_list v h2) as [h3 [isl|e]]; done.
Qed.

End convert_loop_total.

Lemma convert_total_fuel n : convert_total (_convert_all_list_to_tuple n) n.
Proof.
  induction n as [|n IH]; intros config h Hwf Hn; [done|].
  destruct config as [| | | | |lc]; try done. simpl in Hn.
  destruct (h !! lc) as [[d|xs|xs]|] eqn:Hlc; try done.
  simpl. rewrite (bind_ok _ _ _ _ _ (run_py_items _ _ _ Hlc)).
  destruct (convert_loop_total _ n (convert_sound_fuel n) IH lc (keys d) h Hwf)
    as [h' Hloop].
  { exists d. split; [done|]. intros k Hk.
    apply dict_has_keys, dict_has_true in Hk as [v Hv]. exists v. split; [done|].
    intros Hd. rewrite forallb_forall in Hn.
    apply dict_get_elem, list_elem_of_In, Hn in Hv. simpl in Hv.
    by rewrite Hd in Hv. }
  exists h'. by rewrite (bind_ok _ _ _ _ _ Hloop).
Qed.

(** The conversion is shallow below a list: a list that is an element of
    a list stays a list, and a mapping inside a list is not visited. *)
Example convert_keeps_elements :
  convert_deep 2
    (TDict [("k", TList [TList [TInt 1]; TDict [("l", TList [])]])])
  = Ok (Some (TDict [("k", TTuple [TList [TInt 1]; TDict [("l", TList [])]])])).
Proof. reflexivity. Qed.

(** ** The defaults *)

(** Merging a mapping onto a mapping of scalars: the result holds the
    overlay's entries and, at the other keys, the scalars; nothing that
    was in the store changes. *)
Lemma merge_onto_scalars n h x lb D h' r :
  wf_heap h = true → val_ok (length h) x = true →
  h !! lb = Some (ODict D) →
  (∀ k v, dict_get k D = Some v → is_ref v = false) →
  merge_a_into_b n x (VRef lb) h = (h', Ok r) →
  ∃ lx X R,
    x = VRef lx ∧ h !! lx = Some (ODict X) ∧
    r = VRef (length h) ∧ length h < length h' ∧ wf_heap h' = true ∧
    h' !! length h = Some (ODict R) ∧
    (∀ l o, h !! l = Some o → h' !! l = Some o) ∧
    (∀ k, dict_get k X = None → dict_get k R = dict_get k D) ∧
    (∀ k v, dict_get k X = Some v → dict_get k R = Some v).
Proof.
  intros Hwf Hx Hlb HD Hrun. destruct n as [|n]; [done|].
  assert (val_ok (length h) (VRef lb) = true) as Hb.
  { apply val_ok_ref. by eapply lookup_lt_Some. }
  destruct (merge_spec n _ _ _ _ _ Hwf Hx Hb Hrun) as (Hwf' & Hupd & Hres).
  destruct (Hres r eq_refl)
    as (-> & Hlt & lx & X & lb' & ob & -> & [= <-] & HX & Hob & Hit).
  rewrite Hlb in Hob. inversion Hob; subst ob. clear Hob.
  destruct Hit as (R & HR & H1 & H2 & H3).
  assert (∀ k v, dict_get k X = Some v →
                 is_dict h v && dict_has k D = false) as Hno.
  { intros k v Hk. apply not_true_iff_false.
    intros [Hd [bk Hbk]%dict_has_true]%andb_true_iff.
    destruct (H3 k v bk Hk Hd Hbk)
      as (h1 & h2 & lv & d1 & rk & _ & _ & _ & _ & _ & Hrec & _).
    destruct (merge_into_scalar n v bk h1 (HD _ _ Hbk)) as [e He].
    congruence. }
  exists lx, X, R. split_and!; [done..| | |].
  - intros l o Hl. eapply upd_keep; [exact Hupd|done| |by intros []].
    pose proof (wf_heap_lookup _ _ _ Hwf HX) as [_ Hnd]%obj_ok_dict.
    intros Hsh. inversion Hsh
      as [la d k lv b Hla Hin Hd Hc|la d k lv lb'' d' bk l' Hla Hin Hd Hlb' Hbk Hsh'];
      subst; rewrite HX in Hla; inversion Hla; subst d;
      apply (dict_get_NoDup _ _ _ Hnd) in Hin;
      specialize (Hno _ _ Hin); rewrite Hd in Hno; simpl in Hno.
    + simpl in Hc. rewrite Hlb in Hc. congruence.
    + rewrite Hlb in Hlb'. inversion Hlb'; subst d'.
      apply dict_has_false in Hno. congruence.
  - intros k Hk. by rewrite (H1 k Hk).
  - intros k v Hk. apply (H2 k v Hk). by apply Hno.
Qed.

Lemma build_exchange_default h :
  build (TDict exchange_config_default) h
  = (h ++ [ODict exchange_default_items], Ok (VRef (length h))).
Proof. reflexivity. Qed.

Lemma build_backtest_default h :
  build (TDict backtest_config_default) h
  = (h ++ [ODict backtest_default_items], Ok (VRef (length h))).
Proof. reflexivity. Qed.

Lemma default_items_scalar D k v :
  D = exchange_default_items ∨ D = backtest_default_items →
  dict_get k D = Some v → is_ref v = false.
Proof.
  intros HD Hk%dict_get_elem.
  assert (forallb (λ kv, negb (is_ref kv.2)) D = true) as Hall
    by (destruct HD as [->| ->]; reflexivity).
  rewrite forallb_forall in Hall. apply list_elem_of_In, Hall in Hk.
  simpl in Hk. by destruct (is_ref v).
Qed.

Lemma obj_ok_scalars n D :
  NoDup (keys D) → (∀ k v, dict_get k D = Some v → is_ref v = false) →
  obj_ok n (ODict D) = true.
Proof.
  intros Hnd HD. apply obj_ok_dict. split; [|done].
  intros k v Hin%(dict_get_NoDup _ _ _ Hnd). apply HD in Hin.
  by destruct v.
Qed.

Lemma default_items_ok n D :
  D = exchange_default_items ∨ D = backtest_default_items →
  obj_ok n (ODict D) = true.
Proof.
  intros HD. apply obj_ok_scalars.
  - destruct HD as [->| ->]; by apply distinct_NoDup.
  - intros k v. by apply default_items_scalar.
Qed.

Lemma py_getitem_Ok b k h h' v :
  py_getitem b k h = (h', Ok v) →
  h' = h ∧ ∃ l d, b = VRef l ∧ h !! l = Some (ODict d) ∧ dict_get k d = Some v.
Proof.
  unfold py_getitem, bind, deref, ret, raise.
  destruct b as [| | | | |l]; try done.
  destruct (h !! l) as [[d|xs|xs]|] eqn:Hl; try done.
  destruct (dict_get k d) as [x|] eqn:Hk; [|done].
  intros [= <- <-]. split; [done|]. by exists l, d.
Qed.

Lemma conv_lookup_dict h h' l d :
  conv h h' → h !! l = Some (ODict d) →
  ∃ d', h' !! l = Some (ODict d') ∧
    (∀ k, dict_get k d = None → dict_get k d' = None) ∧
    (∀ k v, dict_get k d = Some v → is_list h v = false →
            dict_get k d' = Some v) ∧
    (∀ k l0 xs, dict_get k d = Some (VRef l0) → h !! l0 = Some (OList xs) →
       dict_get k d' = Some (VRef l0)
       ∨ ∃ lt, dict_get k d' = Some (VRef lt) ∧ h' !! lt = Some (OTuple xs)) ∧
    (∀ k v', dict_get k d' = Some v' →
       ∃ v, dict_get k d = Some v ∧ entry_conv h h' v v').
Proof.
  intros [_ Hobj] Hl. destruct (Hobj l _ Hl) as (d' & Hl' & Hkeys & Hent).
  exists d'. split_and!; [done| | | |].
  - intros k. rewrite !dict_get_None_keys. by rewrite Hkeys.
  - intros k v Hk Hnl. destruct (Hent k v Hk) as (v' & Hk' & Hc).
    destruct Hc as [->|(l0 & lt & xs & -> & Hl0 & _)]; [done|].
    simpl in Hnl. by rewrite Hl0 in Hnl.
  - intros k l0 xs Hk Hl0. destruct (Hent k _ Hk) as (v' & Hk' & Hc).
    destruct Hc as [->|(l1 & lt & ys & [= <-] & Hl1 & -> & _ & Ht)]; [by left|].
    right. exists lt. split; [done|]. congruence.
  - intros k v' Hk'.
    assert (is_Some (dict_get k d)) as [v Hk].
    { apply dict_has_true, dict_has_keys. rewrite <-Hkeys.
      apply dict_has_keys, dict_has_true. eauto. }
    destruct (Hent k v Hk) as (v'' & Hk'' & Hc). exists v.
    split; [done|]. congruence.
Qed.

Lemma is_list_scalar h v : is_ref v = false → is_list h v = false.
Proof. by destruct v. Qed.

Lemma is_dict_same h h' v :
  (∀ l o, h !! l = Some o → h' !! l = Some o) →
  val_ok (length h) v = true → is_dict h' v = is_dict h v.
Proof.
  intros Hsame Hv. destruct v as [| | | | |l]; try done. simpl.
  apply val_ok_ref, lookup_lt_is_Some_2 in Hv as [o Ho].
  by rewrite Ho, (Hsame _ _ Ho).
Qed.

(** A mapping with no mapping at a key of [B] merges onto [B] at once. *)
Lemma mergeable_onto n h la A lb B :
  wf_heap h = true →
  h !! la = Some (ODict A) → h !! lb = Some (ODict B) →
  (∀ k v, dict_get k A = Some v → is_dict h v = true → dict_get k B = None) →
  mergeable (S n) [] h (VRef la) (VRef lb) = true.
Proof.
  intros Hwf HA HB Hno. eapply mergeable_intro; [done..|].
  intros k v Hin Hd [bk Hbk]%dict_has_true.
  pose proof (wf_heap_lookup _ _ _ Hwf HA) as [_ Hnd]%obj_ok_dict.
  apply (dict_get_NoDup _ _ _ Hnd) in Hin.
  rewrite (Hno k v Hin Hd) in Hbk. done.
Qed.

Lemma merge_onto_returns n h la A lb B :
  wf_heap h = true →
  h !! la = Some (ODict A) → h !! lb = Some (ODict B) →
  (∀ k v, dict_get k A = Some v → is_dict h v = true → dict_get k B = None) →
  ∃ h' v, merge_a_into_b (S n) (VRef la) (VRef lb) h = (h', Ok v).
Proof.
  intros Hwf HA HB Hno. apply merge_total_fuel; [done| | |].
  - apply val_ok_ref. by eapply lookup_lt_Some.
  - apply val_ok_ref. by eapply lookup_lt_Some.
  - exists []. by eapply mergeable_onto.
Qed.

Lemma nested_S n seen h v :
  nested n seen h v = true → ∃ m, n = S m.
Proof. destruct n; [done|]. by eexists. Qed.

Lemma nested_entry n seen h l d k v :
  nested (S n) seen h (VRef l) = true → h !! l = Some (ODict d) →
  dict_get k d = Some v → is_dict h v = true →
  nested n (l :: seen) h v = true.
Proof.
  simpl. intros [_ H]%andb_true_iff Hl Hk Hd. rewrite Hl in H.
  rewrite forallb_forall in H.
  apply dict_get_elem, list_elem_of_In, H in Hk. simpl in Hk.
  by rewrite Hd in Hk.
Qed.

(** ** What the conversion visits *)

Lemma visits_is_dict h v l : visits h v l → is_dict h v = true.
Proof. intros [l0 d Hl|l0 d k x l' Hl _ _]; simpl; by rewrite Hl. Qed.

Lemma visits_target h v l : visits h v l → is_dict h (VRef l) = true.
Proof. induction 1 as [l d Hl|]; [|done]. simpl. by rewrite Hl. Qed.

Lemma visits_lt h v l : visits h v l → l < length h.
Proof.
  intros (? & d & [= <-] & Hl)%visits_target%is_dict_Some.
  by eapply lookup_lt_Some.
Qed.

(** The conversion changes no path through mappings. *)
Lemma visits_conv h h' v l :
  wf_heap h = true → conv h h' → val_ok (length h) v = true →
  visits h' v l ↔ visits h v l.
Proof.
  intros Hwf Hconv Hv. pose proof Hconv as [_ Hobj]. split.
  - intros H. induction H as [l0 d' Hl'|l0 d' k x' l' Hl' Hk' H IH].
    + apply val_ok_ref, lookup_lt_is_Some_2 in Hv as [o Ho].
      specialize (Hobj l0 o Ho). destruct o as [d|xs|xs]; [|congruence..].
      by eapply visits_here.
    + apply val_ok_ref, lookup_lt_is_Some_2 in Hv as [o Ho].
      pose proof (Hobj l0 o Ho) as Ho'. destruct o as [d|xs|xs]; [|congruence..].
      destruct (conv_lookup_dict _ _ _ _ Hconv Ho) as (d'' & Hl'' & _ & _ & _ & Hback).
      rewrite Hl' in Hl''. inversion Hl''; subst d''.
      destruct (Hback k x' Hk') as (x & Hk & Hc).
      destruct Hc as [->|(lx & lt & xs & -> & Hlx & -> & _ & Ht)].
      * eapply visits_below; [done..|]. apply IH.
        eapply wf_heap_val; [done..|]. by apply dict_get_elem.
      * apply visits_is_dict in H. simpl in H. by rewrite Ht in H.
  - intros H. induction H as [l0 d Hl|l0 d k x l' Hl Hk H IH].
    + destruct (Hobj l0 _ Hl) as (d' & Hl' & _). by eapply visits_here.
    + destruct (Hobj l0 _ Hl) as (d' & Hl' & _ & Hent).
      destruct (Hent k x Hk) as (x' & Hk' & Hc).
      destruct Hc as [->|(lx & lt & xs & -> & Hlx & _)].
      * eapply visits_below; [done..|]. apply IH.
        eapply wf_heap_val; [done..|]. by apply dict_get_elem.
      * apply visits_is_dict in H. simpl in H. by rewrite Hlx in H.
Qed.

(** In a store that agrees with [h] but at [lc], a path either is a path
    of [h] or comes to [lc]. *)
Lemma visits_but h h' lc v l :
  wf_heap h = true → val_ok (length h) v = true →
  (∀ l0 o, l0 ≠ lc → h !! l0 = Some o → h' !! l0 = Some o) →
  is_dict h' (VRef lc) = true →
  visits h v l → visits h' v l ∨ visits h' v lc.
Proof.
  intros Hwf Hv Hsame Hlc H.
  induction H as [l0 d Hl|l0 d k x l' Hl Hk H IH].
  - destruct (decide (l0 = lc)) as [->|Hne].
    + apply is_dict_Some in Hlc as (? & dc & [= <-] & Hdc).
      left. by eapply visits_here.
    + left. eapply visits_here. by apply Hsame.
  - destruct (decide (l0 = lc)) as [->|Hne].
    + apply is_dict_Some in Hlc as (? & dc & [= <-] & Hdc).
      right. by eapply visits_here.
    + assert (val_ok (length h) x = true) as Hx.
      { eapply wf_heap_val; [done..|]. by apply dict_get_elem. }
      destruct (IH Hx) as [?|?]; [left|right];
        (eapply visits_below; [by apply Hsame|done|done]).
Qed.

Lemma visits_but_back h h' lc v l :
  wf_heap h = true → val_ok (length h) v = true →
  (∀ l0 o, l0 ≠ lc → l0 < length h → h' !! l0 = Some o → h !! l0 = Some o) →
  visits h' v l → visits h v l ∨ visits h' v lc.
Proof.
  intros Hwf Hv Hsame H.
  induction H as [l0 d Hl0|l0 d k x l' Hl0 Hk H IH].
  - destruct (decide (l0 = lc)) as [->|Hne].
    + right. by eapply visits_here.
    + left. eapply visits_here. apply Hsame; [done| |done].
      by apply val_ok_ref in Hv.
  - destruct (decide (l0 = lc)) as [->|Hne].
    + right. by eapply visits_here.
    + apply val_ok_ref in Hv.
      assert (h !! l0 = Some (ODict d)) as Hl0' by by apply Hsame.
      assert (val_ok (length h) x = true) as Hx.
      { eapply wf_heap_val; [done..|]. by apply dict_get_elem. }
      destruct (IH Hx) as [?|?]; [left|right];
        (eapply visits_below; [done..|]); done.
Qed.

(** ** Mappings without lists are not cyclic *)

Lemma tupled_entry n h l d k v :
  tupled (S n) h (VRef l) = true → h !! l = Some (ODict d) →
  dict_get k d = Some v →
  is_list h v = false ∧ (is_dict h v = true → tupled n h v = true).
Proof.
  simpl. intros H Hl Hk. rewrite Hl in H. rewrite forallb_forall in H.
  apply dict_get_elem, list_elem_of_In, H in Hk. simpl in Hk.
  apply andb_true_iff in Hk as [Hnl Hd]. split.
  - by destruct (is_list h v).
  - intros Hisd. by rewrite Hisd in Hd.
Qed.

Lemma tupled_visits h v l :
  visits h v l → ∀ n, tupled n h v = true → ∃ m, m ≤ n ∧ tupled m h (VRef l) = true.
Proof.
  induction 1 as [l d Hl|l d k x l' Hl Hk H IH]; intros n Ht.
  - by exists n.
  - destruct n as [|n]; [done|].
    destruct (tupled_entry _ _ _ _ _ _ Ht Hl Hk) as [_ Hx].
    destruct (IH n (Hx (visits_is_dict _ _ _ H))) as (m & Hm & Htm).
    exists m. split; [lia|done].
Qed.

Lemma tupled_acyclic n h v l d k :
  tupled n h v = true → visits h v l →
  h !! l = Some (ODict d) → dict_get k d = Some v → False.
Proof.
  intros Ht Hvis Hl Hk.
  assert (∀ j i, i ≤ j → tupled i h v = true → False) as Hall;
    [|by apply (Hall n n)].
  induction j as [|j IH]; intros i Hi Hti.
  - assert (i = 0) as -> by lia. done.
  - destruct (tupled_visits _ _ _ Hvis i Hti) as (m & Hm & Htm).
    destruct m as [|m]; [done|].
    destruct (tupled_entry _ _ _ _ _ _ Htm Hl Hk) as [_ Hx].
    apply (IH m); [lia|]. apply Hx. by eapply visits_is_dict.
Qed.

(** ** The conversion and what it does not visit *)

Section conversion_frame.
Variable rec : val → M heap val.
Variable n : nat.
Hypothesis Hrec : convert_sound rec n.
Hypothesis Hfr : convert_frame rec.

Lemma convert_step_frame lc d k h h' r :
  wf_heap h = true → h !! lc = Some (ODict d) →
  (v <- py_getitem (VRef lc) k ;;
   isl <- isinstance_list v ;;
   if isl then
     t <- py_tuple v ;;
     py_setitem (VRef lc) k t
   else
     isd <- isinstance_dict v ;;
     if isd then
       c <- rec v ;;
       py_setitem (VRef lc) k c
     else ret tt) h = (h', r) →
  ∀ l o, h !! l = Some o → l ≠ lc →
         (∀ v, dict_get k d = Some v → ¬ visits h v l) → h' !! l = Some o.
Proof.
  intros Hwf Hlc Hrun l o Hl Hne Hnv.
  unfold bind in Hrun at 1. rewrite (run_py_getitem_dict h lc d k Hlc) in Hrun.
  destruct (dict_get k d) as [v|] eqn:Hk; cycle 1.
  { by inversion Hrun; subst. }
  assert (val_ok (length h) v = true) as Hv.
  { eapply wf_heap_val; [done..|]. by apply dict_get_elem. }
  unfold bind in Hrun at 1. unfold isinstance_list in Hrun at 1.
  destruct (is_list h v) eqn:Hisl.
  - apply is_list_Some in Hisl as (lv & xs & -> & Hlv).
    unfold py_tuple, bind at 1 2, deref, alloc in Hrun. rewrite Hlv in Hrun.
    assert ((h ++ [OTuple xs]) !! lc = Some (ODict d)) as Hlc1
      by by apply lookup_app_l_Some.
    rewrite (run_py_setitem_dict _ _ _ k (VRef (length h)) Hlc1) in Hrun.
    inversion Hrun; subst h' r.
    rewrite list_lookup_insert_ne by done. by apply lookup_app_l_Some.
  - unfold bind in Hrun at 1. unfold isinstance_dict in Hrun at 1.
    destruct (is_dict h v) eqn:Hisd; [|by inversion Hrun; subst].
    apply bind_inv in Hrun as [(e & Hr & ->)|(c & h1 & Hr & Hrun)].
    + by apply (Hfr v h h' _ Hwf Hv Hr l o Hl), Hnv.
    + pose proof (Hfr v h h1 _ Hwf Hv Hr l o Hl (Hnv v eq_refl)) as Hl1.
      unfold py_setitem, bind, deref, store, raise in Hrun.
      destruct (h1 !! lc) as [[d1|xs|xs]|]; inversion Hrun; subst h' r;
        try done.
      by rewrite list_lookup_insert_ne.
Qed.

Lemma convert_loop_frame h0 lc d0 ks :
  wf_heap h0 = true → h0 !! lc = Some (ODict d0) →
  ∀ h h' r,
    wf_heap h = true → conv h0 h →
    convert_loop rec (VRef lc) ks h = (h', r) →
    ∀ l o, h0 !! l = Some o → ¬ visits h0 (VRef lc) l →
           h !! l = Some o → h' !! l = Some o.
Proof.
  intros Hwf0 Hlc0. induction ks as [|k ks IH]; intros h h' r Hwf Hconv Hrun l o Hl0 Hnv Hl.
  - by inversion Hrun; subst.
  - rewrite convert_loop_cons in Hrun.
    assert ((step <- (v <- py_getitem (VRef lc) k ;;
                      isl <- isinstance_list v ;;
                      if isl then
                        t <- py_tuple v ;;
                        py_setitem (VRef lc) k t
                      else
                        isd <- isinstance_dict v ;;
                        if isd then
                          c <- rec v ;;
                          py_setitem (VRef lc) k c
                        else ret tt) ;;
             convert_loop rec (VRef lc) ks) h = (h', r)) as Hrun'.
    { rewrite <-Hrun. unfold bind.
      destruct (py_getitem (VRef lc) k h) as [h1 [v|e]]; [|done].
      destruct (isinstance_list v h1) as [h2 [isl|e]]; done. }
    clear Hrun.
    destruct (conv_lookup_dict _ _ _ _ Hconv Hlc0) as (d & Hlc & _ & _ & _ & Hback).
    assert (l ≠ lc) as Hne.
    { intros ->. apply Hnv. by eapply visits_here. }
    assert (∀ v, dict_get k d = Some v → ¬ visits h v l) as Hnv'.
    { intros v Hk Hvis. destruct (Hback k v Hk) as (v0 & Hk0 & Hc).
      assert (val_ok (length h0) v0 = true) as Hv0.
      { eapply wf_heap_val; [done..|]. by apply dict_get_elem. }
      destruct Hc as [->|(lx & lt & xs & -> & Hlx & -> & _ & Ht)].
      - apply Hnv. eapply visits_below; [done..|].
        by apply (visits_conv h0 h).
      - apply visits_is_dict in Hvis. simpl in Hvis. by rewrite Ht in Hvis. }
    assert (is_dict h (VRef lc) = true) as Hd by (simpl; by rewrite Hlc).
    apply bind_inv in Hrun' as [(e & Hs & ->)|([] & h1 & Hs & Hrun)].
    + by eapply convert_step_frame.
    + pose proof (convert_step_frame _ _ _ _ _ _ Hwf Hlc Hs l o Hl Hne Hnv') as Hl1.
      apply (convert_step rec n Hrec) in Hs as (Hwf1 & Hc1 & _); [|done..].
      eapply IH; [exact Hwf1| |exact Hrun|done..].
      by eapply conv_trans.
Qed.

End conversion_frame.

Lemma convert_frame_fuel n : convert_frame (_convert_all_list_to_tuple n).
Proof.
  induction n as [|n IH]; intros config h h' r Hwf Hc Hrun l o Hl Hnv.
  { by inversion Hrun; subst. }
  simpl in Hrun.
  apply bind_inv in Hrun as [(e & Hits & ->)|(its & h1 & Hits & Hrun)];
    apply py_items_inv in Hits as [-> Hits]; [done|].
  destruct (Hits its eq_refl) as (lc & -> & Hlc).
  apply bind_inv in Hrun as [(e & Hloop & ->)|([] & h2 & Hloop & Hrun)].
  - eapply (convert_loop_frame _ n (convert_sound_fuel n) IH h lc its);
      [done|done|exact Hwf|apply conv_refl|exact Hloop|done..].
  - inversion Hrun; subst h' r.
    eapply (convert_loop_frame _ n (convert_sound_fuel n) IH h lc its);
      [done|done|exact Hwf|apply conv_refl|exact Hloop|done..].
Qed.

(** ** The converted entries *)

(** A mapping that a conversion which returns has visited holds its
    entries converted. *)
Lemma conv_visited n h h' c l d :
  wf_heap h = true → conv h h' → val_ok (length h) c = true →
  tupled n h' c = true → visits h c l → h !! l = Some (ODict d) →
  ∃ d', h' !! l = Some (ODict d') ∧ converted_items h h' d d'.
Proof.
  intros Hwf Hconv Hc Ht Hvis Hl. pose proof Hconv as [_ Hobj].
  destruct (Hobj l _ Hl) as (d' & Hl' & Hkeys & Hent).
  exists d'. split; [done|]. split; [done|].
  apply (visits_conv h h' c l Hwf Hconv Hc) in Hvis.
  destruct (tupled_visits _ _ _ Hvis n Ht) as (m & _ & Htm).
  destruct m as [|m]; [done|].
  intros k v Hk. destruct (Hent k v Hk) as (v' & Hk' & Hcv).
  exists v'. split; [done|].
  destruct (tupled_entry _ _ _ _ _ _ Htm Hl' Hk') as [Hnl _].
  assert (val_ok (length h) v = true) as Hv.
  { eapply wf_heap_val; [done..|]. by apply dict_get_elem. }
  destruct Hcv as [->|(lv & lt & xs & -> & Hlv & -> & Hlt & Htup)].
  - rewrite (conv_is_list h h') in Hnl by done.
    unfold converted_entry. destruct v as [| | | | |lv]; try done.
    simpl in Hnl. by destruct (h !! lv) as [[?|?|?]|].
  - unfold converted_entry. rewrite Hlv. by exists lt.
Qed.

(** The converted entries, seen from stores that hold the same lists. *)
Lemma converted_items_move h1 h4 h5 h' d d' :
  length h1 ≤ length h4 →
  (∀ k v, dict_get k d = Some v → val_ok (length h1) v = true) →
  (∀ l, l < length h1 → is_list h4 (VRef l) = is_list h1 (VRef l)) →
  (∀ l xs, h4 !! l = Some (OList xs) → l < length h1 → h1 !! l = Some (OList xs)) →
  (∀ l o, h5 !! l = Some o → h' !! l = Some o) →
  converted_items h4 h5 d d' → converted_items h1 h' d d'.
Proof.
  intros Hlen Hvals Hkind Hlist Hsame [Hkeys Hent]. split; [done|].
  intros k v Hk. destruct (Hent k v Hk) as (v' & Hk' & Hc).
  exists v'. split; [done|]. specialize (Hvals k v Hk).
  unfold converted_entry in *. destruct v as [| | | | |lv]; try done.
  apply val_ok_ref in Hvals. specialize (Hkind lv Hvals). simpl in Hkind.
  destruct (h4 !! lv) as [[?|xs|?]|] eqn:H4.
  - by destruct (h1 !! lv) as [[?|?|?]|].
  - rewrite (Hlist lv xs H4 Hvals).
    destruct Hc as (lt & -> & Hlt & Ht). exists lt.
    split_and!; [done|lia|by apply Hsame].
  - by destruct (h1 !! lv) as [[?|?|?]|].
  - by destruct (h1 !! lv) as [[?|?|?]|].
Qed.

(** A mapping merged onto a mapping of scalars, when the merge returns:
    the result is the update of the scalars with the mapping's items. *)
Lemma merge_onto_scalars_exact n h x lb D h' r :
  wf_heap h = true → val_ok (length h) x = true →
  h !! lb = Some (ODict D) →
  (∀ k v, dict_get k D = Some v → is_ref v = false) →
  merge_a_into_b n x (VRef lb) h = (h', Ok r) →
  ∃ lx X,
    x = VRef lx ∧ h !! lx = Some (ODict X) ∧
    r = VRef (length h) ∧ h' = h ++ [ODict (dict_update X D)].
Proof.
  intros Hwf Hx Hlb HD Hrun. destruct n as [|n]; [done|].
  assert (val_ok (length h) (VRef lb) = true) as Hb.
  { apply val_ok_ref. by eapply lookup_lt_Some. }
  destruct (merge_spec n _ _ _ _ _ Hwf Hx Hb Hrun) as (Hwf' & Hupd & Hres).
  destruct (Hres r eq_refl)
    as (-> & Hlt & lx & X & lb' & ob & -> & [= <-] & HX & Hob & Hit).
  rewrite Hlb in Hob. inversion Hob; subst ob. clear Hob.
  destruct Hit as (R & HR & H1 & H2 & H3).
  exists lx, X. split_and!; [done..|].
  rewrite (merge_update_run n h lx lb X D) in Hrun; [by inversion Hrun|done..|].
  intros k v Hin Hd. apply not_true_iff_false. intros [bk Hbk]%dict_has_true.
  pose proof (wf_heap_lookup _ _ _ Hwf HX) as [_ Hnd]%obj_ok_dict.
  apply (dict_get_NoDup _ _ _ Hnd) in Hin.
  destruct (H3 k v bk Hin Hd Hbk)
    as (h1 & h2 & lv & d1 & rk & _ & _ & _ & _ & _ & Hrec & _).
  destruct (merge_into_scalar n v bk h1 (HD _ _ Hbk)) as [e He].
  congruence.
Qed.

(** The assembly, step by step: what it returns when it returns, and that
    it returns for a configuration that [assembles]. *)
Lemma apply_defaults_run n h1 lc C h' r :
  wf_heap h1 = true → h1 !! lc = Some (ODict C) →
  apply_defaults n (VRef lc) h1 = (h', r) →
  match r with
  | Ok v => assembled n h1 lc C h' v
  | Raise _ => ¬ assembles n h1 lc C
  end.
Proof.
  intros Hwf1 Hlc Hrun. unfold apply_defaults in Hrun.
  rewrite (bind_ok _ _ _ _ _ (build_exchange_default h1)) in Hrun.
  set (D := exchange_default_items) in *.
  set (h2 := h1 ++ [ODict D]) in *.
  assert (lc < length h1) as Hlclt by by eapply lookup_lt_Some.
  assert (length h2 = S (length h1)) as Hlen2
    by (unfold h2; rewrite length_app; simpl; lia).
  assert (wf_heap h2 = true) as Hwf2.
  { apply wf_heap_alloc; [done|]. apply default_items_ok. by left. }
  assert (∀ l o, h1 !! l = Some o → h2 !! l = Some o) as Hsame2.
  { intros l o Hl. by apply lookup_app_l_Some. }
  pose proof (Hsame2 _ _ Hlc) as Hlc2.
  assert (h2 !! length h1 = Some (ODict D)) as HD2.
  { unfold h2. rewrite lookup_app_r by done. by rewrite Nat.sub_diag. }
  (* [backtest_config["exchange"]] *)
  unfold bind in Hrun at 1. rewrite (run_py_getitem_dict _ _ _ _ Hlc2) in Hrun.
  destruct (dict_get "exchange" C) as [x|] eqn:Hx; cycle 1.
  { inversion Hrun; subst h' r. intros (lx & X & Hex & _). congruence. }
  assert (val_ok (length h1) x = true) as Hxok.
  { eapply wf_heap_val; [done..|]. by apply dict_get_elem. }
  assert (val_ok (length h2) x = true) as Hxok2
    by (eapply val_ok_mono; [|done]; lia).
  assert (val_ok (length h2) (VRef (length h1)) = true) as Hdok2
    by (apply val_ok_ref; lia).
  (* the merge onto the exchange defaults *)
  apply bind_inv in Hrun as [(e & Hm & ->)|(m & h3 & Hm & Hrun)].
  { intros (lx & X & Hex & HX & Hnest & HnoX & _).
    rewrite Hx in Hex. inversion Hex; subst x. clear Hex.
    apply nested_S in Hnest as [n' ->].
    destruct (merge_onto_returns n' h2 lx X (length h1) D Hwf2 (Hsame2 _ _ HX) HD2)
      as (h3 & v & Hv); [|congruence].
    intros k v Hk Hd. apply (HnoX k v Hk).
    rewrite <-Hd. symmetry. apply is_dict_same; [done|].
    eapply wf_heap_val; [exact Hwf1|exact HX|]. by apply dict_get_elem. }
  destruct (merge_sound_fuel n _ _ _ _ _ Hwf2 Hxok2 Hdok2 Hm) as (Hwf3 & _ & _).
  destruct (merge_onto_scalars_exact n h2 x (length h1) D h3 m Hwf2 Hxok2 HD2)
    as (lx & X & -> & HX2 & -> & He3);
    [intros k v; apply default_items_scalar; by left|done|].
  set (E0 := dict_update X D) in *.
  assert (h1 !! lx = Some (ODict X)) as HX.
  { apply val_ok_ref in Hxok. unfold h2 in HX2.
    by rewrite lookup_app_l in HX2. }
  pose proof (wf_heap_NoDup _ _ _ Hwf1 HX) as HndX.
  assert (length h3 = S (length h2)) as Hlen3
    by (rewrite He3, length_app; simpl; lia).
  assert (h3 !! length h2 = Some (ODict E0)) as HE0
    by (rewrite He3; apply lookup_last).
  assert (∀ l o, h2 !! l = Some o → h3 !! l = Some o) as Hsame3.
  { intros l o Hl. rewrite He3. by apply lookup_app_l_Some. }
  assert (∀ k, dict_get k X = None → dict_get k E0 = dict_get k D) as HE0n.
  { intros k Hk. unfold E0. rewrite dict_get_update by done. by rewrite Hk. }
  assert (∀ k v, dict_get k X = Some v → dict_get k E0 = Some v) as HE0s.
  { intros k v Hk. unfold E0. rewrite dict_get_update by done. by rewrite Hk. }
  assert (∀ l o, h1 !! l = Some o → h3 !! l = Some o) as Hsame13 by auto.
  (* [backtest_config["exchange"] = merged] *)
  pose proof (Hsame3 _ _ Hlc2) as Hlc3.
  unfold bind in Hrun at 1.
  rewrite (run_py_setitem_dict _ _ _ "exchange" (VRef (length h2)) Hlc3) in Hrun.
  set (C4 := dict_set "exchange" (VRef (length h2)) C) in *.
  set (h4 := <[lc:=ODict C4]> h3) in *.
  assert (length h4 = length h3) as Hlen4 by apply length_insert.
  assert (wf_heap h4 = true) as Hwf4.
  { apply wf_heap_insert; [done|]. apply obj_ok_set.
    - by apply (wf_heap_lookup h3 lc).
    - apply val_ok_ref. lia. }
  assert (h4 !! lc = Some (ODict C4)) as Hlc4.
  { apply list_lookup_insert_eq. lia. }
  assert (∀ l o, l ≠ lc → h3 !! l = Some o → h4 !! l = Some o) as Hsame4.
  { intros l o Hne Hl. unfold h4. by rewrite list_lookup_insert_ne. }
  assert (h4 !! length h2 = Some (ODict E0)) as HE4 by (apply Hsame4; [lia|done]).
  assert (∀ v, val_ok (length h1) v = true → is_dict h4 v = is_dict h1 v)
    as Hkind14.
  { intros v Hv. unfold h4. rewrite (is_dict_insert_dict _ _ _ _ _ Hlc3).
    by apply is_dict_same. }
  (* [backtest_config["exchange"]] again *)
  unfold bind in Hrun at 1. rewrite (run_py_getitem_dict _ _ _ _ Hlc4) in Hrun.
  unfold C4 in Hrun at 1. rewrite dict_get_set_eq in Hrun.
  (* the conversion *)
  assert (val_ok (length h4) (VRef (length h2)) = true) as Hm4
    by (apply val_ok_ref; lia).
  apply bind_inv in Hrun as [(e & Hconv & ->)|(c & h5 & Hconv & Hrun)].
  { intros (lx' & X' & Hex & HX' & Hnest & _).
    rewrite Hx in Hex. inversion Hex; subst lx'. clear Hex.
    rewrite HX in HX'. inversion HX'; subst X'. clear HX'.
    destruct (nested_S _ _ _ _ Hnest) as [n' ->].
    destruct (convert_total_fuel (S n') (VRef (length h2)) h4 Hwf4) as [h5 H5];
      [|congruence].
    simpl. rewrite HE4. apply forallb_forall. intros [k v] Hin%list_elem_of_In.
    pose proof (wf_heap_lookup _ _ _ Hwf3 HE0) as [_ Hnd]%obj_ok_dict.
    apply (dict_get_NoDup _ _ _ Hnd) in Hin. simpl.
    destruct (is_dict h4 v) eqn:Hd; [|done]. simpl.
    destruct (dict_get k X) as [v'|] eqn:HXk.
    - rewrite (HE0s _ _ HXk) in Hin. inversion Hin; subst v'. clear Hin.
      assert (val_ok (length h1) v = true) as Hv.
      { eapply wf_heap_val; [exact Hwf1|exact HX|]. by apply dict_get_elem. }
      rewrite (Hkind14 v Hv) in Hd.
      pose proof (nested_entry _ _ _ _ _ _ _ Hnest HX HXk Hd) as Hnv.
      apply (nested_nest_ok n' [lx; lc]). unfold h4.
      apply (nested_insert _ _ _ _ C); [done|apply list_elem_of_further, list_elem_of_here|].
      by apply (nested_same _ _ h1).
    - rewrite (HE0n _ HXk) in Hin.
      apply (default_items_scalar D) in Hin; [|by left].
      by destruct v. }
  destruct (convert_sound_fuel n _ _ _ _ Hwf4 Hm4 Hconv) as (Hwf5 & Hc45 & Hres).
  destruct (Hres c eq_refl) as [-> Htup5].
  destruct (conv_lookup_dict _ _ _ _ Hc45 Hlc4)
    as (C5 & Hlc5 & HC5n & HC5s & _ & HC5e).
  assert (dict_get "exchange" C5 = Some (VRef (length h2))) as Hex5.
  { apply HC5s; [apply dict_get_set_eq|]. simpl. by rewrite HE4. }
  (* the conversion has not come to the configuration itself *)
  assert (¬ visits h4 (VRef (length h2)) lc) as Hnlc.
  { intros Hvis. apply (visits_conv h4 h5 _ _ Hwf4 Hc45 Hm4) in Hvis.
    exact (tupled_acyclic n h5 _ lc C5 "exchange" Htup5 Hvis Hlc5 Hex5). }
  assert (C5 = C4) as ->.
  { pose proof (convert_frame_fuel n _ _ _ _ Hwf4 Hm4 Hconv lc _ Hlc4 Hnlc) as H.
    rewrite Hlc5 in H. by inversion H. }
  (* [backtest_config["exchange"] = converted] *)
  unfold bind in Hrun at 1.
  rewrite (run_py_setitem_dict _ _ _ "exchange" (VRef (length h2)) Hlc5) in Hrun.
  rewrite (dict_set_same _ _ _ Hex5) in Hrun.
  rewrite list_insert_id in Hrun by done.
  (* the merge onto the top-level defaults *)
  rewrite (bind_ok _ _ _ _ _ (build_backtest_default h5)) in Hrun.
  set (T := backtest_default_items) in *.
  set (h6 := h5 ++ [ODict T]) in *.
  pose proof Hc45 as [Hlen5 _].
  assert (wf_heap h6 = true) as Hwf6.
  { apply wf_heap_alloc; [done|]. apply default_items_ok. by right. }
  assert (h6 !! length h5 = Some (ODict T)) as HT6.
  { unfold h6. rewrite lookup_app_r by done. by rewrite Nat.sub_diag. }
  assert (∀ l o, h5 !! l = Some o → h6 !! l = Some o) as Hsame6.
  { intros l o Hl. by apply lookup_app_l_Some. }
  assert (val_ok (length h6) (VRef lc) = true) as Hc6.
  { apply val_ok_ref. unfold h6. rewrite length_app. simpl. lia. }
  destruct r as [r|e]; cycle 1.
  { intros (lx' & X' & _ & _ & Hnest & _ & HnoC).
    destruct (nested_S _ _ _ _ Hnest) as [n' ->].
    destruct (merge_onto_returns n' h6 lc C4 (length h5) T Hwf6
                (Hsame6 _ _ Hlc5) HT6) as (h7 & v & Hv); [|congruence].
    intros k v Hk Hd. destruct (HC5e k v Hk) as (v0 & Hk0 & Hcv).
    destruct (decide (k = "exchange")) as [->|Hne]; [done|].
    unfold C4 in Hk0. rewrite dict_get_set_ne in Hk0 by done.
    assert (val_ok (length h1) v0 = true) as Hv0.
    { eapply wf_heap_val; [exact Hwf1|exact Hlc|]. by apply dict_get_elem. }
    destruct Hcv as [->|(l & lt & xs & -> & Hl & -> & _ & Ht)].
    - apply (HnoC k v0 Hk0). rewrite <-(Hkind14 v0 Hv0).
      rewrite <-(conv_is_dict h4 h5); [|done|].
      + rewrite <-Hd. symmetry. apply is_dict_same; [done|].
        apply (val_ok_mono (length h1)); [lia|done].
      + apply (val_ok_mono (length h1)); [lia|done].
    - simpl in Hd. by rewrite (Hsame6 _ _ Ht) in Hd. }
  destruct (merge_onto_scalars_exact n h6 (VRef lc) (length h5) T h' r Hwf6 Hc6 HT6)
    as (lc' & C6 & [= <-] & HC6 & -> & ->);
    [intros k v; apply default_items_scalar; by right|done|].
  rewrite (Hsame6 _ _ Hlc5) in HC6. inversion HC6; subst C6. clear HC6.
  (* the stores, from the first to the last *)
  assert (length h5 < length h6) as Hlen6
    by (unfold h6; rewrite length_app; simpl; lia).
  assert (∀ l o, h5 !! l = Some o →
                 (h6 ++ [ODict (dict_update C4 T)]) !! l = Some o) as Hsame57.
  { intros l o Hl. by apply lookup_app_l_Some, Hsame6. }
  assert (∀ l o, l ≠ lc → h1 !! l = Some o → h4 !! l = Some o) as Hsame14
    by auto.
  assert (∀ l o, l ≠ lc → l < length h1 → h4 !! l = Some o → h1 !! l = Some o)
    as Hback41.
  { intros l o Hne Hl Ho. apply lookup_lt_is_Some_2 in Hl as [o' Ho'].
    rewrite (Hsame14 _ _ Hne Ho') in Ho. congruence. }
  assert (∀ l, l < length h1 → is_list h4 (VRef l) = is_list h1 (VRef l))
    as Hlists.
  { intros l Hl. simpl. destruct (decide (l = lc)) as [->|Hne].
    - by rewrite Hlc4, Hlc.
    - apply lookup_lt_is_Some_2 in Hl as [o Ho].
      by rewrite Ho, (Hsame14 _ _ Hne Ho). }
  assert (∀ l xs, h4 !! l = Some (OList xs) → l < length h1 →
                  h1 !! l = Some (OList xs)) as Hlist41.
  { intros l xs Hl Hlt. apply Hback41; [|done..]. intros ->. congruence. }
  assert (∀ k v, dict_get k E0 = Some v →
                 dict_get k X = Some v
                 ∨ (dict_get k X = None ∧ is_ref v = false)) as HE0v.
  { intros k v Hk. unfold E0 in Hk. rewrite dict_get_update in Hk by done.
    destruct (dict_get k X) as [v'|]; [left; congruence|right].
    split; [done|]. by apply (default_items_scalar D k v); [left|]. }
  assert (∀ k v, dict_get k X = Some v → val_ok (length h1) v = true) as HXok.
  { intros k v Hk. eapply wf_heap_val; [exact Hwf1|exact HX|].
    by apply dict_get_elem. }
  assert (∀ l, inside h1 X l → l ≠ lc ∧ visits h4 (VRef (length h2)) l) as Hin4.
  { intros l (k & v & Hk & Hvis).
    assert (visits h4 v l ∨ visits h4 v lc) as [Hv4|Hv4].
    { apply (visits_but h1); [done|by eapply HXok|done| |done].
      simpl. by rewrite Hlc4. }
    - assert (visits h4 (VRef (length h2)) l) as Hvl
        by (eapply visits_below; [exact HE4|by apply HE0s|done]).
      split; [|done]. by intros ->.
    - destruct Hnlc. eapply visits_below; [exact HE4|by apply HE0s|done]. }
  assert (∀ l, l < length h1 → visits h4 (VRef (length h2)) l → inside h1 X l)
    as Hin1.
  { intros l Hl Hvis.
    inversion Hvis as [l0 d Hl0|l0 d k v l' Hl0 Hk Hv]; subst; [lia|].
    rewrite HE4 in Hl0. inversion Hl0; subst d. clear Hl0.
    destruct (HE0v k v Hk) as [HXk|[_ Hs]]; cycle 1.
    { apply visits_is_dict in Hv. by destruct v. }
    destruct (visits_but_back h1 h4 lc v l Hwf1 (HXok _ _ HXk) Hback41 Hv)
      as [Hv1|Hvc].
    - by exists k, v.
    - destruct Hnlc. eapply visits_below; [exact HE4|exact Hk|done]. }
  destruct (conv_visited n h4 h5 (VRef (length h2)) (length h2) E0
              Hwf4 Hc45 Hm4 Htup5 (visits_here _ _ _ HE4) HE4)
    as (E & HE5 & HEconv).
  exists lx, X, (length h2), E, (length h6).
  split_and!; [done|done|done|lia|lia| | | | | | |].
  - by rewrite lookup_last.
  - by apply Hsame57.
  - eapply (converted_items_move h1 h4 h5); [lia| |done|done|done|done].
    intros k v Hk. destruct (HE0v k v Hk) as [HXk|[_ Hs]]; [by eapply HXok|].
    by destruct v.
  - apply (tupled_conv n h5); [done| |apply val_ok_ref; lia|done].
    apply conv_same; [rewrite length_app; lia|done].
  - by apply Hsame57.
  - intros l d Hins Hl. destruct (Hin4 l Hins) as [Hne Hvis].
    destruct (conv_visited n h4 h5 (VRef (length h2)) l d
                Hwf4 Hc45 Hm4 Htup5 Hvis (Hsame14 _ _ Hne Hl))
      as (d' & Hl5 & Hdconv).
    exists d'. split; [by apply Hsame57|].
    eapply (converted_items_move h1 h4 h5); [lia| |done|done|done|done].
    intros k v Hk. eapply wf_heap_val; [exact Hwf1|exact Hl|].
    by apply dict_get_elem.
  - intros l o Hl Hne Hnin. apply Hsame57.
    apply (convert_frame_fuel n _ _ _ _ Hwf4 Hm4 Hconv); [by apply Hsame14|].
    intros Hvis. apply Hnin, Hin1; [by eapply lookup_lt_Some|done].
Qed.

(** C3 (amended).  Assembling the configuration of a file that loads to
    the mapping [C].  When [C] has no key [exchange], a key error is
    raised.  When the assembly returns, its result is [assembled]: a new
    mapping, the top-level defaults updated with the items of [C], that
    holds at [exchange] a new mapping, the exchange defaults updated with
    the items of the exchange section [X] of [C], in which every list held
    at a key has been replaced by a new tuple of the same elements; the
    mappings nested in the exchange section through keys have been
    converted in the same way, in place, and nothing else has changed but
    the entry [exchange] of [C] itself.  The elements of a list are not
    looked at: a list inside a list or a tuple stays a list.  And the
    assembly returns, within the recursion depth [n], for the
    configurations that [assembles] describes. *)
Theorem get_backtest_config_fromfile_assembles
    abspath files tmp_dir tmp_module n path w w1 lc C :
  wf_heap (w_heap w) = true →
  parse_backtest_config abspath files tmp_dir tmp_module n path w
  = (w1, Ok (VRef lc)) →
  w_heap w1 !! lc = Some (ODict C) →
  (dict_get "exchange" C = None →
   ∃ w', get_backtest_config_fromfile abspath files tmp_dir tmp_module n path w
         = (w', Raise (KeyError "exchange")))
  ∧ (∀ w' r,
       get_backtest_config_fromfile abspath files tmp_dir tmp_module n path w
       = (w', Ok r) →
       assembled n (w_heap w1) lc C (w_heap w') r)
  ∧ (assembles n (w_heap w1) lc C →
     ∃ w' r,
       get_backtest_config_fromfile abspath files tmp_dir tmp_module n path w
       = (w', Ok r)).
Proof.
  intros Hwf Hparse Hlc.
  destruct (parse_sound _ _ _ _ _ _ _ _ _ Hwf Hparse) as [(Hwf1 & _) _].
  unfold get_backtest_config_fromfile.
  rewrite (bind_ok _ _ _ _ _ Hparse). split_and!.
  - intros Hx. eexists. apply lift_run. unfold apply_defaults.
    rewrite (bind_ok _ _ _ _ _ (build_exchange_default (w_heap w1))).
    unfold bind at 1. erewrite run_py_getitem_dict; cycle 1.
    { apply lookup_app_l_Some. exact Hlc. }
    by rewrite Hx.
  - intros w' r (h' & Hrun & ->)%lift_inv. simpl.
    exact (apply_defaults_run n (w_heap w1) lc C h' (Ok r) Hwf1 Hlc Hrun).
  - intros Hpre.
    destruct (apply_defaults n (VRef lc) (w_heap w1)) as [h' [r|e]] eqn:Hrun.
    + eexists _, r. by apply lift_run.
    + by destruct (apply_defaults_run n (w_heap w1) lc C h' (Raise e) Hwf1 Hlc Hrun).
Qed.

Lemma get_backtest_config_fromfile_assembles_witness :
  ∃ w' lr R le E lt S ls,
    get_backtest_config_fromfile ex_abspath ex_files ex_tmp_dir ex_tmp_module 3
      "c.py" ex_world = (w', Ok (VRef lr))
    ∧ w_heap w' !! lr = Some (ODict R)
    ∧ dict_get "exchange" R = Some (VRef le)
    ∧ w_heap w' !! le = Some (ODict E)
    ∧ dict_get "open_cost" E = Some (VFloat 0.01)
    ∧ dict_get "close_cost" E = Some (VFloat 0.0015)
    ∧ dict_get "limits" E = Some (VRef lt)
    ∧ w_heap w' !! lt = Some (OTuple [VInt 1; VInt 2])
    ∧ dict_get "sub" E = Some (VRef 2)
    ∧ w_heap w' !! 2 = Some (ODict S)
    ∧ dict_get "days" S = Some (VRef ls)
    ∧ w_heap w' !! ls = Some (OTuple [])
    ∧ tupled 3 (w_heap w') (VRef le) = true
    ∧ dict_get "concurrency" R = Some (VInt (-1)).
Proof.
  pose (w1 := (parse_backtest_config ex_abspath ex_files ex_tmp_dir
                 ex_tmp_module 3 "c.py" ex_world).1).
  pose (C := [("exchange", VRef 3)]).
  pose (X := [("open_cost", VFloat 0.01); ("limits", VRef 0); ("sub", VRef 2)]).
  assert (wf_heap (w_heap ex_world) = true) as H1 by reflexivity.
  assert (parse_backtest_config ex_abspath ex_files ex_tmp_dir ex_tmp_module 3
            "c.py" ex_world = (w1, Ok (VRef 4))) as H2 by reflexivity.
  assert (w_heap w1 !! 4 = Some (ODict C)) as H3 by reflexivity.
  assert (w_heap w1 !! 3 = Some (ODict X)) as H4 by reflexivity.
  assert (w_heap w1 !! 0 = Some (OList [VInt 1; VInt 2])) as H5 by reflexivity.
  assert (nested 3 [4] (w_heap w1) (VRef 3) = true) as H6 by reflexivity.
  assert (is_dict (w_heap w1) (VRef 3) = true) as H7 by reflexivity.
  assert (w_heap w1 !! 2 = Some (ODict [("days", VRef 1)])) as H9 by reflexivity.
  assert (w_heap w1 !! 1 = Some (OList [])) as H10 by reflexivity.
  clearbody w1.
  assert (assembles 3 (w_heap w1) 4 C) as H8.
  { exists 3, X. split_and!; [done..| |].
    - intros k v Hk%dict_get_elem Hd.
      apply elem_of_cons in Hk as [Hk|Hk]; [by inversion Hk; subst|].
      apply elem_of_cons in Hk as [Hk|Hk].
      { inversion Hk; subst. simpl in Hd. by rewrite H5 in Hd. }
      apply elem_of_cons in Hk as [Hk|Hk]; [by inversion Hk; subst|].
      by apply elem_of_nil in Hk.
    - intros k v Hk%dict_get_elem Hd.
      apply elem_of_cons in Hk as [Hk|Hk]; [by inversion Hk; subst|].
      by apply elem_of_nil in Hk. }
  destruct (get_backtest_config_fromfile_assembles ex_abspath ex_files
              ex_tmp_dir ex_tmp_module 3 "c.py" ex_world w1 4 C H1 H2 H3)
    as (_ & Hres & Hret).
  destruct (Hret H8) as (w' & r & Hrun).
  destruct (Hres w' r Hrun)
    as (lx & X' & le & E & lr & Hx & HX & Hr & _ & _ & HR & HE & [_ Hent]
        & Htup & _ & Hins & _).
  inversion Hx; subst lx. clear Hx.
  rewrite H4 in HX. inversion HX; subst X'. clear HX.
  destruct (Hent "open_cost" (VFloat 0.01) eq_refl) as (v1 & Hv1 & Hc1).
  destruct (Hent "close_cost" (VFloat 0.0015) eq_refl) as (v2 & Hv2 & Hc2).
  destruct (Hent "limits" (VRef 0) eq_refl) as (v3 & Hv3 & Hc3).
  destruct (Hent "sub" (VRef 2) eq_refl) as (v4 & Hv4 & Hc4).
  simpl in Hc1, Hc2. subst v1 v2.
  unfold converted_entry in Hc3, Hc4. rewrite H5 in Hc3. rewrite H9 in Hc4.
  destruct Hc3 as (lt & -> & _ & Ht). subst v4.
  destruct (Hins 2 [("days", VRef 1)]) as (S & HS & [_ HSent]); [|exact H9|].
  { exists "sub", (VRef 2). split; [reflexivity|]. by eapply visits_here. }
  destruct (HSent "days" (VRef 1) eq_refl) as (v5 & Hv5 & Hc5).
  unfold converted_entry in Hc5. rewrite H10 in Hc5.
  destruct Hc5 as (ls & -> & _ & Hls).
  eexists w', lr, _, le, E, lt, S, ls.
  split; [rewrite <-Hr; exact Hrun|].
  split; [exact HR|]. split; [reflexivity|]. split; [exact HE|].
  split; [exact Hv1|]. split; [exact Hv2|].
  split; [exact Hv3|]. split; [exact Ht|].
  split; [exact Hv4|]. split; [exact HS|]. split; [exact Hv5|].
  split; [exact Hls|]. split; [exact Htup|].
  reflexivity.
Defined.

(** C3, as stated, fails: in the file [nested.yaml] the exchange section is
    [{limits: [[1, 2], 3]}]; the list held at [limits] becomes a tuple, the
    list inside it stays a list, so that a list is left inside the merged
    exchange mapping. *)
Lemma get_backtest_config_fromfile_assembles_counterexample :
  deep_result
    (get_backtest_config_fromfile ex_abspath ex_files_nested ex_tmp_dir
       ex_tmp_module 3 "nested.yaml" ex_world)
  = Ok (Some
          (TDict
             [("debug_single_stock", TNone); ("debug_single_day", TNone);
              ("concurrency", TInt (-1)); ("multiplier", TFloat 1.0);
              ("output_dir", TStr "outputs/");
              ("exchange",
               TDict
                 [("open_cost", TFloat 0.0005); ("close_cost", TFloat 0.0015);
                  ("min_cost", TFloat 5.0); ("trade_unit", TFloat 100.0);
                  ("cash_limit", TNone); ("generate_report", TBool false);
                  ("limits", TTuple [TList [TInt 1; TInt 2]; TInt 3])])]))
  ∧ list_free
      (TDict
         [("open_cost", TFloat 0.0005); ("close_cost", TFloat 0.0015);
          ("min_cost", TFloat 5.0); ("trade_unit", TFloat 100.0);
          ("cash_limit", TNone); ("generate_report", TBool false);
          ("limits", TTuple [TList [TInt 1; TInt 2]; TInt 3])])
    = false.
Proof. split; reflexivity. Qed.

(** * Further properties of the code *)

(** ** The merge without recursion *)

(** X1.  A merge that has no nested mapping to descend into is a
    dictionary update: when no mapping held by the overlay [A] sits at a
    key of the base [B], the merge allocates one object, the copy of [B]
    updated with the items of [A] in order, returns it, and leaves every
    other object as it was.  In particular, an empty overlay gives a copy
    of the base. *)
Theorem merge_a_into_b_update n h la lb A B :
  wf_heap h = true →
  h !! la = Some (ODict A) → h !! lb = Some (ODict B) →
  (∀ k v, (k, v) ∈ A → is_dict h v = true → dict_has k B = false) →
  merge_a_into_b (S n) (VRef la) (VRef lb) h
  = (h ++ [ODict (dict_update A B)], Ok (VRef (length h))).
Proof. apply merge_update_run. Qed.

Lemma merge_a_into_b_update_witness :
  merge_a_into_b 1 (VRef 1) (VRef 0)
    [ODict [("x", VInt 1); ("y", VInt 2)]; ODict [("y", VInt 5); ("z", VInt 3)]]
  = ([ODict [("x", VInt 1); ("y", VInt 2)]; ODict [("y", VInt 5); ("z", VInt 3)];
      ODict [("x", VInt 1); ("y", VInt 5); ("z", VInt 3)]], Ok (VRef 2)).
Proof.
  apply (merge_a_into_b_update 0
           [ODict [("x", VInt 1); ("y", VInt 2)];
            ODict [("y", VInt 5); ("z", VInt 3)]]
           1 0 [("y", VInt 5); ("z", VInt 3)] [("x", VInt 1); ("y", VInt 2)]);
    try reflexivity.
  intros k v Hin Hd.
  apply elem_of_cons in Hin as [Hin|Hin]; [by inversion Hin; subst|].
  apply elem_of_cons in Hin as [Hin|Hin]; [by inversion Hin; subst|].
  by apply elem_of_nil in Hin.
Defined.

(** X2.  A merge with no nested mapping to descend into (no mapping held
    by the overlay sits at a key of the base) keeps the base's keys in
    their order and puts the keys that only the overlay has after them, in
    the overlay's order; every key of the overlay holds the overlay's
    value and every other key the base's. *)
Theorem merge_a_into_b_key_order n h la lb A B :
  wf_heap h = true →
  h !! la = Some (ODict A) → h !! lb = Some (ODict B) →
  (∀ k v, (k, v) ∈ A → is_dict h v = true → dict_has k B = false) →
  ∃ R,
    merge_a_into_b (S n) (VRef la) (VRef lb) h
    = (h ++ [ODict R], Ok (VRef (length h))) ∧
    keys R = keys B ++ filter (λ k, k ∉ keys B) (keys A) ∧
    ∀ k, dict_get k R
         = match dict_get k A with Some v => Some v | None => dict_get k B end.
Proof.
  intros Hwf Hla Hlb Hno.
  pose proof (wf_heap_lookup _ _ _ Hwf Hla) as [_ Hnd]%obj_ok_dict.
  exists (dict_update A B). split_and!.
  - by apply merge_update_run.
  - by apply keys_dict_update.
  - intros k. by apply dict_get_update.
Qed.

Lemma merge_a_into_b_key_order_witness :
  ∃ R,
    merge_a_into_b 1 (VRef 1) (VRef 0)
      [ODict [("x", VInt 1); ("y", VInt 2)]; ODict [("z", VInt 3); ("y", VInt 5)]]
    = ([ODict [("x", VInt 1); ("y", VInt 2)]; ODict [("z", VInt 3); ("y", VInt 5)]]
         ++ [ODict R], Ok (VRef 2))
    ∧ keys R = ["x"; "y"; "z"].
Proof.
  destruct (merge_a_into_b_key_order 0
              [ODict [("x", VInt 1); ("y", VInt 2)];
               ODict [("z", VInt 3); ("y", VInt 5)]]
              1 0 [("z", VInt 3); ("y", VInt 5)] [("x", VInt 1); ("y", VInt 2)])
    as (R & Hrun & Hkeys & _); try reflexivity.
  - intros k v Hin Hd.
    apply elem_of_cons in Hin as [Hin|Hin]; [by inversion Hin; subst|].
    apply elem_of_cons in Hin as [Hin|Hin]; [by inversion Hin; subst|].
    by apply elem_of_nil in Hin.
  - exists R. split; [exact Hrun|]. rewrite Hkeys. reflexivity.
Defined.

(** X3.  Merging the same overlay twice is the same as merging it once:
    when the overlay holds no mapping, merging it into the result of a
    first merge gives a new mapping with exactly the items of that
    result. *)
Theorem merge_a_into_b_twice n m h la lb A B :
  wf_heap h = true →
  h !! la = Some (ODict A) → h !! lb = Some (ODict B) →
  flat h A →
  ∃ R,
    merge_a_into_b (S n) (VRef la) (VRef lb) h
    = (h ++ [ODict R], Ok (VRef (length h))) ∧
    merge_a_into_b (S m) (VRef la) (VRef (length h)) (h ++ [ODict R])
    = ((h ++ [ODict R]) ++ [ODict R], Ok (VRef (length (h ++ [ODict R])))).
Proof.
  intros Hwf Hla Hlb Hflat.
  pose proof (wf_heap_lookup _ _ _ Hwf Hla) as HokA.
  pose proof HokA as [HvalsA Hnd]%obj_ok_dict.
  pose proof (wf_heap_lookup _ _ _ Hwf Hlb) as HokB.
  exists (dict_update A B). split.
  - apply merge_update_run; [done..|]. intros k v Hin Hd.
    by rewrite (Hflat k v Hin) in Hd.
  - rewrite <-(dict_update_twice A B Hnd) at 3.
    apply merge_update_run.
    + apply wf_heap_alloc; [done|]. apply obj_ok_update.
      * eapply obj_ok_mono; [|done]. lia.
      * intros k v Hin. eapply val_ok_mono; [|by eapply HvalsA]. lia.
    + by apply lookup_app_l_Some.
    + apply lookup_last.
    + intros k v Hin Hd. rewrite is_dict_app in Hd by eauto.
      by rewrite (Hflat k v Hin) in Hd.
Qed.

Lemma merge_a_into_b_twice_witness :
  ∃ R,
    merge_a_into_b 1 (VRef 1) (VRef 0)
      [ODict [("x", VInt 1); ("y", VInt 2)]; ODict [("z", VInt 3); ("y", VInt 5)]]
    = ([ODict [("x", VInt 1); ("y", VInt 2)]; ODict [("z", VInt 3); ("y", VInt 5)]]
         ++ [ODict R], Ok (VRef 2))
    ∧ R = [("x", VInt 1); ("y", VInt 5); ("z", VInt 3)].
Proof.
  destruct (merge_a_into_b_twice 0 0
              [ODict [("x", VInt 1); ("y", VInt 2)];
               ODict [("z", VInt 3); ("y", VInt 5)]]
              1 0 [("z", VInt 3); ("y", VInt 5)] [("x", VInt 1); ("y", VInt 2)])
    as (R & Hrun & _); try reflexivity.
  - intros k v Hin.
    apply elem_of_cons in Hin as [Hin|Hin]; [by inversion Hin; subst|].
    apply elem_of_cons in Hin as [Hin|Hin]; [by inversion Hin; subst|].
    by apply elem_of_nil in Hin.
  - exists R. split; [exact Hrun|].
    vm_compute in Hrun. by inversion Hrun.
Defined.

(** ** The merge on arguments that are not mappings *)

Lemma merge_bad_base n h a b :
  val_ok (length h) b = true → is_dict h b = false → is_list h b = false →
  merge_a_into_b (S n) a b h = (h, Raise AttributeError).
Proof.
  intros Hb Hd Hl. simpl. unfold merge_body, bind, py_copy.
  destruct b as [| | | | |l]; try done.
  apply val_ok_ref, lookup_lt_is_Some_2 in Hb as [o Ho].
  unfold bind, deref. simpl in Hd, Hl. rewrite Ho in *.
  by destruct o.
Qed.

Lemma merge_bad_overlay n h a b :
  val_ok (length h) a = true → is_dict h a = false →
  is_dict h b || is_list h b = true →
  ∃ o, merge_a_into_b (S n) a b h = (h ++ [o], Raise AttributeError).
Proof.
  intros Ha Hd Hb. simpl. unfold merge_body.
  assert (∃ o, py_copy b h = (h ++ [o], Ok (VRef (length h)))) as [o Hcopy].
  { destruct b as [| | | | |l]; try done. simpl in Hb.
    destruct (h !! l) as [[d|xs|xs]|] eqn:Hl; try done.
    - exists (ODict d). by apply run_py_copy_dict.
    - exists (OList xs). by apply run_py_copy_list. }
  exists o. rewrite (bind_ok _ _ _ _ _ Hcopy).
  unfold bind, py_items. destruct a as [| | | | |l]; try done.
  apply val_ok_ref in Ha. simpl in Hd.
  unfold bind, deref. rewrite lookup_app_l by done.
  apply lookup_lt_is_Some_2 in Ha as [oa Ho]. rewrite Ho in *.
  by destruct oa.
Qed.

(** X4.  The merge checks its arguments only by using them.  A base that
    is neither a mapping nor a list (a scalar, a tuple) makes it raise an
    attribute error at once, the store untouched; with a base it can copy,
    an overlay that is not a mapping makes it raise an attribute error
    after the copy of the base has been made. *)
Theorem merge_a_into_b_not_mappings n h a b :
  val_ok (length h) a = true → val_ok (length h) b = true →
  (is_dict h b = false → is_list h b = false →
   merge_a_into_b (S n) a b h = (h, Raise AttributeError))
  ∧ (is_dict h b || is_list h b = true → is_dict h a = false →
     ∃ o, merge_a_into_b (S n) a b h = (h ++ [o], Raise AttributeError)).
Proof.
  intros Ha Hb. split.
  - by apply merge_bad_base.
  - intros Hb' Ha'. by apply merge_bad_overlay.
Qed.

Lemma merge_a_into_b_not_mappings_witness :
  merge_a_into_b 1 (VRef 0) (VInt 1) [ODict []] = ([ODict []], Raise AttributeError)
  ∧ ∃ o, merge_a_into_b 1 VNone (VRef 0) [ODict []]
         = ([ODict []] ++ [o], Raise AttributeError).
Proof.
  split.
  - by apply (merge_a_into_b_not_mappings 0 [ODict []] (VRef 0) (VInt 1)).
  - by apply (merge_a_into_b_not_mappings 0 [ODict []] VNone (VRef 0)).
Defined.

(** ** The key [_base_] *)

Lemma py_path_join_inv dir f w w' r :
  py_path_join dir f w = (w', r) → w' = w.
Proof. destruct f; by intros [= <- _]. Qed.

Lemma merge_bases_lacks parse n dir bases :
  (∀ path w w' r,
     wf_heap (w_heap w) = true → parse path w = (w', r) →
     (extends (w_heap w) (w_heap w') ∧
      ∀ v, r = Ok v → new_val (length (w_heap w)) (length (w_heap w')) v)
     ∧ ∀ v, r = Ok v → lacks "_base_" (w_heap w') v) →
  ∀ config w w' r,
    wf_heap (w_heap w) = true →
    val_ok (length (w_heap w)) config = true →
    lacks "_base_" (w_heap w) config →
    merge_bases parse n dir bases config w = (w', Ok r) →
    lacks "_base_" (w_heap w') r.
Proof.
  intros Hparse. induction bases as [|f bases IH];
    intros config w w' r Hwf Hc Hlacks Hrun.
  - by inversion Hrun; subst.
  - simpl in Hrun.
    apply bind_inv in Hrun as [(e & _ & [=])|(p & w1 & Hj & Hrun)].
    apply py_path_join_inv in Hj as ->.
    apply bind_inv in Hrun as [(e & _ & [=])|(base & w2 & Hp & Hrun)].
    apply Hparse in Hp as [[He Hb] Hbl]; [|done].
    destruct (Hb base eq_refl) as [Hbok _]. specialize (Hbl base eq_refl).
    pose proof He as (Hwf2 & [new Hnew] & _).
    pose proof (extends_length _ _ He) as Hlen2.
    apply bind_inv in Hrun as [(e & _ & [=])|(c' & w3 & Hm & Hrun)].
    apply lift_inv in Hm as (h3 & Hm & ->).
    assert (val_ok (length (w_heap w2)) config = true) as Hc2
      by by eapply val_ok_mono.
    destruct (merge_sound_fuel n _ _ _ _ _ Hwf2 Hc2 Hbok Hm)
      as (Hwf3 & [Hlen3 _] & Hres).
    destruct (Hres c' eq_refl) as [-> Hlt].
    refine (IH _ (World h3 (sys_path w2) (sys_modules w2) (tmp_seq w2)) _ _
              Hwf3 _ _ Hrun); simpl.
    + by apply val_ok_ref.
    + intros l d [= <-] Hl. destruct n as [|n]; [done|].
      destruct (merge_spec n _ _ _ _ _ Hwf2 Hc2 Hbok Hm) as (_ & _ & Hres').
      destruct (Hres' _ eq_refl)
        as (_ & _ & la & A & lb & ob & -> & -> & HA & Hob & Hit).
      destruct ob as [B|xs|xs]; [|destruct Hit as [_ Hit]; congruence|done].
      destruct Hit as (R & HR & H1 & _). rewrite Hl in HR.
      inversion HR; subst R. rewrite H1.
      * by apply (Hbl lb B).
      * apply (Hlacks la A); [done|].
        rewrite Hnew in HA. apply val_ok_ref in Hc.
        by rewrite lookup_app_l in HA.
Qed.

Lemma parse_lacks abspath files tmp_dir tmp_module n :
  ∀ path w w' r,
    wf_heap (w_heap w) = true →
    parse_backtest_config abspath files tmp_dir tmp_module n path w = (w', Ok r) →
    lacks "_base_" (w_heap w') r.
Proof.
  induction n as [|n IH]; intros path w w' r Hwf Hrun; [done|].
  rewrite parse_backtest_config_S in Hrun. cbv zeta in Hrun.
  apply bind_inv in Hrun as [(e & _ & [=])|([] & w1 & Hc & Hrun)].
  assert (w1 = w) as ->.
  { unfold check_file_exist in Hc. destruct (files (abspath path)); by inversion Hc. }
  clear Hc.
  destruct (negb (existsb (String.eqb (splitext_ext (abspath path))) supported_ext));
    [done|].
  apply bind_inv in Hrun as [(e & _ & [=])|(config & w2 & Hl & Hrun)].
  apply load_file_sound in Hl as [He Hc]; [|done].
  destruct (Hc config eq_refl) as [Hcok _].
  pose proof (extends_wf _ _ He) as Hwf2.
  apply bind_inv in Hrun as [(e & _ & [=])|(has_base & w3 & Hin & Hrun)].
  apply lift_inv in Hin as (h3 & Hin & ->).
  pose proof (py_contains_heap _ _ _ _ _ Hin) as ->.
  destruct has_base; cycle 1.
  { inversion Hrun; subst w' r. simpl. intros l d -> Hld.
    unfold py_contains, bind, deref, ret in Hin. rewrite Hld in Hin.
    apply dict_has_false. congruence. }
  apply bind_inv in Hrun as [(e & _ & [=])|(bv & w4 & Hpop & Hrun)].
  apply lift_inv in Hpop as (h4 & Hpop & ->).
  apply py_pop_inv in Hpop
    as [(_ & e' & [=])|(l & d & v & -> & Hld & Hk & -> & [= <-])].
  simpl in Hld, Hrun.
  apply bind_inv in Hrun as [(e & _ & [=])|(isl & w5 & Hisl & Hrun)].
  apply lift_inv in Hisl as (h5 & Hisl & ->).
  assert (h5 = <[l:=ODict (dict_del "_base_" d)]> (w_heap w2)) as ->
    by by inversion Hisl.
  clear Hisl. simpl in Hrun.
  apply bind_inv in Hrun as [(e & _ & [=])|(bases & w6 & Hb & Hrun)].
  assert (w6 = World (<[l:=ODict (dict_del "_base_" d)]> (w_heap w2))
                 (sys_path w2) (sys_modules w2) (tmp_seq w2)) as ->.
  { destruct isl; [|by inversion Hb].
    apply lift_inv in Hb as (h6 & Hb & ->).
    by apply py_list_elems_inv in Hb as [-> _]. }
  clear Hb.
  assert (l < length (w_heap w2)) as Hlt by by eapply lookup_lt_Some.
  refine (merge_bases_lacks _ n _ bases _ (VRef l) _ _ _ _ _ _ Hrun); simpl.
  - intros p w0 w0' r0 Hwf0 Hp. split; [by eapply parse_sound|].
    intros v ->. by eapply IH.
  - apply wf_heap_insert; [done|]. apply obj_ok_del.
    by apply (wf_heap_lookup _ l).
  - apply val_ok_ref. by rewrite length_insert.
  - intros l' d' [= <-] Hl'. rewrite list_lookup_insert_eq in Hl' by done.
    inversion Hl'; subst d'. apply dict_get_del_eq.
Qed.

(** X7.  A mapping that a load returns never has the key [_base_]: the
    file's own is removed, and none comes in from the bases. *)
Theorem parse_backtest_config_no_base abspath files tmp_dir tmp_module
    n path w w' lr R :
  wf_heap (w_heap w) = true →
  parse_backtest_config abspath files tmp_dir tmp_module n path w
  = (w', Ok (VRef lr)) →
  w_heap w' !! lr = Some (ODict R) →
  dict_get "_base_" R = None.
Proof.
  intros Hwf Hrun HR. by apply (parse_lacks _ _ _ _ _ _ _ _ _ Hwf Hrun lr R).
Qed.

Lemma parse_backtest_config_no_base_witness :
  ∃ w' lr R,
    parse_backtest_config ex_abspath ex_files ex_tmp_dir ex_tmp_module 3
      "b.yaml" ex_world = (w', Ok (VRef lr))
    ∧ w_heap w' !! lr = Some (ODict R)
    ∧ dict_get "_base_" R = None.
Proof.
  pose (w' := (parse_backtest_config ex_abspath ex_files ex_tmp_dir
                 ex_tmp_module 3 "b.yaml" ex_world).1).
  pose (R := [("x", VInt 1); ("y", VRef 5); ("z", VInt 3)]).
  assert (wf_heap (w_heap ex_world) = true) as H1 by reflexivity.
  assert (parse_backtest_config ex_abspath ex_files ex_tmp_dir ex_tmp_module 3
            "b.yaml" ex_world = (w', Ok (VRef 4))) as H2 by reflexivity.
  assert (w_heap w' !! 4 = Some (ODict R)) as H3 by reflexivity.
  clearbody w'. exists w', 4, R. split; [exact H2|]. split; [exact H3|].
  exact (parse_backtest_config_no_base _ _ _ _ _ _ _ _ _ _ H1 H2 H3).
Defined.

(** ** A file that is its own base *)

Lemma build_items_str kvs :
  ∀ h h' d, build_items kvs h = (h', Ok d) →
    keys d = keys kvs ∧ ∀ k s, (k, TStr s) ∈ kvs → (k, VStr s) ∈ d.
Proof.
  induction kvs as [|[k x] kvs IH]; intros h h' d Hrun.
  - inversion Hrun; subst. split; [done|]. intros k s Hin.
    by apply elem_of_nil in Hin.
  - simpl in Hrun.
    apply bind_inv in Hrun as [(e & _ & [=])|(v & h1 & Hv & Hrun)].
    apply bind_inv in Hrun as [(e & _ & [=])|(d' & h2 & Hd & Hrun)].
    inversion Hrun; subst h' d. clear Hrun.
    destruct (IH _ _ _ Hd) as [Hkeys Hstr]. split.
    + unfold keys in *. csimpl. by rewrite Hkeys.
    + intros k' s [Heq|Hin]%elem_of_cons; [|right; by eapply Hstr].
      inversion Heq; subst k' x. inversion Hv; subst. left.
Qed.

Lemma self_base_raises abspath files tmp_dir tmp_module f kvs b ap :
  files ap = Some f → as_yaml f = inr (TDict kvs) →
  endswith ap ".py" = false → splitext_ext ap ∈ supported_ext →
  NoDup (keys kvs) → dict_get "_base_" kvs = Some (TStr b) →
  abspath (path_join (dirname ap) b) = ap →
  ∀ n path w,
    abspath path = ap → wf_heap (w_heap w) = true →
    ∃ w' e,
      parse_backtest_config abspath files tmp_dir tmp_module n path w
      = (w', Raise e).
Proof.
  intros Hf Hyaml Hpy Hext Hnd Hbase Hself.
  induction n as [|n IH]; intros path w Hpath Hwf; [by eexists _, _|].
  rewrite load_file_run_S by (rewrite Hpath; eauto). rewrite Hpath.
  (* the file is read *)
  destruct (build_items_spec kvs) with (h := w_heap w)
    as (h1 & d & Hd & He & _ & _); [|done|].
  { apply Forall_forall. intros kv _. apply build_spec. }
  destruct (build_items_str _ _ _ _ Hd) as [Hkeys Hstr].
  assert (NoDup (keys d)) as Hndd by by rewrite Hkeys.
  assert (dict_of_items d = d) as Hdd.
  { unfold dict_of_items. by rewrite fold_dict_set_fresh. }
  assert (dict_get "_base_" d = Some (VStr b)) as Hb.
  { apply dict_get_NoDup; [done|]. by apply Hstr, dict_get_elem. }
  set (w1 := World (h1 ++ [ODict d]) (sys_path w) (sys_modules w) (S (tmp_seq w))).
  assert (load_file files tmp_dir tmp_module ap w = (w1, Ok (VRef (length h1))))
    as Hload.
  { unfold load_file. rewrite Hpy. unfold bind at 1. cbv beta iota zeta.
    unfold yaml_safe_load. rewrite Hf. simpl (as_yaml <$> Some f).
    rewrite Hyaml. unfold lift. cbn [w_heap]. rewrite build_TDict.
    rewrite (bind_ok _ _ _ _ _ Hd). unfold alloc. by rewrite Hdd. }
  rewrite (bind_ok _ _ _ _ _ Hload).
  pose proof (lookup_last h1 (ODict d)) as Hl1.
  (* [_base_] is there, and is popped *)
  erewrite bind_ok; cycle 1.
  { apply lift_run. unfold w1. simpl. unfold py_contains, bind, deref.
    rewrite Hl1. reflexivity. }
  assert (dict_has "_base_" d = true) as -> by (apply dict_has_true; eauto).
  erewrite bind_ok; cycle 1.
  { apply lift_run. simpl. unfold py_pop, bind, deref, store, ret.
    rewrite Hl1, Hb. reflexivity. }
  erewrite bind_ok; cycle 1.
  { apply lift_run. reflexivity. }
  cbn [is_list w_heap sys_path sys_modules tmp_seq].
  unfold bind at 1, ret at 1. cbn [merge_bases py_path_join].
  unfold bind at 1, ret at 1. rewrite insert_last.
  (* the base is the file itself *)
  edestruct (IH (path_join (dirname ap) b)) as (w' & e & Hrec); [done| |].
  2: { rewrite (bind_raise _ _ _ _ _ Hrec). by eexists _, _. }
  cbn [w_heap].
  apply wf_heap_alloc; [by apply extends_wf in He|].
  apply obj_ok_del.
  pose proof (extends_wf _ _ He) as Hwf1.
  destruct (build_spec (TDict kvs) (w_heap w) Hwf) as (h' & v & Hv & He' & _).
  rewrite build_TDict, (bind_ok _ _ _ _ _ Hd) in Hv. unfold alloc in Hv.
  rewrite Hdd in Hv. inversion Hv; subst h' v.
  apply extends_wf in He'.
  pose proof (wf_heap_lookup _ _ _ He' Hl1) as Hok.
  rewrite length_app in Hok. simpl in Hok.
  by rewrite Nat.add_1_r in Hok.
Qed.

(** X8.  Nothing detects a cycle of bases: a file that names itself as its
    base is loaded again and again, as deep as the recursion goes, and the
    load raises at every recursion depth instead of returning. *)
Theorem parse_backtest_config_self_base
    abspath files tmp_dir tmp_module f kvs b n path w :
  files (abspath path) = Some f → as_yaml f = inr (TDict kvs) →
  endswith (abspath path) ".py" = false →
  splitext_ext (abspath path) ∈ supported_ext →
  NoDup (keys kvs) → dict_get "_base_" kvs = Some (TStr b) →
  abspath (path_join (dirname (abspath path)) b) = abspath path →
  wf_heap (w_heap w) = true →
  ∃ w' e,
    parse_backtest_config abspath files tmp_dir tmp_module n path w
    = (w', Raise e).
Proof.
  intros Hf Hyaml Hpy Hext Hnd Hbase Hself Hwf.
  by eapply (self_base_raises abspath files tmp_dir tmp_module f kvs b
               (abspath path)).
Qed.

Lemma parse_backtest_config_self_base_witness :
  ∃ w' e,
    parse_backtest_config ex_abspath ex_files_self ex_tmp_dir ex_tmp_module 50
      "self.yaml" ex_world = (w', Raise e).
Proof.
  apply (parse_backtest_config_self_base ex_abspath ex_files_self ex_tmp_dir
           ex_tmp_module ex_file_self
           [("_base_", TStr "self.yaml"); ("x", TInt 1)] "self.yaml" 50
           "self.yaml" ex_world); try reflexivity.
  - assert (splitext_ext (ex_abspath "self.yaml") = ".yaml") as -> by reflexivity.
    do 2 apply list_elem_of_further. apply list_elem_of_here.
  - by apply distinct_NoDup.
Defined.

(** ** The conversion of lists, in place *)

(** X9.  The conversion works in place: it returns the mapping it was
    given, and whether it returns or raises, every mapping of the store
    keeps its keys and their order, each value kept or, where it was a
    list, replaced by a new tuple of the same elements; the lists and
    tuples themselves are never changed, so that a list reached in another
    way is still a list. *)
Theorem convert_all_list_to_tuple_in_place n config h h' r :
  wf_heap h = true → val_ok (length h) config = true →
  _convert_all_list_to_tuple n config h = (h', r) →
  wf_heap h' = true ∧ conv h h' ∧ ∀ v, r = Ok v → v = config.
Proof.
  intros Hwf Hc Hrun.
  destruct (convert_sound_fuel n config h h' r Hwf Hc Hrun) as (Hwf' & Hconv & Hres).
  split_and!; [done..|]. intros v Hv. by destruct (Hres v Hv).
Qed.

Lemma convert_all_list_to_tuple_in_place_witness :
  conv [OList [VInt 1]; ODict [("k", VRef 0); ("j", VRef 0)]]
       [OList [VInt 1]; ODict [("k", VRef 2); ("j", VRef 3)];
        OTuple [VInt 1]; OTuple [VInt 1]].
Proof.
  assert (wf_heap [OList [VInt 1]; ODict [("k", VRef 0); ("j", VRef 0)]] = true)
    as H1 by reflexivity.
  assert (val_ok 2 (VRef 1) = true) as H2 by reflexivity.
  assert (_convert_all_list_to_tuple 1 (VRef 1)
            [OList [VInt 1]; ODict [("k", VRef 0); ("j", VRef 0)]]
          = ([OList [VInt 1]; ODict [("k", VRef 2); ("j", VRef 3)];
              OTuple [VInt 1]; OTuple [VInt 1]], Ok (VRef 1))) as H3
    by reflexivity.
  exact (proj1 (proj2 (convert_all_list_to_tuple_in_place 1 _ _ _ _ H1 H2 H3))).
Defined.

Lemma convert_loop_id rec lc d h :
  h !! lc = Some (ODict d) →
  ∀ ks,
    (∀ k, k ∈ ks → ∃ x, dict_get k d = Some x ∧ is_list h x = false ∧
                        (is_dict h x = true → rec x h = (h, Ok x))) →
    convert_loop rec (VRef lc) ks h = (h, Ok tt).
Proof.
  intros Hlc. induction ks as [|k ks IH]; intros Hks; [done|].
  rewrite convert_loop_cons.
  destruct (Hks k (list_elem_of_here _ _)) as (x & Hk & Hl & Hd).
  unfold bind at 1. rewrite (run_py_getitem_dict _ _ _ _ Hlc), Hk.
  unfold bind at 1. unfold isinstance_list at 1. rewrite Hl.
  assert ((isd <- isinstance_dict x ;;
           if isd then c <- rec x ;; py_setitem (VRef lc) k c else ret tt) h
          = (h, Ok tt)) as Hstep.
  { unfold bind at 1. unfold isinstance_dict at 1.
    destruct (is_dict h x); [|done].
    rewrite (bind_ok _ _ _ _ _ (Hd eq_refl)).
    rewrite (run_py_setitem_dict _ _ _ k x Hlc).
    rewrite (dict_set_same _ _ _ Hk). by rewrite list_insert_id. }
  rewrite (bind_ok _ _ _ _ _ Hstep). apply IH.
  intros k' Hk'. apply Hks. by right.
Qed.

(** On a mapping that holds no list the conversion changes nothing. *)
Lemma convert_tupled_id n :
  ∀ h v, tupled n h v = true → _convert_all_list_to_tuple n v h = (h, Ok v).
Proof.
  induction n as [|n IH]; intros h v Ht; [done|].
  destruct v as [| | | | |lc]; try done. simpl in Ht.
  destruct (h !! lc) as [[d|xs|xs]|] eqn:Hlc; try done.
  simpl. rewrite (bind_ok _ _ _ _ _ (run_py_items _ _ _ Hlc)).
  assert (convert_loop (_convert_all_list_to_tuple n) (VRef lc) (keys d) h
          = (h, Ok tt)) as Hloop; [|by rewrite (bind_ok _ _ _ _ _ Hloop)].
  apply (convert_loop_id _ lc d h Hlc).
  intros k [x Hx]%dict_has_keys%dict_has_true. exists x. split; [done|].
  rewrite forallb_forall in Ht.
  apply dict_get_elem, list_elem_of_In, Ht in Hx. simpl in Hx.
  apply andb_true_iff in Hx as [Hl%negb_true_iff Hd]. split; [done|].
  intros Hisd. rewrite Hisd in Hd. simpl in Hd. by apply IH.
Qed.

(** X10.  The conversion is idempotent: run again on what it returned, it
    returns the same mapping and leaves the store as it is. *)
Theorem convert_all_list_to_tuple_idempotent n config h h' v :
  wf_heap h = true → val_ok (length h) config = true →
  _convert_all_list_to_tuple n config h = (h', Ok v) →
  _convert_all_list_to_tuple n v h' = (h', Ok v).
Proof.
  intros Hwf Hc Hrun.
  destruct (convert_sound_fuel n config h h' _ Hwf Hc Hrun) as (_ & _ & Hres).
  destruct (Hres v eq_refl) as [-> Ht]. by apply convert_tupled_id.
Qed.

Lemma convert_all_list_to_tuple_idempotent_witness :
  _convert_all_list_to_tuple 1 (VRef 1)
    [OList [VInt 1]; ODict [("k", VRef 2)]; OTuple [VInt 1]]
  = ([OList [VInt 1]; ODict [("k", VRef 2)]; OTuple [VInt 1]], Ok (VRef 1)).
Proof.
  apply (convert_all_list_to_tuple_idempotent 1 (VRef 1)
           [OList [VInt 1]; ODict [("k", VRef 0)]]); reflexivity.
Defined.

(** ** An exchange section that is not a mapping *)

(** X11.  When the loaded configuration holds at [exchange] something
    that is not a mapping (a scalar such as [None], a list), the assembly
    raises an attribute error: the merge onto the exchange defaults asks
    for the items of the value. *)
Theorem get_backtest_config_fromfile_exchange_not_mapping
    abspath files tmp_dir tmp_module n path w w1 lc C x :
  wf_heap (w_heap w) = true →
  parse_backtest_config abspath files tmp_dir tmp_module n path w
  = (w1, Ok (VRef lc)) →
  w_heap w1 !! lc = Some (ODict C) →
  dict_get "exchange" C = Some x → is_dict (w_heap w1) x = false →
  ∃ w', get_backtest_config_fromfile abspath files tmp_dir tmp_module n path w
        = (w', Raise AttributeError).
Proof.
  intros Hwf Hparse Hlc Hx Hd.
  destruct (parse_sound _ _ _ _ _ _ _ _ _ Hwf Hparse) as [(Hwf1 & _) _].
  destruct n as [|n]; [done|].
  unfold get_backtest_config_fromfile. rewrite (bind_ok _ _ _ _ _ Hparse).
  assert (val_ok (length (w_heap w1)) x = true) as Hxok.
  { eapply wf_heap_val; [done..|]. by apply dict_get_elem. }
  set (h2 := w_heap w1 ++ [ODict exchange_default_items]).
  destruct (merge_bad_overlay n h2 x (VRef (length (w_heap w1)))) as [o Hm].
  - eapply val_ok_mono; [|done]. unfold h2. rewrite length_app. lia.
  - unfold h2. by rewrite is_dict_app.
  - simpl. unfold h2. by rewrite lookup_last.
  - eexists. apply lift_run. unfold apply_defaults.
    rewrite (bind_ok _ _ _ _ _ (build_exchange_default (w_heap w1))).
    unfold bind at 1. erewrite run_py_getitem_dict; cycle 1.
    { apply lookup_app_l_Some. exact Hlc. }
    rewrite Hx. fold h2. by rewrite (bind_raise _ _ _ _ _ Hm).
Qed.

(** ** The normalizer *)

(** X12.  A value in which no mapping has the key [type] is returned
    as it is. *)
Theorem convert_instance_config_type_free y :
  type_free y = true → convert_instance_config y = Ok y.
Proof. apply convert_type_free. Qed.

Lemma convert_instance_config_type_free_witness :
  convert_instance_config
    (TDict [("a", TList [TInt 1; TDict [("b", TTuple [TStr "x.y"])]])])
  = Ok (TDict [("a", TList [TInt 1; TDict [("b", TTuple [TStr "x.y"])]])]).
Proof. by apply convert_instance_config_type_free. Defined.

Lemma get_backtest_config_fromfile_exchange_not_mapping_witness :
  ∃ w', get_backtest_config_fromfile ex_abspath ex_files_more ex_tmp_dir
          ex_tmp_module 3 "null.yaml" ex_world
        = (w', Raise AttributeError).
Proof.
  pose (w1 := (parse_backtest_config ex_abspath ex_files_more ex_tmp_dir
                 ex_tmp_module 3 "null.yaml" ex_world).1).
  assert (wf_heap (w_heap ex_world) = true) as H1 by reflexivity.
  assert (parse_backtest_config ex_abspath ex_files_more ex_tmp_dir
            ex_tmp_module 3 "null.yaml" ex_world = (w1, Ok (VRef 0))) as H2
    by reflexivity.
  assert (w_heap w1 !! 0 = Some (ODict [("exchange", VNone)])) as H3
    by reflexivity.
  clearbody w1.
  exact (get_backtest_config_fromfile_exchange_not_mapping _ _ _ _ _ _ _ _ _ _
           VNone H1 H2 H3 eq_refl eq_refl).
Defined.

(** ** What comes from a base *)

(** X14.  What a file does not set comes from its base: with one base
    named by a string, the load returns a mapping that holds, at every key
    the file's own mapping lacks, what the mapping loaded from the base
    holds there (the same value, shared with it). *)
Theorem parse_backtest_config_inherits
    abspath files tmp_dir tmp_module n path w w1 l d b w' r :
  wf_heap (w_heap w) = true →
  is_Some (files (abspath path)) →
  splitext_ext (abspath path) ∈ supported_ext →
  load_file files tmp_dir tmp_module (abspath path) w = (w1, Ok (VRef l)) →
  w_heap w1 !! l = Some (ODict d) →
  dict_get "_base_" d = Some (VStr b) →
  parse_backtest_config abspath files tmp_dir tmp_module (S n) path w
  = (w', Ok r) →
  ∃ w2 base,
    parse_backtest_config abspath files tmp_dir tmp_module n
      (path_join (dirname (abspath path)) b)
      (World (<[l:=ODict (dict_del "_base_" d)]> (w_heap w1))
         (sys_path w1) (sys_modules w1) (tmp_seq w1))
    = (w2, Ok base) ∧
    ∀ lb B, base = VRef lb → w_heap w2 !! lb = Some (ODict B) →
      ∃ lr R, r = VRef lr ∧ w_heap w' !! lr = Some (ODict R) ∧
              ∀ k, dict_get k (dict_del "_base_" d) = None →
                   dict_get k R = dict_get k B.
Proof.
  intros Hwf Hf Hext Hload Hl Hbase Hrun.
  rewrite (parse_with_base _ _ _ _ _ _ _ _ _ _ _ Hf Hext Hload Hl Hbase) in Hrun.
  destruct (load_file_sound _ _ _ _ _ _ _ Hwf Hload) as [(Hwf1 & _) _].
  set (own := dict_del "_base_" d) in *.
  set (h2 := <[l:=ODict own]> (w_heap w1)) in *.
  assert (l < length (w_heap w1)) as Hlt by by eapply lookup_lt_Some.
  assert (wf_heap h2 = true) as Hwf2.
  { unfold h2, own. apply wf_heap_insert; [done|]. apply obj_ok_del.
    by apply (wf_heap_lookup _ l). }
  assert (h2 !! l = Some (ODict own)) as Hl2
    by by apply list_lookup_insert_eq.
  cbn [merge_bases py_path_join] in Hrun.
  unfold bind at 1, ret at 1 in Hrun.
  apply bind_inv in Hrun as [(e & _ & [=])|(base & w2 & Hp & Hrun)].
  exists w2, base. split; [exact Hp|]. intros lb B -> HB.
  destruct (parse_sound abspath files tmp_dir tmp_module n _
              (World h2 (sys_path w1) (sys_modules w1) (tmp_seq w1)) _ _
              Hwf2 Hp) as [He Hb].
  destruct (Hb _ eq_refl) as [Hbok _].
  pose proof He as (Hwf3 & [new Hnew] & _). simpl in Hnew.
  apply bind_inv in Hrun as [(e & _ & [=])|(c & w3 & Hm & Hrun)].
  apply lift_inv in Hm as (h3 & Hm & ->).
  inversion Hrun; subst w' r. clear Hrun. simpl.
  assert (w_heap w2 !! l = Some (ODict own)) as Hl3.
  { rewrite Hnew. by apply lookup_app_l_Some. }
  assert (val_ok (length (w_heap w2)) (VRef l) = true) as Hc.
  { apply val_ok_ref. by eapply lookup_lt_Some. }
  destruct n as [|n]; [done|].
  destruct (merge_spec n _ _ _ _ _ Hwf3 Hc Hbok Hm) as (_ & _ & Hres).
  destruct (Hres c eq_refl)
    as (-> & _ & la & A & lb' & ob & [= <-] & [= <-] & HA & Hob & Hit).
  rewrite Hl3 in HA. inversion HA; subst A.
  rewrite HB in Hob. inversion Hob; subst ob.
  destruct Hit as (R & HR & H1 & _).
  exists (length (w_heap w2)), R. split_and!; [done..|].
  intros k Hk. by apply H1.
Qed.

Lemma parse_backtest_config_inherits_witness :
  ∃ w' lr R,
    parse_backtest_config ex_abspath ex_files ex_tmp_dir ex_tmp_module 3
      "b.yaml" ex_world = (w', Ok (VRef lr))
    ∧ w_heap w' !! lr = Some (ODict R)
    ∧ dict_get "x" R = Some (VInt 1).
Proof.
  pose (d := [("_base_", VStr "a.yaml"); ("y", VRef 0); ("z", VInt 3)]).
  pose (w1 := World [ODict [("q", VInt 2)]; ODict d]
                (sys_path ex_world) (sys_modules ex_world) 1).
  pose (w' := (parse_backtest_config ex_abspath ex_files ex_tmp_dir
                 ex_tmp_module 3 "b.yaml" ex_world).1).
  pose (w2 := (parse_backtest_config ex_abspath ex_files ex_tmp_dir
                 ex_tmp_module 2 "/cfg/a.yaml"
                 (World (<[1:=ODict (dict_del "_base_" d)]> (w_heap w1))
                    (sys_path w1) (sys_modules w1) (tmp_seq w1))).1).
  assert (wf_heap (w_heap ex_world) = true) as H1 by reflexivity.
  assert (is_Some (ex_files (ex_abspath "b.yaml"))) as H2 by by exists ex_file_b.
  assert (splitext_ext (ex_abspath "b.yaml") ∈ supported_ext) as H3.
  { assert (splitext_ext (ex_abspath "b.yaml") = ".yaml") as -> by reflexivity.
    do 2 apply list_elem_of_further. apply list_elem_of_here. }
  assert (load_file ex_files ex_tmp_dir ex_tmp_module (ex_abspath "b.yaml") ex_world
          = (w1, Ok (VRef 1))) as H4 by reflexivity.
  assert (w_heap w1 !! 1 = Some (ODict d)) as H5 by reflexivity.
  assert (dict_get "_base_" d = Some (VStr "a.yaml")) as H6 by reflexivity.
  assert (parse_backtest_config ex_abspath ex_files ex_tmp_dir ex_tmp_module 3
            "b.yaml" ex_world = (w', Ok (VRef 4))) as H7 by reflexivity.
  assert (parse_backtest_config ex_abspath ex_files ex_tmp_dir ex_tmp_module 2
            (path_join (dirname (ex_abspath "b.yaml")) "a.yaml")
            (World (<[1:=ODict (dict_del "_base_" d)]> (w_heap w1))
               (sys_path w1) (sys_modules w1) (tmp_seq w1))
          = (w2, Ok (VRef 3))) as H8 by reflexivity.
  assert (w_heap w2 !! 3 = Some (ODict [("x", VInt 1); ("y", VRef 2)])) as H9
    by reflexivity.
  clearbody w' w2.
  destruct (parse_backtest_config_inherits ex_abspath ex_files ex_tmp_dir
              ex_tmp_module 2 "b.yaml" ex_world w1 1 d "a.yaml" w' (VRef 4)
              H1 H2 H3 H4 H5 H6 H7) as (w2' & base & Hp & Hin).
  rewrite H8 in Hp. inversion Hp; subst w2' base. clear Hp.
  destruct (Hin 3 _ eq_refl H9) as (lr & R & Hr & HR & HRk).
  exists w', lr, R. split; [by rewrite <-Hr|]. split; [exact HR|].
  exact (HRk "x" eq_refl).
Defined.

(** X15.  A base that does not exist stops the load: when the first base
    named is a string and no file is at its path (joined to the directory
    of the including file), the load raises the not-found error, with the
    base's absolute path in the message. *)
Theorem parse_backtest_config_missing_base
    abspath files tmp_dir tmp_module n path w w1 l d bv b bases :
  is_Some (files (abspath path)) →
  splitext_ext (abspath path) ∈ supported_ext →
  load_file files tmp_dir tmp_module (abspath path) w = (w1, Ok (VRef l)) →
  w_heap w1 !! l = Some (ODict d) →
  dict_get "_base_" d = Some bv →
  match bv with
  | VRef lb => match w_heap w1 !! lb with Some (OList fs) => fs | _ => [bv] end
  | _ => [bv]
  end = VStr b :: bases →
  files (abspath (path_join (dirname (abspath path)) b)) = None →
  ∃ w',
    parse_backtest_config abspath files tmp_dir tmp_module (S (S n)) path w
    = (w', Raise (FileNotFoundError
                    (not_found_msg
                       (abspath (path_join (dirname (abspath path)) b))))).
Proof.
  intros Hf Hext Hload Hl Hbase Hbases Hmissing.
  rewrite (parse_with_base _ _ _ _ _ _ _ _ _ _ _ Hf Hext Hload Hl Hbase).
  rewrite Hbases. cbn [merge_bases py_path_join].
  unfold bind at 1, ret at 1.
  eexists. apply bind_raise. rewrite parse_backtest_config_S. cbv zeta.
  unfold check_file_exist. rewrite Hmissing. reflexivity.
Qed.

Lemma parse_backtest_config_missing_base_witness :
  ∃ w',
    parse_backtest_config ex_abspath ex_files_more ex_tmp_dir ex_tmp_module 2
      "orphan.yaml" ex_world
    = (w', Raise (FileNotFoundError (not_found_msg "/cfg/missing.yaml"))).
Proof.
  apply (parse_backtest_config_missing_base ex_abspath ex_files_more ex_tmp_dir
           ex_tmp_module 0 "orphan.yaml" ex_world
           (World [ODict [("_base_", VStr "missing.yaml"); ("z", VInt 3)]]
              (sys_path ex_world) (sys_modules ex_world) 1)
           0 [("_base_", VStr "missing.yaml"); ("z", VInt 3)]
           (VStr "missing.yaml") "missing.yaml" []); try reflexivity.
  - by exists ex_file_orphan.
  - assert (splitext_ext (ex_abspath "orphan.yaml") = ".yaml") as -> by reflexivity.
    do 2 apply list_elem_of_further. apply list_elem_of_here.
Defined.
